(** * A forwarding HTTP proxy: the transaction pipeline of [proxy.c] and
      [concurrentproxy.c], embedded and verified.

    The repository holds two variants of one program: the sequential proxy
    ([proxy.c]) and the concurrent one ([concurrentproxy.c]).  Both share the
    request pipeline (request line, method gate, URI resolution, blocklist,
    upstream relay, log record) and differ in the order of the gates, in the
    blocklist test, in the error page and in how the log is written.

    Conventions of the embedding.
    - A C string is represented by a [string] holding its bytes before the
      terminating NUL.  Where the C code reads a buffer that the outside world
      filled ([buf] after a line read, a blocklist entry), the functions below
      stop at the first NUL the way the C library does.
    - [int] is 32 bits wide; conversions to [int] are written out ([to_int]).
    - [sprintf] is concatenation, which is what it does whenever the
      destination array is large enough.  The array [body] of [clienterror]
      is not large enough for every request: there the bound is part of the
      model, and what the array holds once a store has run past it is taken
      from the outside ([sprintf]).  [snprintf] keeps at most [size - 1]
      bytes.
    - What a transaction does is recorded as the list of its actions, in
      program order ([event]).  What it reads from the outside is gathered in
      a record ([world]). *)

From Stdlib Require Import String Ascii List ZArith Lia Bool Arith Permutation.
From Stdlib Require Import Numbers.DecimalString.
From Stdlib Require Numbers.DecimalPos Numbers.DecimalFacts.
Import ListNotations.

Local Open Scope list_scope.
Local Open Scope string_scope.

(** ** The C library as used by the proxy *)

Module CLib.

Definition NUL : ascii := "000"%char.
Definition CR : ascii := "013"%char.
Definition LF : ascii := "010"%char.
Definition QUOTE : ascii := "034"%char.

(** The two bytes that end every protocol line. *)
Definition CRLF : string := String CR (String LF "").

(** The C string held in a buffer: its bytes before the first NUL. *)
Fixpoint c_str (buf : string) : string :=
  match buf with
  | EmptyString => EmptyString
  | String c rest => if Ascii.eqb c NUL then EmptyString else String c (c_str rest)
  end.

(** [strlen]. *)
Definition strlen (s : string) : nat := String.length s.

(** The value of a byte as [unsigned char]. *)
Definition code (c : ascii) : Z := Z.of_N (N_of_ascii c).

(** [tolower] in the C locale. *)
Definition tolower (c : ascii) : ascii :=
  let n := nat_of_ascii c in
  if andb (65 <=? n)%nat (n <=? 90)%nat then ascii_of_nat (n + 32) else c.

(** A string with every byte lowered. *)
Fixpoint lower (s : string) : string :=
  match s with
  | EmptyString => EmptyString
  | String c rest => String (tolower c) (lower rest)
  end.

(** The byte at the head of a C string; the terminator when it is empty. *)
Definition head_byte (s : string) : ascii :=
  match s with
  | EmptyString => NUL
  | String c _ => c
  end.

Definition tail (s : string) : string :=
  match s with
  | EmptyString => EmptyString
  | String _ rest => rest
  end.

(** [strcasecmp]: walks both strings, compares the lowered bytes, stops at the
    first difference or at the terminator. *)
Fixpoint strcasecmp (s1 s2 : string) : Z :=
  let c1 := tolower (head_byte s1) in
  let c2 := tolower (head_byte s2) in
  if negb (Ascii.eqb c1 c2) then (code c1 - code c2)%Z
  else
    match s1 with
    | EmptyString => 0%Z
    | String a rest1 => if Ascii.eqb a NUL then 0%Z else strcasecmp rest1 (tail s2)
    end.

(** [strncasecmp]: the same over at most [n] bytes. *)
Fixpoint strncasecmp (s1 s2 : string) (n : nat) : Z :=
  match n with
  | O => 0%Z
  | S n' =>
      let c1 := tolower (head_byte s1) in
      let c2 := tolower (head_byte s2) in
      if negb (Ascii.eqb c1 c2) then (code c1 - code c2)%Z
      else if Ascii.eqb (head_byte s1) NUL then 0%Z
      else strncasecmp (tail s1) (tail s2) n'
  end.

(** Membership of a byte in an accept set. *)
Fixpoint mem_char (c : ascii) (set : string) : bool :=
  match set with
  | EmptyString => false
  | String d rest => orb (Ascii.eqb c d) (mem_char c rest)
  end.

(** [strpbrk]: offset of the first byte of [s] that occurs in [accept];
    [None] is the null pointer. *)
Fixpoint strpbrk (s accept : string) : option nat :=
  match s with
  | EmptyString => None
  | String c rest =>
      if mem_char c accept then Some O
      else option_map S (strpbrk rest accept)
  end.

(** [strchr] for a byte other than the terminator. *)
Fixpoint strchr (s : string) (c : ascii) : option nat :=
  match s with
  | EmptyString => None
  | String d rest =>
      if Ascii.eqb d c then Some O else option_map S (strchr rest c)
  end.

(** [strstr]: offset of the first occurrence of [needle] in [haystack]. *)
Fixpoint strstr (haystack needle : string) : option nat :=
  if String.prefix needle haystack then Some O
  else
    match haystack with
    | EmptyString => None
    | String _ rest => option_map S (strstr rest needle)
    end.

(** The string from offset [n] on: pointer arithmetic [s + n]. *)
Fixpoint drop (n : nat) (s : string) : string :=
  match n, s with
  | O, _ => s
  | S n', String _ rest => drop n' rest
  | S _, EmptyString => EmptyString
  end.

(** The first [n] bytes: [strncpy] followed by the terminator at [n]. *)
Fixpoint take (n : nat) (s : string) : string :=
  match n, s with
  | S n', String c rest => String c (take n' rest)
  | _, _ => EmptyString
  end.

(** [isspace] in the C locale: space and the bytes 9 to 13. *)
Definition isspace (c : ascii) : bool :=
  let n := nat_of_ascii c in
  orb (n =? 32)%nat (andb (9 <=? n)%nat (n <=? 13)%nat).

Definition isdigit (c : ascii) : bool :=
  let n := nat_of_ascii c in
  andb (48 <=? n)%nat (n <=? 57)%nat.

(** Conversion of an integer to [int]: the value modulo 2^32, read as a
    signed number. *)
Definition to_int (z : Z) : Z :=
  ((z + 2147483648) mod 4294967296 - 2147483648)%Z.

(** Conversion to [long], 64 bits, saturating as [strtol] does. *)
Definition clamp_long (z : Z) : Z :=
  Z.max (-9223372036854775808) (Z.min 9223372036854775807 z).

(** The digits at the head of [s], accumulated onto [acc]. *)
Fixpoint digits_value (s : string) (acc : Z) : Z :=
  match s with
  | EmptyString => acc
  | String c rest =>
      if isdigit c then digits_value rest (10 * acc + (code c - 48))%Z
      else acc
  end.

Fixpoint skip_space (s : string) : string :=
  match s with
  | EmptyString => EmptyString
  | String c rest => if isspace c then skip_space rest else s
  end.

(** [atoi], that is [(int) strtol (s, NULL, 10)]: leading white space is
    skipped, one sign is accepted, then the digits are read; no digit gives
    0. *)
Definition atoi (s : string) : Z :=
  let s := skip_space s in
  match s with
  | String "-" rest => to_int (clamp_long (- digits_value rest 0))
  | String "+" rest => to_int (clamp_long (digits_value rest 0))
  | _ => to_int (clamp_long (digits_value s 0))
  end.

(** The conversion [%d] of [printf]. *)
Definition fmt_d (z : Z) : string :=
  NilZero.string_of_int (Z.to_int z).

(** [snprintf (dst, size, ...)] given the full text the format expands to:
    at most [size - 1] bytes are stored. *)
Definition snprintf (size : nat) (text : string) : string :=
  take (size - 1) text.

(** [sprintf (dst, ...)] into an array of [size] bytes, given the full text
    the format expands to: the text, when it fits with its terminator.
    Otherwise the store runs past the array, and the string found in the
    array afterwards is not determined by the program: it is [smashed]. *)
Definition sprintf (size : nat) (smashed text : string) : string :=
  if (strlen text <? size)%nat then text else smashed.

(** One [%s] conversion of [sscanf]: white space is skipped, then the bytes up
    to the next white space are taken.  The result is the token, if there is
    one, and the rest of the input. *)
Fixpoint scan_word (s : string) : string * string :=
  match s with
  | EmptyString => (EmptyString, EmptyString)
  | String c rest =>
      if isspace c then (EmptyString, s)
      else let (w, r) := scan_word rest in (String c w, r)
  end.

Definition scan_s (s : string) : option (string * string) :=
  match skip_space s with
  | EmptyString => None
  | s' => Some (scan_word s')
  end.

End CLib.

Import CLib.

(** ** What a transaction does and what it reads *)

(** The actions of one transaction, in program order. *)
Inductive event : Type :=
| ClientWrite (bytes : string)        (* Rio_writen (connfd, ...) *)
| Resolve (uri : string)              (* the call of parse_uri *)
| Connect (hostname port : string)    (* Open_clientfd (hostname, port_str) *)
| ServerWrite (bytes : string)        (* Rio_writen (clientfd, ...) *)
| Format                              (* format_log_entry: reads the clock, builds the record *)
| LogLock                             (* pthread_mutex_lock (&log_mutex) *)
| LogWrite (bytes : string)           (* fprintf (log, "%s\n", ...) *)
| LogFlush                            (* fflush (log) *)
| LogUnlock                           (* pthread_mutex_unlock (&log_mutex) *)
| ServerClose.                        (* Close (clientfd) *)

(** What one transaction reads from outside the program. *)
Record world : Type := {
  (* the bytes Rio_readlineb stored in buf for the request line; none when it
     returned 0 *)
  request_line : string;
  (* the indeterminate contents of method, uri and version before sscanf *)
  stack_method : string;
  stack_uri : string;
  stack_version : string;
  (* whether Open_clientfd (hostname, port) returns a descriptor *)
  connect_ok : string -> string -> bool;
  (* what the successive calls of Rio_readlineb on the server socket store
     in buf; after the last one the call returns 0 *)
  response : list string;
  (* strftime of the local time, and inet_ntop of the client address *)
  time_str : string;
  host_ip : string;
  (* the string found in the array body of clienterror once a text too long
     for it has been stored there: by strlen when the header is formatted,
     and by Rio_writen when the page is sent *)
  body_measured : string -> string;
  body_written : string -> string
}.

(** [static const char *user_agent_hdr]. *)
Definition user_agent_hdr : string :=
  "User-Agent: Mozilla/5.0 (X11; Linux x86_64; rv:10.0.3) Gecko/20120305 Firefox/10.0.3"
  ++ CRLF.

(** [sscanf (buf, "%s %s %s", method, uri, version)]: a conversion that finds
    no token leaves its array, and those after it, as they were. *)
Definition sscanf3 (w : world) : string * string * string :=
  match scan_s (c_str (request_line w)) with
  | None => (stack_method w, stack_uri w, stack_version w)
  | Some (method, r1) =>
      match scan_s r1 with
      | None => (method, stack_uri w, stack_version w)
      | Some (uri, r2) =>
          match scan_s r2 with
          | None => (method, uri, stack_version w)
          | Some (version, _) => (method, uri, version)
          end
      end
  end.

(** The accept set of [strpbrk] in [parse_uri]: the literal [" :/\r\n\0"].
    As a C string it ends at the NUL written inside it. *)
Definition host_delims : string :=
  c_str (" :/" ++ String CR (String LF (String NUL ""))).

(** The part of [parse_uri] after the scheme test, the same in both
    variants: host name, port and path, given [hostbegin]. *)
Definition parse_from (hostbegin : string) : option (string * string * Z) :=
  match strpbrk hostbegin host_delims with
  | None => None
  | Some len =>
      let hostname := take len hostbegin in
      let hostend := drop len hostbegin in
      let port :=
        if Ascii.eqb (head_byte hostend) ":" then atoi (drop 1 hostend)
        else 80%Z in
      let pathname :=
        match strchr hostbegin "/" with
        | Some i => drop i hostbegin
        | None => "/"
        end in
      Some (hostname, pathname, port)
  end.

(** [format_log_entry]: the record, from the formatted time, the client
    address, the URI and the size. *)
Definition format_log_entry (w : world) (uri : string) (size : Z) : string :=
  "[" ++ time_str w ++ "] " ++ host_ip w ++ " " ++ uri ++ " " ++ fmt_d size.

(** The relay loop: every read that returns bytes is written to the client
    and added to [size], an [int]; a read that returns 0 ends the loop. *)
Fixpoint relay (reads : list string) (size : Z) : list event * Z :=
  match reads with
  | [] => ([], size)
  | buf :: rest =>
      if (strlen buf =? 0)%nat then ([], size)
      else
        let (evs, total) := relay rest (to_int (size + Z.of_nat (strlen buf))) in
        (ClientWrite buf :: evs, total)
  end.

(** The method gate: [strcasecmp (method, "GET") && strcasecmp (method, "HEAD")]. *)
Definition method_refused (method : string) : bool :=
  andb (negb (strcasecmp method "GET" =? 0)%Z)
       (negb (strcasecmp method "HEAD" =? 0)%Z).

(** [pathname[0] ? pathname : "/"]. *)
Definition path_or_root (pathname : string) : string :=
  match pathname with
  | EmptyString => "/"
  | _ => pathname
  end.

(** ** The sequential proxy, [proxy.c] *)

Module Sequential.

(** [parse_uri]: [None] is the return value -1.  The host is looked for from
    [uri + 7] whichever scheme matched: the assignment after the scheme test
    overwrites [hostbegin]. *)
Definition parse_uri (uri : string) : option (string * string * Z) :=
  let scheme :=
    if (strncasecmp uri "http://" 7 =? 0)%Z then Some (drop 7 uri)
    else if (strncasecmp uri "https://" 8 =? 0)%Z then Some (drop 8 uri)
    else None in
  match scheme with
  | None => None
  | Some _ =>
      let hostbegin := drop 7 uri in
      parse_from hostbegin
  end.

(** [clienterror].  The text the format of the page expands to. *)
Definition error_text (cause errnum shortmsg longmsg : string) : string :=
  "<html><title>Proxy Error</title><body bgcolor="
  ++ String QUOTE "ffffff" ++ String QUOTE ">"
  ++ errnum ++ ": " ++ shortmsg ++ "<p>" ++ longmsg ++ ": " ++ cause
  ++ "<hr><em>The CS:APP Proxy Server</em></body></html>".

(** The string in [body], an array of [MAXBUF] bytes, after
    [sprintf (body, ...)]. *)
Definition error_body (MAXBUF : nat)
    (smashed cause errnum shortmsg longmsg : string) : string :=
  sprintf MAXBUF smashed (error_text cause errnum shortmsg longmsg).

Definition error_header (errnum shortmsg body : string) : string :=
  "HTTP/1.0 " ++ errnum ++ " " ++ shortmsg ++ CRLF
  ++ "Content-type: text/html" ++ CRLF
  ++ "Content-length: " ++ fmt_d (to_int (Z.of_nat (strlen body))) ++ CRLF ++ CRLF.

(** The header is formatted from [strlen (body)]; then header and body are
    written in two calls.  When the page did not fit [body], [strlen] and
    [Rio_writen] each read what the array holds at that moment, and the two
    need not agree: [buf] is filled in between. *)
Definition clienterror (MAXBUF : nat) (w : world)
    (cause errnum shortmsg longmsg : string) : list event :=
  let text := error_text cause errnum shortmsg longmsg in
  let buf :=
    error_header errnum shortmsg
      (error_body MAXBUF (body_measured w text) cause errnum shortmsg longmsg) in
  let body :=
    error_body MAXBUF (body_written w text) cause errnum shortmsg longmsg in
  [ClientWrite buf; ClientWrite body].

(** The blocklist loop: some entry equals the host name under [strcasecmp]. *)
Definition blocked (blocklist : list string) (hostname : string) : bool :=
  existsb (fun entry => (strcasecmp hostname entry =? 0)%Z) blocklist.

(** The request sent to the server: two [snprintf] into [buf], the second
    after the first. *)
Definition upstream_request (MAXLINE : nat) (method pathname hostname : string)
  : string :=
  let buf :=
    snprintf MAXLINE
      (method ++ " " ++ path_or_root pathname ++ " HTTP/1.0" ++ CRLF
       ++ "Host: " ++ hostname ++ CRLF) in
  buf ++ snprintf (MAXLINE - strlen buf)
           (user_agent_hdr ++ "Connection: close" ++ CRLF
            ++ "Proxy-Connection: close" ++ CRLF ++ CRLF).

(** What follows a successful connection: request, relay, log, close. *)
Definition forward (MAXLINE : nat) (w : world)
    (method uri hostname pathname : string) : list event :=
  let (writes, size) := relay (response w) 0%Z in
  (ServerWrite (upstream_request MAXLINE method pathname hostname)
   :: writes
   ++ [Format; LogWrite (format_log_entry w uri size ++ String LF ""); LogFlush;
       ServerClose])%list.

(** [proxy]: one transaction. *)
Definition proxy (MAXLINE MAXBUF : nat) (blocklist : list string) (w : world)
  : list event :=
  if (strlen (request_line w) =? 0)%nat then []
  else
    let '(method, uri, version) := sscanf3 w in
    if method_refused method then
      clienterror MAXBUF w method "501" "Not Implemented"
        "Method not implemented"
    else
      Resolve uri ::
      match parse_uri uri with
      | None =>
          clienterror MAXBUF w uri "400" "Bad Request" "Cannot parse the request"
      | Some (hostname, pathname, port) =>
          if blocked blocklist hostname then
            clienterror MAXBUF w "Blocked" "403" "Forbidden"
              "This site is blocked by the proxy."
          else
            let port_str := snprintf 6 (fmt_d port) in
            Connect hostname port_str ::
            if negb (connect_ok w hostname port_str) then
              clienterror MAXBUF w hostname "404" "Not Found"
                "Cannot connect to the host"
            else forward MAXLINE w method uri hostname pathname
      end.

End Sequential.

(** ** The concurrent proxy, [concurrentproxy.c] *)

Module Concurrent.

(** [parse_uri]: only [http://] is accepted. *)
Definition parse_uri (uri : string) : option (string * string * Z) :=
  if negb (strncasecmp uri "http://" 7 =? 0)%Z then None
  else
    let hostbegin := drop 7 uri in
    parse_from hostbegin.

(** [clienterror]: the body is built by five [sprintf], each appending to
    what the previous one left; the header likewise by three.  The text the
    last of the five stores: *)
Definition error_text (cause errnum shortmsg longmsg : string) : string :=
  let body := "<html><title>Proxy Error</title>" in
  let body := body ++ "<body bgcolor=" ++ "ffffff" ++ ">" ++ CRLF in
  let body := body ++ errnum ++ ": " ++ shortmsg ++ CRLF in
  let body := body ++ "<p>" ++ longmsg ++ ": " ++ cause ++ CRLF in
  body ++ "<hr><em>The CS:APP Proxy Server</em>" ++ CRLF.

(** The string in [body], an array of [MAXBUF] bytes, after the five
    [sprintf].  Each of them stores a text that the next one extends, so
    that all five stay inside the array exactly when the last one does. *)
Definition error_body (MAXBUF : nat)
    (smashed cause errnum shortmsg longmsg : string) : string :=
  sprintf MAXBUF smashed (error_text cause errnum shortmsg longmsg).

Definition error_header (errnum shortmsg body : string) : string :=
  let buf := "HTTP/1.0 " ++ errnum ++ " " ++ shortmsg ++ CRLF in
  let buf := buf ++ "Content-type: text/html" ++ CRLF in
  buf ++ "Content-length: " ++ fmt_d (to_int (Z.of_nat (strlen body)))
      ++ CRLF ++ CRLF.

(** The header is formatted from [strlen (body)]; then header and body are
    written in two calls.  When the page did not fit [body], [strlen] and
    [Rio_writen] each read what the array holds at that moment, and the two
    need not agree: [buf] is filled in between. *)
Definition clienterror (MAXBUF : nat) (w : world)
    (cause errnum shortmsg longmsg : string) : list event :=
  let text := error_text cause errnum shortmsg longmsg in
  let buf :=
    error_header errnum shortmsg
      (error_body MAXBUF (body_measured w text) cause errnum shortmsg longmsg) in
  let body :=
    error_body MAXBUF (body_written w text) cause errnum shortmsg longmsg in
  [ClientWrite buf; ClientWrite body].

(** The blocklist loop: some entry occurs in the URI ([strstr]). *)
Definition blocked (blocklist : list string) (uri : string) : bool :=
  existsb (fun entry => match strstr uri entry with
                        | Some _ => true
                        | None => false
                        end) blocklist.

(** The request sent to the server; the second format itself starts with
    ["User-Agent: "], before [user_agent_hdr]. *)
Definition upstream_request (MAXLINE : nat) (method pathname hostname : string)
  : string :=
  let buf :=
    snprintf MAXLINE
      (method ++ " " ++ path_or_root pathname ++ " HTTP/1.0" ++ CRLF
       ++ "Host: " ++ hostname ++ CRLF) in
  buf ++ snprintf (MAXLINE - strlen buf)
           ("User-Agent: " ++ user_agent_hdr ++ "Connection: close" ++ CRLF
            ++ "Proxy-Connection: close" ++ CRLF ++ CRLF).

(** [log_request]: under the mutex, the record and a newline are written and
    flushed if the log is open. *)
Definition log_request (log_file : bool) (log_entry : string) : list event :=
  ([LogLock]
   ++ (if log_file then [LogWrite (log_entry ++ String LF ""); LogFlush] else [])
   ++ [LogUnlock])%list.

Definition forward (MAXLINE : nat) (log_file : bool) (w : world)
    (method uri hostname pathname : string) : list event :=
  let (writes, size) := relay (response w) 0%Z in
  (ServerWrite (upstream_request MAXLINE method pathname hostname)
   :: writes
   ++ [Format] ++ log_request log_file (format_log_entry w uri size)
   ++ [ServerClose])%list.

(** [proxy]: one transaction; the blocklist is consulted before the URI is
    resolved. *)
Definition proxy (MAXLINE MAXBUF : nat) (blocklist : list string)
    (log_file : bool) (w : world) : list event :=
  if (strlen (request_line w) =? 0)%nat then []
  else
    let '(method, uri, version) := sscanf3 w in
    if method_refused method then
      clienterror MAXBUF w method "501" "Not Implemented"
        "This method is not implemented by the proxy"
    else if blocked blocklist uri then
      clienterror MAXBUF w "Blocked" "403" "Forbidden"
        "This site is blocked by the proxy."
    else
      Resolve uri ::
      match parse_uri uri with
      | None =>
          clienterror MAXBUF w uri "400" "Bad Request"
            "Proxy cannot parse the request"
      | Some (hostname, pathname, port) =>
          let port_str := snprintf 6 (fmt_d port) in
          Connect hostname port_str ::
          if negb (connect_ok w hostname port_str) then
            clienterror MAXBUF w hostname "404" "Not found"
              "Cannot connect to the host"
          else forward MAXLINE log_file w method uri hostname pathname
      end.

End Concurrent.

(** ** Notions the properties are stated with *)

(** The values CS:APP's [csapp.h] gives to [MAXLINE] and [MAXBUF]; the
    header is not among the sources, so the proxies above take the bounds as
    arguments and these values only serve to run them. *)
Definition CSAPP_MAXLINE : nat := 8 * 1024.

Definition CSAPP_MAXBUF : nat := 8 * 1024.

Definition INT_MAX : Z := 2147483647.

(** Equality of two C strings up to the case of ASCII letters. *)
Definition ci_equal (a b : string) : Prop := lower (c_str a) = lower (c_str b).

(** [needle] occurs somewhere in [haystack], byte for byte. *)
Definition occurs_in (needle haystack : string) : Prop :=
  exists pre post, haystack = pre ++ needle ++ post.

(** The first word of the request line, which [sscanf] stores in [method]. *)
Definition method_token (line : string) : option string :=
  option_map fst (scan_s (c_str line)).

(** The characters that end a host name: space, colon, slash, CR, LF. *)
Definition is_delim (c : ascii) : bool :=
  orb (Ascii.eqb c " ")
   (orb (Ascii.eqb c ":")
     (orb (Ascii.eqb c "/") (orb (Ascii.eqb c CR) (Ascii.eqb c LF)))).

(** The host name as the specification words it: the bytes of [s] up to the
    first delimiter, and nothing when no delimiter occurs. *)
Fixpoint spec_hostname (s : string) : option string :=
  match s with
  | EmptyString => None
  | String c rest =>
      if is_delim c then Some EmptyString
      else option_map (String c) (spec_hostname rest)
  end.

(** No number stands at the head of [s] for [atoi]: after the white space
    and one sign that it skips, the next byte is not a digit. *)
Definition no_number (s : string) : bool :=
  match skip_space s with
  | String "-" rest => negb (isdigit (head_byte rest))
  | String "+" rest => negb (isdigit (head_byte rest))
  | s' => negb (isdigit (head_byte s'))
  end.

(** A string of [n] copies of one byte. *)
Fixpoint replicate (n : nat) (c : ascii) : string :=
  match n with
  | O => EmptyString
  | S n' => String c (replicate n' c)
  end.

(** Projections of a trace. *)
Fixpoint log_lines (tr : list event) : list string :=
  match tr with
  | [] => []
  | LogWrite bytes :: rest => bytes :: log_lines rest
  | _ :: rest => log_lines rest
  end.

Fixpoint client_bytes (tr : list event) : string :=
  match tr with
  | [] => EmptyString
  | ClientWrite bytes :: rest => bytes ++ client_bytes rest
  | _ :: rest => client_bytes rest
  end.

Fixpoint server_writes (tr : list event) : list string :=
  match tr with
  | [] => []
  | ServerWrite bytes :: rest => bytes :: server_writes rest
  | _ :: rest => server_writes rest
  end.

Fixpoint connects (tr : list event) : list (string * string) :=
  match tr with
  | [] => []
  | Connect hostname port :: rest => (hostname, port) :: connects rest
  | _ :: rest => connects rest
  end.

Fixpoint resolutions (tr : list event) : list string :=
  match tr with
  | [] => []
  | Resolve uri :: rest => uri :: resolutions rest
  | _ :: rest => resolutions rest
  end.

(** The bytes the server delivered: the reads up to the first one that
    returns nothing. *)
Fixpoint received (reads : list string) : string :=
  match reads with
  | [] => EmptyString
  | buf :: rest =>
      if (strlen buf =? 0)%nat then EmptyString else buf ++ received rest
  end.

(** The ways a transaction can go. *)
Inductive path : Type :=
| EmptyRead
| UnsupportedMethod (method : string)
| MalformedUri (uri : string)
| BlockedHost (uri : string)
| ConnectFailure (uri hostname : string) (port : Z)
| Completed (method uri hostname pathname : string) (port : Z).

(** The way the sequential proxy takes, from the gates in their order. *)
Inductive seq_path (blocklist : list string) (w : world) : path -> Prop :=
| seq_empty :
    strlen (request_line w) = O ->
    seq_path blocklist w EmptyRead
| seq_method : forall method uri version,
    strlen (request_line w) <> O ->
    sscanf3 w = (method, uri, version) ->
    method_refused method = true ->
    seq_path blocklist w (UnsupportedMethod method)
| seq_malformed : forall method uri version,
    strlen (request_line w) <> O ->
    sscanf3 w = (method, uri, version) ->
    method_refused method = false ->
    Sequential.parse_uri uri = None ->
    seq_path blocklist w (MalformedUri uri)
| seq_blocked : forall method uri version hostname pathname port,
    strlen (request_line w) <> O ->
    sscanf3 w = (method, uri, version) ->
    method_refused method = false ->
    Sequential.parse_uri uri = Some (hostname, pathname, port) ->
    Sequential.blocked blocklist hostname = true ->
    seq_path blocklist w (BlockedHost uri)
| seq_unreachable : forall method uri version hostname pathname port,
    strlen (request_line w) <> O ->
    sscanf3 w = (method, uri, version) ->
    method_refused method = false ->
    Sequential.parse_uri uri = Some (hostname, pathname, port) ->
    Sequential.blocked blocklist hostname = false ->
    connect_ok w hostname (snprintf 6 (fmt_d port)) = false ->
    seq_path blocklist w (ConnectFailure uri hostname port)
| seq_completed : forall method uri version hostname pathname port,
    strlen (request_line w) <> O ->
    sscanf3 w = (method, uri, version) ->
    method_refused method = false ->
    Sequential.parse_uri uri = Some (hostname, pathname, port) ->
    Sequential.blocked blocklist hostname = false ->
    connect_ok w hostname (snprintf 6 (fmt_d port)) = true ->
    seq_path blocklist w (Completed method uri hostname pathname port).

(** The way the concurrent proxy takes. *)
Inductive conc_path (blocklist : list string) (w : world) : path -> Prop :=
| conc_empty :
    strlen (request_line w) = O ->
    conc_path blocklist w EmptyRead
| conc_method : forall method uri version,
    strlen (request_line w) <> O ->
    sscanf3 w = (method, uri, version) ->
    method_refused method = true ->
    conc_path blocklist w (UnsupportedMethod method)
| conc_blocked : forall method uri version,
    strlen (request_line w) <> O ->
    sscanf3 w = (method, uri, version) ->
    method_refused method = false ->
    Concurrent.blocked blocklist uri = true ->
    conc_path blocklist w (BlockedHost uri)
| conc_malformed : forall method uri version,
    strlen (request_line w) <> O ->
    sscanf3 w = (method, uri, version) ->
    method_refused method = false ->
    Concurrent.blocked blocklist uri = false ->
    Concurrent.parse_uri uri = None ->
    conc_path blocklist w (MalformedUri uri)
| conc_unreachable : forall method uri version hostname pathname port,
    strlen (request_line w) <> O ->
    sscanf3 w = (method, uri, version) ->
    method_refused method = false ->
    Concurrent.blocked blocklist uri = false ->
    Concurrent.parse_uri uri = Some (hostname, pathname, port) ->
    connect_ok w hostname (snprintf 6 (fmt_d port)) = false ->
    conc_path blocklist w (ConnectFailure uri hostname port)
| conc_completed : forall method uri version hostname pathname port,
    strlen (request_line w) <> O ->
    sscanf3 w = (method, uri, version) ->
    method_refused method = false ->
    Concurrent.blocked blocklist uri = false ->
    Concurrent.parse_uri uri = Some (hostname, pathname, port) ->
    connect_ok w hostname (snprintf 6 (fmt_d port)) = true ->
    conc_path blocklist w (Completed method uri hostname pathname port).

(** The status code and reason each failure is answered with; [not_found]
    is the reason the variant at hand gives with 404. *)
Definition status_of (not_found : string) (p : path) : option (string * string) :=
  match p with
  | UnsupportedMethod _ => Some ("501", "Not Implemented")
  | MalformedUri _ => Some ("400", "Bad Request")
  | BlockedHost _ => Some ("403", "Forbidden")
  | ConnectFailure _ _ _ => Some ("404", not_found)
  | _ => None
  end.

(** The cause string the page of a failure names. *)
Definition cause_of (p : path) : string :=
  match p with
  | UnsupportedMethod method => method
  | MalformedUri uri => uri
  | BlockedHost _ => "Blocked"
  | ConnectFailure _ hostname _ => hostname
  | _ => ""
  end.

(** The description each variant gives of a failure. *)
Definition seq_description (p : path) : string :=
  match p with
  | UnsupportedMethod _ => "Method not implemented"
  | MalformedUri _ => "Cannot parse the request"
  | BlockedHost _ => "This site is blocked by the proxy."
  | ConnectFailure _ _ _ => "Cannot connect to the host"
  | _ => ""
  end.

Definition conc_description (p : path) : string :=
  match p with
  | UnsupportedMethod _ => "This method is not implemented by the proxy"
  | MalformedUri _ => "Proxy cannot parse the request"
  | BlockedHost _ => "This site is blocked by the proxy."
  | ConnectFailure _ _ _ => "Cannot connect to the host"
  | _ => ""
  end.

(** An error response as the specification words it: the status line of
    HTTP/1.0 with the code and reason, the content type, a content length
    that is the length of the body, an empty line, then the body. *)
Definition error_response (code reason body : string) : string :=
  "HTTP/1.0 " ++ code ++ " " ++ reason ++ CRLF
  ++ "Content-type: text/html" ++ CRLF
  ++ "Content-length: " ++ fmt_d (Z.of_nat (strlen body)) ++ CRLF
  ++ CRLF ++ body.

(** What the sequential proxy does on each path. *)
Definition seq_trace (MAXLINE MAXBUF : nat) (w : world) (p : path)
  : list event :=
  match p with
  | EmptyRead => []
  | UnsupportedMethod method =>
      Sequential.clienterror MAXBUF w method "501" "Not Implemented"
        "Method not implemented"
  | MalformedUri uri =>
      Resolve uri
      :: Sequential.clienterror MAXBUF w uri "400" "Bad Request"
           "Cannot parse the request"
  | BlockedHost uri =>
      Resolve uri
      :: Sequential.clienterror MAXBUF w "Blocked" "403" "Forbidden"
           "This site is blocked by the proxy."
  | ConnectFailure uri hostname port =>
      Resolve uri :: Connect hostname (snprintf 6 (fmt_d port))
      :: Sequential.clienterror MAXBUF w hostname "404" "Not Found"
           "Cannot connect to the host"
  | Completed method uri hostname pathname port =>
      Resolve uri :: Connect hostname (snprintf 6 (fmt_d port))
      :: Sequential.forward MAXLINE w method uri hostname pathname
  end.

(** What the concurrent proxy does on each path. *)
Definition conc_trace (MAXLINE MAXBUF : nat) (log_file : bool) (w : world)
    (p : path) : list event :=
  match p with
  | EmptyRead => []
  | UnsupportedMethod method =>
      Concurrent.clienterror MAXBUF w method "501" "Not Implemented"
        "This method is not implemented by the proxy"
  | MalformedUri uri =>
      Resolve uri
      :: Concurrent.clienterror MAXBUF w uri "400" "Bad Request"
           "Proxy cannot parse the request"
  | BlockedHost uri =>
      Concurrent.clienterror MAXBUF w "Blocked" "403" "Forbidden"
        "This site is blocked by the proxy."
  | ConnectFailure uri hostname port =>
      Resolve uri :: Connect hostname (snprintf 6 (fmt_d port))
      :: Concurrent.clienterror MAXBUF w hostname "404" "Not found"
           "Cannot connect to the host"
  | Completed method uri hostname pathname port =>
      Resolve uri :: Connect hostname (snprintf 6 (fmt_d port))
      :: Concurrent.forward MAXLINE log_file w method uri hostname pathname
  end.

(** The request as the specification words it, with the User-Agent line left
    open. *)
Definition request_text (user_agent_line method pathname hostname : string)
  : string :=
  method ++ " " ++ pathname ++ " HTTP/1.0" ++ CRLF
  ++ "Host: " ++ hostname ++ CRLF
  ++ user_agent_line
  ++ "Connection: close" ++ CRLF ++ "Proxy-Connection: close" ++ CRLF ++ CRLF.

(** ** Threads of the concurrent proxy sharing the log

    [main] starts one thread per connection; each runs [proxy].  The threads
    share [log_mutex] and the stream [log_file].  A thread is what it still
    has to do; the stream is its buffer and the bytes already in the file.
    [fprintf] stores its bytes one after the other, so that a thread can be
    preempted in the middle of a record. *)

Record thread_state : Type := {
  holds : bool;             (* this thread has locked log_mutex *)
  todo : list event         (* the actions still to come *)
}.

Record shared : Type := {
  locked : bool;            (* log_mutex *)
  buffer : string;          (* bytes of log_file not yet flushed *)
  file : string;            (* bytes of proxy.log *)
  threads : list thread_state
}.

Definition set_thread (i : nat) (t : thread_state) (ts : list thread_state)
  : list thread_state :=
  (firstn i ts ++ t :: skipn (S i) ts)%list.

(** One action of thread [i]; [None] when the thread cannot move: it has
    finished, or waits for the mutex. *)
Definition step (i : nat) (s : shared) : option shared :=
  match nth_error (threads s) i with
  | None => None
  | Some t =>
      let continue h rest lk buf fl :=
        Some {| locked := lk; buffer := buf; file := fl;
                threads := set_thread i {| holds := h; todo := rest |} (threads s) |} in
      match todo t with
      | [] => None
      | LogLock :: rest =>
          if locked s then None
          else continue true rest true (buffer s) (file s)
      | LogUnlock :: rest =>
          if holds t then continue false rest false (buffer s) (file s)
          else None
      | LogWrite EmptyString :: rest =>
          continue (holds t) rest (locked s) (buffer s) (file s)
      | LogWrite (String c bytes) :: rest =>
          continue (holds t) (LogWrite bytes :: rest) (locked s)
            (buffer s ++ String c "") (file s)
      | LogFlush :: rest =>
          continue (holds t) rest (locked s) "" (file s ++ buffer s)
      | _ :: rest =>
          continue (holds t) rest (locked s) (buffer s) (file s)
      end
  end.

(** A run under a schedule, the list of the threads that move in turn. *)
Fixpoint run (schedule : list nat) (s : shared) : option shared :=
  match schedule with
  | [] => Some s
  | i :: later =>
      match step i s with
      | None => None
      | Some s' => run later s'
      end
  end.

(** The start: no thread has moved, the log is as [main] opened it. *)
Definition start (traces : list (list event)) : shared :=
  {| locked := false; buffer := ""; file := "";
     threads := map (fun tr => {| holds := false; todo := tr |}) traces |}.

(** The bytes of the log, flushed or not. *)
Definition log_content (s : shared) : string := file s ++ buffer s.

Definition finished (s : shared) : Prop :=
  Forall (fun t => todo t = []) (threads s).

Fixpoint flatten (records : list string) : string :=
  match records with
  | [] => EmptyString
  | r :: rest => r ++ flatten rest
  end.

(** The records a thread writes: for each critical section, the bytes written
    between lock and unlock.  [cur] holds the bytes of the section under
    way, if the thread is in one. *)
Fixpoint records (cur : option string) (tr : list event) : list string :=
  match tr with
  | [] => []
  | LogLock :: rest => records (Some EmptyString) rest
  | LogWrite bytes :: rest =>
      match cur with
      | Some acc => records (Some (acc ++ bytes)) rest
      | None => records None rest
      end
  | LogUnlock :: rest =>
      match cur with
      | Some acc => acc :: records None rest
      | None => records None rest
      end
  | _ :: rest => records cur rest
  end.

(** The log is touched under the mutex only: writes and flushes stand
    between a lock and its unlock, and sections do not nest. *)
Fixpoint disciplined (inside : bool) (tr : list event) : bool :=
  match tr with
  | [] => negb inside
  | LogLock :: rest => andb (negb inside) (disciplined true rest)
  | LogUnlock :: rest => andb inside (disciplined false rest)
  | LogWrite _ :: rest => andb inside (disciplined inside rest)
  | LogFlush :: rest => andb inside (disciplined inside rest)
  | _ :: rest => disciplined inside rest
  end.

Fixpoint count_holders (ts : list thread_state) : nat :=
  match ts with
  | [] => O
  | t :: rest => (if holds t then 1 else 0) + count_holders rest
  end.

(** The records still to be completed, the one under way included. *)
Definition futures (cur : string) (ts : list thread_state) : list string :=
  List.concat
    (map (fun t => records (if holds t then Some cur else None) (todo t)) ts).

(** What holds of the threads and the log throughout a run.  [all] lists the
    records the threads write in total; [done] are those already complete in
    the log, in the order of the log; [cur] is the part already written of
    the record of the thread in the critical section. *)
Definition log_invariant (all : list string) (s : shared) : Prop :=
  exists (done : list string) (cur : string),
    log_content s = flatten done ++ cur
    /\ (locked s = false -> cur = "")
    /\ count_holders (threads s) = (if locked s then 1 else 0)%nat
    /\ Forall (fun t => disciplined (holds t) (todo t) = true) (threads s)
    /\ Permutation all (done ++ futures cur (threads s)).

(** ** Sample transactions *)

(** A request for [uri] from a client whose server, if reached, answers with
    a short page. *)
Definition get_request (uri : string) : world :=
  {| request_line := "GET " ++ uri ++ " HTTP/1.1" ++ CRLF;
     stack_method := ""; stack_uri := ""; stack_version := "";
     connect_ok := fun _ _ => true;
     response := ["HTTP/1.0 200 OK" ++ CRLF; CRLF; "hello"];
     time_str := "Mon 02 Nov 2026 10:00:00 UTC";
     host_ip := "192.0.2.7";
     body_measured := fun text => text;
     body_written := fun text => text |}.

Definition get_world : world := get_request "http://example.com:8080/a/b".

Definition post_world : world :=
  {| request_line := "POST http://example.com/form HTTP/1.1" ++ CRLF;
     stack_method := ""; stack_uri := ""; stack_version := "";
     connect_ok := fun _ _ => true;
     response := ["HTTP/1.0 200 OK" ++ CRLF; CRLF; "done"];
     time_str := "Mon 02 Nov 2026 10:00:00 UTC";
     host_ip := "192.0.2.7";
     body_measured := fun text => text;
     body_written := fun text => text |}.

(** A download: the request of a client and a server answering with [reads]. *)
Definition download_world (reads : list string) : world :=
  {| request_line := "GET http://example.com/big HTTP/1.1" ++ CRLF;
     stack_method := ""; stack_uri := ""; stack_version := "";
     connect_ok := fun _ _ => true;
     response := reads;
     time_str := "Mon 02 Nov 2026 10:00:00 UTC";
     host_ip := "192.0.2.7";
     body_measured := fun text => text;
     body_written := fun text => text |}.

(** A response of 2^31 empty lines: each read returns one newline. *)
Definition two_gib_of_newlines : list string :=
  repeat (String LF "") (Z.to_nat 2147483648).

(** A path of 8101 bytes. *)
Definition long_path : string := "/" ++ replicate (81 * 100) "a".

(** A request for a long path: the request line fits the line buffer, the
    rewritten request does not. *)
Definition long_world : world :=
  {| request_line :=
       "GET http://example.com" ++ long_path ++ " HTTP/1.1" ++ CRLF;
     stack_method := ""; stack_uri := ""; stack_version := "";
     connect_ok := fun _ _ => true;
     response := ["HTTP/1.0 200 OK" ++ CRLF; CRLF; "hello"];
     time_str := "Mon 02 Nov 2026 10:00:00 UTC";
     host_ip := "192.0.2.7";
     body_measured := fun text => text;
     body_written := fun text => text |}.

(** A request with a method of 8100 letters: the request line fits the line
    buffer, the page that refuses the method does not fit [body].  What is
    found in [body] after the store is left open. *)
Definition long_method : string := replicate (81 * 100) "A".

Definition long_method_world (measured written : string -> string) : world :=
  {| request_line := long_method ++ " http://example.com/ HTTP/1.1" ++ CRLF;
     stack_method := ""; stack_uri := ""; stack_version := "";
     connect_ok := fun _ _ => true;
     response := ["HTTP/1.0 200 OK" ++ CRLF; CRLF; "hello"];
     time_str := "Mon 02 Nov 2026 10:00:00 UTC";
     host_ip := "192.0.2.7";
     body_measured := measured;
     body_written := written |}.

(** Two transactions, and a schedule that lets the second one run while the
    first is in the middle of its record. *)
Definition two_worlds : list world :=
  [get_request "http://a.example/"; get_request "http://b.example/"].

Definition interleaved_schedule : list nat :=
  (repeat 0 18 ++ repeat 1 7 ++ repeat 0 55 ++ repeat 1 66)%list%nat.

(** ** Loading the blocklist: [read_blocklist] *)

(** [#define MAX_BLOCKLIST 100]. *)
Definition MAX_BLOCKLIST : nat := 100.

(** [strcspn]: the number of bytes of the C string [s] before the first one
    that occurs in [reject]. *)
Fixpoint strcspn (s reject : string) : nat :=
  match s with
  | EmptyString => O
  | String c rest =>
      if orb (Ascii.eqb c NUL) (mem_char c reject) then O
      else S (strcspn rest reject)
  end.

(** The bytes one call of [fgets] stores when it has room for [room] of them:
    the bytes of the stream up to and including the first newline.  The
    second component is what is left of the stream. *)
Fixpoint fgets_line (room : nat) (stream : string) : string * string :=
  match room, stream with
  | S room', String c rest =>
      if Ascii.eqb c LF then (String c "", rest)
      else let (line, remaining) := fgets_line room' rest in (String c line, remaining)
  | _, _ => (EmptyString, stream)
  end.

(** [fgets (s, n, stream)]: [None] is the null pointer, returned at the end
    of the file; otherwise at most [n - 1] bytes are stored. *)
Definition fgets (n : nat) (stream : string) : option (string * string) :=
  match stream with
  | EmptyString => None
  | _ => Some (fgets_line (n - 1) stream)
  end.

(** What [read_blocklist] leaves: the rows of [blocklist] below
    [blocklist_count], or a store past the last row of the array. *)
Inductive load_result : Type :=
| Loaded (blocklist : list string)
| Overrun.

(** The loop of [read_blocklist].  Each turn [fgets] stores a line in row
    [blocklist_count], the line is cut at its newline, and the row is kept
    when it is not empty.  Nothing compares [blocklist_count] with
    [MAX_BLOCKLIST]: a line read when the array is full is stored past it.
    [fuel] bounds the number of turns; [None] is the loop that does not
    end. *)
Fixpoint read_loop (fuel MAXLINE : nat) (stream : string)
    (blocklist : list string) : option load_result :=
  match fuel with
  | O => None
  | S fuel' =>
      match fgets MAXLINE stream with
      | None => Some (Loaded blocklist)
      | Some (buf, remaining) =>
          if (MAX_BLOCKLIST <=? List.length blocklist)%nat then Some Overrun
          else
            let entry := take (strcspn buf (String LF "")) buf in
            if (0 <? strlen entry)%nat
            then read_loop fuel' MAXLINE remaining (blocklist ++ [entry])%list
            else read_loop fuel' MAXLINE remaining blocklist
      end
  end.

(** [read_blocklist]: [file] is the content of the file, [None] when it
    cannot be opened; [blocklist] is the array as the call finds it. *)
Definition read_blocklist (MAXLINE : nat) (file : option string)
    (blocklist : list string) : option load_result :=
  match file with
  | None => Some (Loaded blocklist)
  | Some content =>
      read_loop (S (String.length content)) MAXLINE content blocklist
  end.

(** ** Starting the server: [main] *)

(** What [main] is started with and what it finds. *)
Record invocation : Type := {
  argv0 : string;                  (* argv[0] *)
  args : list string;              (* argv[1], ..., argv[argc - 1] *)
  log_opens : bool;                (* fopen (LOGFILE, "a") succeeds *)
  blocklist_file : option string   (* the content of blocklist.txt, if it opens *)
}.

(** How [main] gets on: it exits, or it reaches [Open_listenfd] with the
    port string and the blocklist, or it has stored past an array. *)
Inductive started : Type :=
| Exited (status : Z) (stderr : string)
| Listening (port_str : string) (blocklist : list string)
| Undefined.

(** [port = atoi (argv[1]); sprintf (port_str, "%d", port)] with
    [char port_str[6]]: five bytes and the terminator fit. *)
Definition listen_port (arg : string) : option string :=
  let text := fmt_d (atoi arg) in
  if (strlen text <=? 5)%nat then Some text else None.

Definition after_load (result : option load_result)
    (k : list string -> option started) : option started :=
  match result with
  | None => None
  | Some Overrun => Some Undefined
  | Some (Loaded blocklist) => k blocklist
  end.

Definition serve_on (inv : invocation) (usage_tail : string)
    (blocklist : list string) : option started :=
  match args inv with
  | [port] =>
      match listen_port port with
      | Some port_str => Some (Listening port_str blocklist)
      | None => Some Undefined
      end
  | _ => Some (Exited 1 ("Usage: " ++ argv0 inv ++ usage_tail))
  end.

(** [main] of [proxy.c]: the blocklist is read, then the log is opened, then
    the arguments are counted. *)
Definition seq_main (MAXLINE : nat) (inv : invocation) : option started :=
  after_load (read_blocklist MAXLINE (blocklist_file inv) [])
    (fun blocklist =>
       if negb (log_opens inv)
       then Some (Exited 1 ("Error opening log file." ++ String LF ""))
       else serve_on inv (" <port number>" ++ String LF "") blocklist).

(** [main] of [concurrentproxy.c]: the log is opened, then the blocklist is
    read, then the arguments are counted. *)
Definition conc_main (MAXLINE : nat) (inv : invocation) : option started :=
  if negb (log_opens inv)
  then Some (Exited 1 ("Error opening log file." ++ String LF ""))
  else
    after_load (read_blocklist MAXLINE (blocklist_file inv) [])
      (fun blocklist => serve_on inv (" <port>" ++ String LF "") blocklist).

(** ** Further notions *)

(** A line of text: no newline and no NUL in it. *)
Fixpoint plain (s : string) : bool :=
  match s with
  | EmptyString => true
  | String c rest =>
      andb (negb (orb (Ascii.eqb c NUL) (Ascii.eqb c LF))) (plain rest)
  end.

(** A word for [sscanf]: not empty, no white space and no NUL in it. *)
Fixpoint wordlike (s : string) : bool :=
  match s with
  | EmptyString => true
  | String c rest =>
      andb (negb (orb (Ascii.eqb c NUL) (isspace c))) (wordlike rest)
  end.

Definition word (s : string) : bool :=
  andb (negb (String.eqb s "")) (wordlike s).

(** Some byte of [s] ends a host name. *)
Fixpoint any_delim (s : string) : bool :=
  match s with
  | EmptyString => false
  | String c rest => orb (is_delim c) (any_delim rest)
  end.

(** What a row of the blocklist looks like once it is counted. *)
Definition entry_ok (MAXLINE : nat) (entry : string) : Prop :=
  entry <> "" /\ plain entry = true /\ (strlen entry < MAXLINE)%nat.

(** The lines of a text file, each ended by a newline. *)
Fixpoint unlines (lines : list string) : string :=
  match lines with
  | [] => EmptyString
  | l :: rest => l ++ String LF (unlines rest)
  end.

Definition nonempty (s : string) : bool := negb (String.eqb s "").

(** The number of times the server side is closed in a trace. *)
Fixpoint closes (tr : list event) : nat :=
  match tr with
  | [] => O
  | ServerClose :: rest => S (closes rest)
  | _ :: rest => closes rest
  end.

(** The same transaction with another request line. *)
Definition with_request (w : world) (line : string) : world :=
  {| request_line := line;
     stack_method := stack_method w;
     stack_uri := stack_uri w;
     stack_version := stack_version w;
     connect_ok := connect_ok w;
     response := response w;
     time_str := time_str w;
     host_ip := host_ip w;
     body_measured := body_measured w;
     body_written := body_written w |}.

(** White space between the words of a line. *)
Fixpoint spaces (s : string) : bool :=
  match s with
  | EmptyString => true
  | String c rest => andb (isspace c) (spaces rest)
  end.

Definition blank (s : string) : bool := andb (nonempty s) (spaces s).

(** A host name as a client writes it in a URI: no white space, no NUL and
    none of the bytes that end a host name. *)
Definition hostlike (s : string) : bool :=
  andb (wordlike s) (negb (any_delim s)).

(** A transaction whose arrays hold the URI of an earlier one. *)
Definition stale_world : world :=
  {| request_line := "GET" ++ CRLF;
     stack_method := ""; stack_uri := "http://intranet.example/private";
     stack_version := "";
     connect_ok := fun _ _ => true;
     response := ["HTTP/1.0 200 OK" ++ CRLF; CRLF; "hello"];
     time_str := "Mon 02 Nov 2026 10:00:00 UTC";
     host_ip := "192.0.2.7";
     body_measured := fun text => text;
     body_written := fun text => text |}.

(** A string of decimal digits. *)
Fixpoint numeral (s : string) : bool :=
  match s with
  | EmptyString => true
  | String c rest => andb (isdigit c) (numeral rest)
  end.

(** Some byte of [s] is white space. *)
Fixpoint any_space (s : string) : bool :=
  match s with
  | EmptyString => false
  | String c rest => orb (isspace c) (any_space rest)
  end.

(** A line as a text file with CRLF line ends holds it: the CR is part of
    what stands before the newline. *)
Definition with_cr (line : string) : string := line ++ String CR "".

(** * Properties *)

(** ** Strings *)

Lemma append_nil_r : forall s : string, s ++ "" = s.
Proof.
  induction s as [|c s IH]; simpl; [reflexivity | now rewrite IH].
Qed.

Lemma append_assoc : forall a b c : string, (a ++ b) ++ c = a ++ (b ++ c).
Proof.
  induction a as [|x a IH]; intros b c; simpl; [reflexivity | now rewrite IH].
Qed.

Lemma length_append : forall a b : string,
  String.length (a ++ b) = (String.length a + String.length b)%nat.
Proof.
  induction a as [|x a IH]; intros b; simpl; [reflexivity | now rewrite IH].
Qed.

Lemma take_all : forall (s : string) (n : nat),
  (String.length s <= n)%nat -> take n s = s.
Proof.
  induction s as [|c s IH]; intros n Hn.
  - now destruct n.
  - destruct n as [|n]; simpl in *; [lia |].
    rewrite IH; [reflexivity | lia].
Qed.

(** ** Bytes and case *)

Ltac ascii_cases c := destruct c as [[] [] [] [] [] [] [] []].

Lemma tolower_nul : forall c : ascii, tolower c = NUL <-> c = NUL.
Proof.
  intros c; split; intros H.
  - ascii_cases c; vm_compute in H; try discriminate H; reflexivity.
  - subst c; reflexivity.
Qed.

Lemma code_diff_zero : forall c d : ascii, (code c - code d)%Z = 0%Z -> c = d.
Proof.
  intros c d H. unfold code in H.
  assert (E : N_of_ascii c = N_of_ascii d) by lia.
  rewrite <- (ascii_N_embedding c), <- (ascii_N_embedding d).
  now rewrite E.
Qed.

(** [strcasecmp] returns 0 exactly on C strings equal up to case. *)
Lemma strcasecmp_zero_iff : forall a b : string,
  strcasecmp a b = 0%Z <-> ci_equal a b.
Proof.
  unfold ci_equal.
  induction a as [|x a IH]; intros b.
  - destruct b as [|y b]; cbn [strcasecmp head_byte tail c_str lower].
    + split; reflexivity.
    + change (tolower NUL) with NUL.
      destruct (Ascii.eqb NUL (tolower y)) eqn:E; cbn [negb].
      * apply Ascii.eqb_eq in E. symmetry in E.
        apply (proj1 (tolower_nul _)) in E. subst y.
        rewrite Ascii.eqb_refl. split; reflexivity.
      * apply Ascii.eqb_neq in E. split; intros H.
        -- apply code_diff_zero in H. contradiction.
        -- destruct (Ascii.eqb y NUL) eqn:Ey; [| discriminate H].
           apply Ascii.eqb_eq in Ey. subst y. now elim E.
  - destruct b as [|y b]; cbn [strcasecmp head_byte tail c_str lower].
    + change (tolower NUL) with NUL.
      destruct (Ascii.eqb (tolower x) NUL) eqn:E; cbn [negb].
      * apply Ascii.eqb_eq in E.
        apply (proj1 (tolower_nul _)) in E. subst x.
        rewrite Ascii.eqb_refl. split; reflexivity.
      * apply Ascii.eqb_neq in E. split; intros H.
        -- apply code_diff_zero in H. contradiction.
        -- destruct (Ascii.eqb x NUL) eqn:Ex; [| discriminate H].
           apply Ascii.eqb_eq in Ex. subst x. now elim E.
    + destruct (Ascii.eqb (tolower x) (tolower y)) eqn:E; cbn [negb].
      * apply Ascii.eqb_eq in E.
        destruct (Ascii.eqb x NUL) eqn:Ex.
        -- apply Ascii.eqb_eq in Ex. subst x.
           change (tolower NUL) with NUL in E. symmetry in E.
           apply (proj1 (tolower_nul _)) in E. subst y.
           rewrite Ascii.eqb_refl. split; reflexivity.
        -- destruct (Ascii.eqb y NUL) eqn:Ey.
           ++ apply Ascii.eqb_eq in Ey. subst y.
              change (tolower NUL) with NUL in E. apply (proj1 (tolower_nul _)) in E.
              subst x. discriminate Ex.
           ++ cbn [lower]. rewrite IH. split; intros H.
              ** now rewrite E, H.
              ** now inversion H.
      * apply Ascii.eqb_neq in E. split; intros H.
        -- apply code_diff_zero in H. contradiction.
        -- exfalso. destruct (Ascii.eqb x NUL) eqn:Ex;
             destruct (Ascii.eqb y NUL) eqn:Ey; cbn [lower] in H.
           ++ apply Ascii.eqb_eq in Ex, Ey. subst. now elim E.
           ++ discriminate H.
           ++ discriminate H.
           ++ inversion H. contradiction.
Qed.

(** ** The trace of each path *)

Create HintDb proxy_paths.
#[export] Hint Constructors seq_path conc_path : proxy_paths.

Lemma seq_path_total : forall (blocklist : list string) (w : world),
  exists p, seq_path blocklist w p.
Proof.
  intros bl w.
  destruct (Nat.eq_dec (strlen (request_line w)) 0) as [E|E].
  - exists EmptyRead. now constructor.
  - destruct (sscanf3 w) as [[m u] v] eqn:Es.
    destruct (method_refused m) eqn:Em.
    + exists (UnsupportedMethod m). eauto with proxy_paths.
    + destruct (Sequential.parse_uri u) as [[[h pn] port]|] eqn:Ep.
      * destruct (Sequential.blocked bl h) eqn:Eb.
        -- exists (BlockedHost u). eauto with proxy_paths.
        -- destruct (connect_ok w h (snprintf 6 (fmt_d port))) eqn:Ec.
           ++ exists (Completed m u h pn port). eauto with proxy_paths.
           ++ exists (ConnectFailure u h port). eauto with proxy_paths.
      * exists (MalformedUri u). eauto with proxy_paths.
Qed.

Lemma conc_path_total : forall (blocklist : list string) (w : world),
  exists p, conc_path blocklist w p.
Proof.
  intros bl w.
  destruct (Nat.eq_dec (strlen (request_line w)) 0) as [E|E].
  - exists EmptyRead. now constructor.
  - destruct (sscanf3 w) as [[m u] v] eqn:Es.
    destruct (method_refused m) eqn:Em.
    + exists (UnsupportedMethod m). eauto with proxy_paths.
    + destruct (Concurrent.blocked bl u) eqn:Eb.
      * exists (BlockedHost u). eauto with proxy_paths.
      * destruct (Concurrent.parse_uri u) as [[[h pn] port]|] eqn:Ep.
        -- destruct (connect_ok w h (snprintf 6 (fmt_d port))) eqn:Ec.
           ++ exists (Completed m u h pn port). eauto with proxy_paths.
           ++ exists (ConnectFailure u h port). eauto with proxy_paths.
        -- exists (MalformedUri u). eauto with proxy_paths.
Qed.

Lemma strlen_eqb_false : forall s : string,
  strlen s <> O -> (strlen s =? 0)%nat = false.
Proof. intros s H. now apply Nat.eqb_neq. Qed.

Lemma seq_proxy_on_path : forall MAXLINE MAXBUF blocklist w p,
  seq_path blocklist w p ->
  Sequential.proxy MAXLINE MAXBUF blocklist w = seq_trace MAXLINE MAXBUF w p.
Proof.
  intros M B bl w p H. unfold Sequential.proxy.
  inversion H; subst; cbn [seq_trace];
    try (rewrite (strlen_eqb_false _ H0));
    repeat match goal with
    | E : sscanf3 _ = _ |- _ => rewrite E; clear E
    | E : method_refused _ = _ |- _ => rewrite E; clear E
    | E : Sequential.parse_uri _ = _ |- _ => rewrite E; clear E
    | E : Sequential.blocked _ _ = _ |- _ => rewrite E; clear E
    | E : connect_ok _ _ _ = _ |- _ => rewrite E; clear E
    end; try reflexivity.
  rewrite H0. reflexivity.
Qed.

Lemma conc_proxy_on_path : forall MAXLINE MAXBUF blocklist log_file w p,
  conc_path blocklist w p ->
  Concurrent.proxy MAXLINE MAXBUF blocklist log_file w = conc_trace MAXLINE MAXBUF log_file w p.
Proof.
  intros M B bl lf w p H. unfold Concurrent.proxy.
  inversion H; subst; cbn [conc_trace];
    try (rewrite (strlen_eqb_false _ H0));
    repeat match goal with
    | E : sscanf3 _ = _ |- _ => rewrite E; clear E
    | E : method_refused _ = _ |- _ => rewrite E; clear E
    | E : Concurrent.parse_uri _ = _ |- _ => rewrite E; clear E
    | E : Concurrent.blocked _ _ = _ |- _ => rewrite E; clear E
    | E : connect_ok _ _ _ = _ |- _ => rewrite E; clear E
    end; try reflexivity.
  rewrite H0. reflexivity.
Qed.

(** ** The method gate *)

Lemma method_token_scanned : forall (w : world) (method : string),
  method_token (request_line w) = Some method ->
  strlen (request_line w) <> O
  /\ exists uri version, sscanf3 w = (method, uri, version).
Proof.
  intros w m H. unfold method_token in H. split.
  - intros E. destruct (request_line w); [discriminate H | discriminate E].
  - unfold sscanf3.
    destruct (scan_s (c_str (request_line w))) as [[m' r1]|]; [| discriminate H].
    injection H as ->.
    destruct (scan_s r1) as [[u r2]|]; [| eauto].
    destruct (scan_s r2) as [[v r3]|]; eauto.
Qed.

Lemma method_refused_iff : forall method : string,
  method_refused method = true
  <-> ~ ci_equal method "GET" /\ ~ ci_equal method "HEAD".
Proof.
  intros m. unfold method_refused.
  rewrite andb_true_iff, !negb_true_iff, !Z.eqb_neq, !strcasecmp_zero_iff.
  reflexivity.
Qed.

(** C4.  A request line whose method is neither GET nor HEAD, whatever the
    case of its letters, is answered by the 501 "Not Implemented" page and
    nothing else happens: the URI is not resolved, no connection is opened,
    nothing is sent to a server, nothing is logged.  Both variants. *)
Theorem unsupported_method_501 :
  forall (MAXLINE MAXBUF : nat) (blocklist : list string) (log_file : bool)
         (w : world) (method : string),
    method_token (request_line w) = Some method ->
    ~ ci_equal method "GET" ->
    ~ ci_equal method "HEAD" ->
    let seq := Sequential.proxy MAXLINE MAXBUF blocklist w in
    let conc := Concurrent.proxy MAXLINE MAXBUF blocklist log_file w in
    seq = Sequential.clienterror MAXBUF w method "501" "Not Implemented"
            "Method not implemented"
    /\ conc = Concurrent.clienterror MAXBUF w method "501" "Not Implemented"
                "This method is not implemented by the proxy"
    /\ (exists rest,
          client_bytes seq = "HTTP/1.0 501 Not Implemented" ++ CRLF ++ rest)
    /\ (exists rest,
          client_bytes conc = "HTTP/1.0 501 Not Implemented" ++ CRLF ++ rest)
    /\ resolutions seq = [] /\ resolutions conc = []
    /\ connects seq = [] /\ connects conc = []
    /\ log_lines seq = [] /\ log_lines conc = [].
Proof.
  intros M B bl lf w m Htok Hget Hhead seq conc.
  destruct (method_token_scanned w m Htok) as [Hne [u [v Hs]]].
  assert (Hr : method_refused m = true) by (apply method_refused_iff; auto).
  assert (Eseq : seq = seq_trace M B w (UnsupportedMethod m)).
  { apply seq_proxy_on_path. eauto with proxy_paths. }
  assert (Econc : conc = conc_trace M B lf w (UnsupportedMethod m)).
  { apply conc_proxy_on_path. eauto with proxy_paths. }
  rewrite Eseq, Econc. cbn [seq_trace conc_trace].
  repeat split; try reflexivity; eexists; reflexivity.
Qed.

Lemma unsupported_method_501_witness :
  Sequential.proxy CSAPP_MAXLINE CSAPP_MAXBUF ["example.com"] post_world
  = Sequential.clienterror CSAPP_MAXBUF post_world "POST" "501"
      "Not Implemented" "Method not implemented"
  /\ resolutions (Concurrent.proxy CSAPP_MAXLINE CSAPP_MAXBUF ["example.com"] true post_world)
     = [].
Proof.
  assert (Ht : method_token (request_line post_world) = Some "POST")
    by reflexivity.
  assert (Hg : ~ ci_equal "POST" "GET") by (unfold ci_equal; discriminate).
  assert (Hh : ~ ci_equal "POST" "HEAD") by (unfold ci_equal; discriminate).
  pose proof (unsupported_method_501 CSAPP_MAXLINE CSAPP_MAXBUF ["example.com"] true
                post_world "POST" Ht Hg Hh) as H.
  cbv zeta in H. split; [apply H | apply H].
Defined.

(** ** The error responder *)

Lemma to_int_small : forall z : Z,
  (-2147483648 <= z <= INT_MAX)%Z -> to_int z = z.
Proof.
  intros z H. unfold to_int, INT_MAX in *.
  rewrite Z.mod_small; lia.
Qed.

Ltac normalize_append := repeat rewrite append_assoc; cbn [append].

Lemma sprintf_fits : forall (size : nat) (smashed text : string),
  (strlen text < size)%nat -> sprintf size smashed text = text.
Proof.
  intros size smashed text H. unfold sprintf.
  apply Nat.ltb_lt in H. now rewrite H.
Qed.

Lemma sprintf_overrun : forall (size : nat) (smashed text : string),
  (size <= strlen text)%nat -> sprintf size smashed text = smashed.
Proof.
  intros size smashed text H. unfold sprintf.
  apply Nat.ltb_ge in H. now rewrite H.
Qed.

(** What the client is sent by [clienterror], when the page fits [body] and
    when it does not. *)
Lemma seq_clienterror_bytes :
  forall (MAXBUF : nat) (w : world) (cause errnum shortmsg longmsg : string),
    let text := Sequential.error_text cause errnum shortmsg longmsg in
    let sent :=
      client_bytes (Sequential.clienterror MAXBUF w cause errnum shortmsg longmsg) in
    ((strlen text < MAXBUF)%nat -> (Z.of_nat (strlen text) <= INT_MAX)%Z ->
     sent = error_response errnum shortmsg text)
    /\ ((MAXBUF <= strlen text)%nat ->
        sent = "HTTP/1.0 " ++ errnum ++ " " ++ shortmsg ++ CRLF
               ++ "Content-type: text/html" ++ CRLF
               ++ "Content-length: "
               ++ fmt_d (to_int (Z.of_nat (strlen (body_measured w text))))
               ++ CRLF ++ CRLF ++ body_written w text).
Proof.
  intros B w cause errnum shortmsg longmsg text sent. subst sent.
  unfold Sequential.clienterror, Sequential.error_body,
         Sequential.error_header, error_response.
  fold text. cbn [client_bytes]. rewrite append_nil_r. split.
  - intros Hfit Hint. rewrite !sprintf_fits by exact Hfit.
    rewrite to_int_small by (unfold INT_MAX in *; lia).
    normalize_append. reflexivity.
  - intros Hover. rewrite !sprintf_overrun by exact Hover.
    normalize_append. reflexivity.
Qed.

Lemma conc_clienterror_bytes :
  forall (MAXBUF : nat) (w : world) (cause errnum shortmsg longmsg : string),
    let text := Concurrent.error_text cause errnum shortmsg longmsg in
    let sent :=
      client_bytes (Concurrent.clienterror MAXBUF w cause errnum shortmsg longmsg) in
    ((strlen text < MAXBUF)%nat -> (Z.of_nat (strlen text) <= INT_MAX)%Z ->
     sent = error_response errnum shortmsg text)
    /\ ((MAXBUF <= strlen text)%nat ->
        sent = "HTTP/1.0 " ++ errnum ++ " " ++ shortmsg ++ CRLF
               ++ "Content-type: text/html" ++ CRLF
               ++ "Content-length: "
               ++ fmt_d (to_int (Z.of_nat (strlen (body_measured w text))))
               ++ CRLF ++ CRLF ++ body_written w text).
Proof.
  intros B w cause errnum shortmsg longmsg text sent. subst sent.
  unfold Concurrent.clienterror, Concurrent.error_body,
         Concurrent.error_header, error_response.
  fold text. cbn [client_bytes]. rewrite append_nil_r. split.
  - intros Hfit Hint. rewrite !sprintf_fits by exact Hfit.
    rewrite to_int_small by (unfold INT_MAX in *; lia).
    normalize_append. reflexivity.
  - intros Hover. rewrite !sprintf_overrun by exact Hover.
    normalize_append. reflexivity.
Qed.

Lemma conc_error_text : forall cause errnum shortmsg longmsg : string,
  Concurrent.error_text cause errnum shortmsg longmsg
  = "<html><title>Proxy Error</title><body bgcolor=ffffff>" ++ CRLF
    ++ errnum ++ ": " ++ shortmsg ++ CRLF
    ++ "<p>" ++ longmsg ++ ": " ++ cause ++ CRLF
    ++ "<hr><em>The CS:APP Proxy Server</em>" ++ CRLF.
Proof.
  intros. unfold Concurrent.error_text. normalize_append. reflexivity.
Qed.

(** C7.  On each of the four failures a client can recover from (method not
    supported, URI malformed, host blocked, connection refused), all the
    client receives is the response of [clienterror].  When the page fits
    the array [body], it is the error response of the specification: the
    HTTP/1.0 status line with the code and reason of that failure, the
    content type, a content length equal to the length of the body, an empty
    line, and the body, the HTML page spelled out below, which holds the
    code, the reason, the description and the cause.  When the page does not
    fit, the status line and the content type are sent as before, but the
    length announced and the bytes that follow are what [strlen] and
    [Rio_writen] find in an array that was stored past its end.  Both
    variants. *)
Theorem error_pages_well_formed :
  forall (MAXLINE MAXBUF : nat) (blocklist : list string) (log_file : bool)
         (w : world) (p : path) (code reason : string),
    (seq_path blocklist w p ->
     status_of "Not Found" p = Some (code, reason) ->
     let body :=
       "<html><title>Proxy Error</title><body bgcolor="
       ++ String QUOTE "ffffff" ++ String QUOTE ">"
       ++ code ++ ": " ++ reason ++ "<p>" ++ seq_description p ++ ": "
       ++ cause_of p ++ "<hr><em>The CS:APP Proxy Server</em></body></html>" in
     let sent := client_bytes (Sequential.proxy MAXLINE MAXBUF blocklist w) in
     ((strlen body < MAXBUF)%nat -> (Z.of_nat (strlen body) <= INT_MAX)%Z ->
      sent = error_response code reason body)
     /\ ((MAXBUF <= strlen body)%nat ->
         sent = "HTTP/1.0 " ++ code ++ " " ++ reason ++ CRLF
                ++ "Content-type: text/html" ++ CRLF
                ++ "Content-length: "
                ++ fmt_d (to_int (Z.of_nat (strlen (body_measured w body))))
                ++ CRLF ++ CRLF ++ body_written w body))
    /\
    (conc_path blocklist w p ->
     status_of "Not found" p = Some (code, reason) ->
     let body :=
       "<html><title>Proxy Error</title><body bgcolor=ffffff>" ++ CRLF
       ++ code ++ ": " ++ reason ++ CRLF
       ++ "<p>" ++ conc_description p ++ ": " ++ cause_of p ++ CRLF
       ++ "<hr><em>The CS:APP Proxy Server</em>" ++ CRLF in
     let sent :=
       client_bytes (Concurrent.proxy MAXLINE MAXBUF blocklist log_file w) in
     ((strlen body < MAXBUF)%nat -> (Z.of_nat (strlen body) <= INT_MAX)%Z ->
      sent = error_response code reason body)
     /\ ((MAXBUF <= strlen body)%nat ->
         sent = "HTTP/1.0 " ++ code ++ " " ++ reason ++ CRLF
                ++ "Content-type: text/html" ++ CRLF
                ++ "Content-length: "
                ++ fmt_d (to_int (Z.of_nat (strlen (body_measured w body))))
                ++ CRLF ++ CRLF ++ body_written w body)).
Proof.
  intros M B bl lf w p code reason. split.
  - intros Hp Hs. rewrite (seq_proxy_on_path M B bl w p Hp).
    destruct p; try discriminate Hs; injection Hs as <- <-;
      cbn [seq_trace cause_of seq_description client_bytes];
      apply seq_clienterror_bytes.
  - intros Hp Hs. rewrite (conc_proxy_on_path M B bl lf w p Hp).
    destruct p; try discriminate Hs; injection Hs as <- <-;
      cbn [conc_trace cause_of conc_description client_bytes];
      rewrite <- conc_error_text; apply conc_clienterror_bytes.
Qed.

Lemma post_world_seq_path :
  seq_path ["example.com"] post_world (UnsupportedMethod "POST").
Proof.
  apply seq_method with (uri := "http://example.com/form") (version := "HTTP/1.1").
  - discriminate.
  - reflexivity.
  - reflexivity.
Defined.

Lemma post_world_conc_path :
  conc_path ["example.com"] post_world (UnsupportedMethod "POST").
Proof.
  apply conc_method with (uri := "http://example.com/form") (version := "HTTP/1.1").
  - discriminate.
  - reflexivity.
  - reflexivity.
Defined.

Lemma error_pages_well_formed_witness :
  client_bytes
    (Sequential.proxy CSAPP_MAXLINE CSAPP_MAXBUF ["example.com"] post_world)
  = "HTTP/1.0 501 Not Implemented" ++ CRLF
    ++ "Content-type: text/html" ++ CRLF
    ++ "Content-length: 156" ++ CRLF ++ CRLF
    ++ "<html><title>Proxy Error</title><body bgcolor="
    ++ String QUOTE "ffffff" ++ String QUOTE ">"
    ++ "501: Not Implemented<p>Method not implemented: POST"
    ++ "<hr><em>The CS:APP Proxy Server</em></body></html>"
  /\
  client_bytes
    (Concurrent.proxy CSAPP_MAXLINE CSAPP_MAXBUF ["example.com"] true post_world)
  = "HTTP/1.0 501 Not Implemented" ++ CRLF
    ++ "Content-type: text/html" ++ CRLF
    ++ "Content-length: 169" ++ CRLF ++ CRLF
    ++ "<html><title>Proxy Error</title><body bgcolor=ffffff>" ++ CRLF
    ++ "501: Not Implemented" ++ CRLF
    ++ "<p>This method is not implemented by the proxy: POST" ++ CRLF
    ++ "<hr><em>The CS:APP Proxy Server</em>" ++ CRLF.
Proof.
  pose proof (error_pages_well_formed CSAPP_MAXLINE CSAPP_MAXBUF
                ["example.com"] true post_world (UnsupportedMethod "POST")
                "501" "Not Implemented") as [Hseq Hconc].
  split.
  - apply (proj1 (Hseq post_world_seq_path eq_refl)).
    + apply Nat.ltb_lt. vm_compute. reflexivity.
    + vm_compute. discriminate.
  - apply (proj1 (Hconc post_world_conc_path eq_refl)).
    + apply Nat.ltb_lt. vm_compute. reflexivity.
    + vm_compute. discriminate.
Defined.

Lemma long_method_seq_path : forall measured written : string -> string,
  seq_path [] (long_method_world measured written)
    (UnsupportedMethod long_method).
Proof.
  intros measured written.
  apply seq_method with (uri := "http://example.com/") (version := "HTTP/1.1").
  - discriminate.
  - vm_compute. reflexivity.
  - vm_compute. reflexivity.
Qed.

Lemma long_method_conc_path : forall measured written : string -> string,
  conc_path [] (long_method_world measured written)
    (UnsupportedMethod long_method).
Proof.
  intros measured written.
  apply conc_method with (uri := "http://example.com/") (version := "HTTP/1.1").
  - discriminate.
  - vm_compute. reflexivity.
  - vm_compute. reflexivity.
Qed.

(** The page does not fit for a request that can be received.  A request
    line of 8131 bytes whose method has 8100 letters is read whole into a
    line buffer of 8192 bytes; the page that refuses the method has more
    than 8192 bytes in both variants, so that [sprintf] stores past [body]:
    the length announced and the bytes sent after the header are no longer
    the page's. *)
Lemma error_page_overruns_body :
  forall measured written : string -> string,
    let w := long_method_world measured written in
    let seq_text :=
      Sequential.error_text long_method "501" "Not Implemented"
        "Method not implemented" in
    let conc_text :=
      Concurrent.error_text long_method "501" "Not Implemented"
        "This method is not implemented by the proxy" in
    (strlen (request_line w) < CSAPP_MAXLINE)%nat
    /\ (CSAPP_MAXBUF <= strlen seq_text)%nat
    /\ (CSAPP_MAXBUF <= strlen conc_text)%nat
    /\ client_bytes (Sequential.proxy CSAPP_MAXLINE CSAPP_MAXBUF [] w)
       = "HTTP/1.0 501 Not Implemented" ++ CRLF
         ++ "Content-type: text/html" ++ CRLF
         ++ "Content-length: "
         ++ fmt_d (to_int (Z.of_nat (strlen (measured seq_text))))
         ++ CRLF ++ CRLF ++ written seq_text
    /\ client_bytes (Concurrent.proxy CSAPP_MAXLINE CSAPP_MAXBUF [] true w)
       = "HTTP/1.0 501 Not Implemented" ++ CRLF
         ++ "Content-type: text/html" ++ CRLF
         ++ "Content-length: "
         ++ fmt_d (to_int (Z.of_nat (strlen (measured conc_text))))
         ++ CRLF ++ CRLF ++ written conc_text.
Proof.
  intros measured written w seq_text conc_text.
  assert (Hs : (CSAPP_MAXBUF <= strlen seq_text)%nat)
    by (apply Nat.leb_le; vm_compute; reflexivity).
  assert (Hc : (CSAPP_MAXBUF <= strlen conc_text)%nat)
    by (apply Nat.leb_le; vm_compute; reflexivity).
  split; [apply Nat.ltb_lt; vm_compute; reflexivity |].
  split; [exact Hs |]. split; [exact Hc |]. split.
  - rewrite (seq_proxy_on_path _ _ _ _ _ (long_method_seq_path measured written)).
    cbn [seq_trace].
    exact (proj2 (seq_clienterror_bytes CSAPP_MAXBUF w long_method "501"
                    "Not Implemented" "Method not implemented") Hs).
  - rewrite (conc_proxy_on_path _ _ _ _ _ _
               (long_method_conc_path measured written)).
    cbn [conc_trace].
    exact (proj2 (conc_clienterror_bytes CSAPP_MAXBUF w long_method "501"
                    "Not Implemented"
                    "This method is not implemented by the proxy") Hc).
Qed.

(** ** The relay loop and the log record *)

Lemma to_int_add_l : forall a b : Z, to_int (to_int a + b) = to_int (a + b).
Proof.
  intros a b. unfold to_int. f_equal.
  replace ((a + 2147483648) mod 4294967296 - 2147483648 + b + 2147483648)%Z
    with ((a + 2147483648) mod 4294967296 + b)%Z by lia.
  rewrite Z.add_mod_idemp_l by lia. f_equal. lia.
Qed.

Lemma log_lines_app : forall a b : list event,
  log_lines (a ++ b) = (log_lines a ++ log_lines b)%list.
Proof.
  induction a as [|e a IH]; intros b; [reflexivity |].
  destruct e; cbn [log_lines app]; rewrite ?IH; reflexivity.
Qed.

Lemma client_bytes_app : forall a b : list event,
  client_bytes (a ++ b) = client_bytes a ++ client_bytes b.
Proof.
  induction a as [|e a IH]; intros b; [reflexivity |].
  destruct e; cbn [client_bytes app]; rewrite ?IH, ?append_assoc; reflexivity.
Qed.

Lemma server_writes_app : forall a b : list event,
  server_writes (a ++ b) = (server_writes a ++ server_writes b)%list.
Proof.
  induction a as [|e a IH]; intros b; [reflexivity |].
  destruct e; cbn [server_writes app]; rewrite ?IH; reflexivity.
Qed.

Lemma connects_app : forall a b : list event,
  connects (a ++ b) = (connects a ++ connects b)%list.
Proof.
  induction a as [|e a IH]; intros b; [reflexivity |].
  destruct e; cbn [connects app]; rewrite ?IH; reflexivity.
Qed.

Lemma resolutions_app : forall a b : list event,
  resolutions (a ++ b) = (resolutions a ++ resolutions b)%list.
Proof.
  induction a as [|e a IH]; intros b; [reflexivity |].
  destruct e; cbn [resolutions app]; rewrite ?IH; reflexivity.
Qed.

(** The loop neither resolves nor connects. *)
Lemma relay_quiet : forall (reads : list string) (size : Z),
  connects (fst (relay reads size)) = []
  /\ resolutions (fst (relay reads size)) = [].
Proof.
  induction reads as [|buf rest IH]; intros size; cbn [relay].
  - split; reflexivity.
  - destruct (strlen buf =? 0)%nat; [split; reflexivity |].
    specialize (IH (to_int (size + Z.of_nat (strlen buf)))).
    destruct (relay rest (to_int (size + Z.of_nat (strlen buf)))).
    exact IH.
Qed.

(** The loop writes to the client exactly the bytes received, touches nothing
    else, and leaves in [size] their number converted to [int]. *)
Lemma relay_spec : forall (reads : list string) (size : Z),
  client_bytes (fst (relay reads (to_int size))) = received reads
  /\ log_lines (fst (relay reads (to_int size))) = []
  /\ server_writes (fst (relay reads (to_int size))) = []
  /\ snd (relay reads (to_int size))
     = to_int (size + Z.of_nat (strlen (received reads))).
Proof.
  induction reads as [|buf rest IH]; intros size; cbn [relay received].
  - cbn. rewrite Z.add_0_r. auto.
  - destruct (strlen buf =? 0)%nat eqn:E.
    + cbn. rewrite Z.add_0_r. auto.
    + rewrite to_int_add_l.
      specialize (IH (size + Z.of_nat (strlen buf))%Z).
      destruct (relay rest (to_int (size + Z.of_nat (strlen buf))))
        as [evs total].
      cbn [fst snd client_bytes log_lines server_writes] in *.
      destruct IH as (Hc & Hl & Hs & Ht).
      rewrite Hc, Hl, Hs, Ht. repeat split.
      f_equal. unfold strlen. rewrite length_append. lia.
Qed.

Lemma relay_from_zero : forall reads : list string,
  client_bytes (fst (relay reads 0)) = received reads
  /\ log_lines (fst (relay reads 0)) = []
  /\ server_writes (fst (relay reads 0)) = []
  /\ snd (relay reads 0) = to_int (Z.of_nat (strlen (received reads))).
Proof.
  intros reads. exact (relay_spec reads 0%Z).
Qed.

Lemma seq_forward_log : forall MAXLINE w method uri hostname pathname,
  log_lines (Sequential.forward MAXLINE w method uri hostname pathname)
  = [format_log_entry w uri (snd (relay (response w) 0)) ++ String LF ""].
Proof.
  intros. unfold Sequential.forward.
  destruct (relay_from_zero (response w)) as (_ & Hl & _ & _).
  destruct (relay (response w) 0) as [evs total]. cbn [fst snd] in *.
  cbn [log_lines]. rewrite log_lines_app, Hl. reflexivity.
Qed.

Lemma conc_forward_log : forall MAXLINE w method uri hostname pathname,
  log_lines (Concurrent.forward MAXLINE true w method uri hostname pathname)
  = [format_log_entry w uri (snd (relay (response w) 0)) ++ String LF ""].
Proof.
  intros. unfold Concurrent.forward, Concurrent.log_request.
  destruct (relay_from_zero (response w)) as (_ & Hl & _ & _).
  destruct (relay (response w) 0) as [evs total]. cbn [fst snd] in *.
  cbn [log_lines]. rewrite log_lines_app, Hl. reflexivity.
Qed.

Lemma seq_forward_client : forall MAXLINE w method uri hostname pathname,
  client_bytes (Sequential.forward MAXLINE w method uri hostname pathname)
  = received (response w).
Proof.
  intros. unfold Sequential.forward.
  destruct (relay_from_zero (response w)) as (Hc & _ & _ & _).
  destruct (relay (response w) 0) as [evs total]. cbn [fst snd] in *.
  cbn [client_bytes]. rewrite client_bytes_app, Hc. cbn.
  apply append_nil_r.
Qed.

Lemma conc_forward_client : forall MAXLINE log_file w method uri hostname pathname,
  client_bytes (Concurrent.forward MAXLINE log_file w method uri hostname pathname)
  = received (response w).
Proof.
  intros. unfold Concurrent.forward, Concurrent.log_request.
  destruct (relay_from_zero (response w)) as (Hc & _ & _ & _).
  destruct (relay (response w) 0) as [evs total]. cbn [fst snd] in *.
  cbn [client_bytes]. rewrite client_bytes_app, Hc.
  destruct log_file; cbn; apply append_nil_r.
Qed.

(** C8.  A transaction that completes appends exactly one line to the log,
    "[time] client-address uri size" and a newline; a transaction that stops
    early (nothing read, method not supported, URI malformed, host blocked,
    connection refused) appends none.  The concurrent variant is taken with
    the log open, as [main] leaves it before it accepts a connection. *)
Theorem one_log_line_per_completed_transaction :
  forall (MAXLINE MAXBUF : nat) (blocklist : list string) (w : world) (p : path),
    let expected :=
      match p with
      | Completed _ uri _ _ _ =>
          ["[" ++ time_str w ++ "] " ++ host_ip w ++ " " ++ uri ++ " "
           ++ fmt_d (snd (relay (response w) 0)) ++ String LF ""]
      | _ => []
      end in
    (seq_path blocklist w p ->
     log_lines (Sequential.proxy MAXLINE MAXBUF blocklist w) = expected)
    /\
    (conc_path blocklist w p ->
     log_lines (Concurrent.proxy MAXLINE MAXBUF blocklist true w) = expected).
Proof.
  intros M B bl w p expected. subst expected. split.
  - intros Hp. rewrite (seq_proxy_on_path M B bl w p Hp).
    destruct p; cbn [seq_trace log_lines]; try reflexivity.
    rewrite seq_forward_log. unfold format_log_entry.
    normalize_append. reflexivity.
  - intros Hp. rewrite (conc_proxy_on_path M B bl true w p Hp).
    destruct p; cbn [conc_trace log_lines]; try reflexivity.
    rewrite conc_forward_log. unfold format_log_entry.
    normalize_append. reflexivity.
Qed.

Lemma get_world_seq_path :
  seq_path ["blocked.example.com"] get_world
    (Completed "GET" "http://example.com:8080/a/b" "example.com" "/a/b" 8080).
Proof.
  apply seq_completed with (version := "HTTP/1.1");
    solve [discriminate | reflexivity].
Defined.

Lemma get_world_conc_path :
  conc_path ["blocked.example.com"] get_world
    (Completed "GET" "http://example.com:8080/a/b" "example.com" "/a/b" 8080).
Proof.
  apply conc_completed with (version := "HTTP/1.1");
    solve [discriminate | reflexivity].
Defined.

Lemma one_log_line_per_completed_transaction_witness :
  log_lines (Sequential.proxy CSAPP_MAXLINE CSAPP_MAXBUF ["blocked.example.com"] get_world)
  = ["[Mon 02 Nov 2026 10:00:00 UTC] 192.0.2.7 http://example.com:8080/a/b 24"
     ++ String LF ""]
  /\ log_lines
       (Concurrent.proxy CSAPP_MAXLINE CSAPP_MAXBUF ["blocked.example.com"] true get_world)
     = ["[Mon 02 Nov 2026 10:00:00 UTC] 192.0.2.7 http://example.com:8080/a/b 24"
        ++ String LF ""].
Proof.
  pose proof (one_log_line_per_completed_transaction CSAPP_MAXLINE CSAPP_MAXBUF
                ["blocked.example.com"] get_world
                (Completed "GET" "http://example.com:8080/a/b" "example.com"
                   "/a/b" 8080)) as [Hseq Hconc].
  split.
  - exact (Hseq get_world_seq_path).
  - exact (Hconc get_world_conc_path).
Defined.

Lemma to_int_range : forall z : Z,
  (-2147483648 <= to_int z <= INT_MAX)%Z /\ ((to_int z - z) mod 4294967296 = 0)%Z.
Proof.
  intros z. unfold to_int, INT_MAX.
  pose proof (Z.mod_pos_bound (z + 2147483648) 4294967296 ltac:(lia)) as Hb.
  split; [lia |].
  rewrite (Z.mod_eq (z + 2147483648) 4294967296) by lia.
  replace (z + 2147483648
           - 4294967296 * ((z + 2147483648) / 4294967296) - 2147483648 - z)%Z
    with (- ((z + 2147483648) / 4294967296) * 4294967296)%Z by lia.
  apply Z.mod_mul. lia.
Qed.

(** C6, amended.  In a completed transaction the client is sent exactly the
    bytes received from the server, and the log record carries the count
    that the [int] variable [size] holds after they were added to it: a
    number of the [int] range that differs from the number of bytes sent by
    a multiple of 2^32, hence that very number whenever it is at most
    2^31 - 1.  Both variants, the concurrent one with the log open. *)
Theorem logged_size_is_bytes_forwarded :
  forall (MAXLINE MAXBUF : nat) (blocklist : list string) (w : world)
         (method uri hostname pathname : string) (port : Z),
    (seq_path blocklist w (Completed method uri hostname pathname port) ->
     let tr := Sequential.proxy MAXLINE MAXBUF blocklist w in
     let sent := Z.of_nat (strlen (client_bytes tr)) in
     client_bytes tr = received (response w)
     /\ exists size : Z,
          log_lines tr = [format_log_entry w uri size ++ String LF ""]
          /\ (-2147483648 <= size <= INT_MAX)%Z
          /\ ((size - sent) mod 4294967296 = 0)%Z
          /\ ((sent <= INT_MAX)%Z -> size = sent))
    /\
    (conc_path blocklist w (Completed method uri hostname pathname port) ->
     let tr := Concurrent.proxy MAXLINE MAXBUF blocklist true w in
     let sent := Z.of_nat (strlen (client_bytes tr)) in
     client_bytes tr = received (response w)
     /\ exists size : Z,
          log_lines tr = [format_log_entry w uri size ++ String LF ""]
          /\ (-2147483648 <= size <= INT_MAX)%Z
          /\ ((size - sent) mod 4294967296 = 0)%Z
          /\ ((sent <= INT_MAX)%Z -> size = sent)).
Proof.
  intros M B bl w m u h pn port.
  assert (Hsize : snd (relay (response w) 0)
                  = to_int (Z.of_nat (strlen (received (response w)))))
    by (now destruct (relay_from_zero (response w)) as (_ & _ & _ & ->)).
  destruct (to_int_range (Z.of_nat (strlen (received (response w)))))
    as [Hrange Hmod].
  split.
  - intros Hp tr sent. subst sent tr. rewrite (seq_proxy_on_path M B bl w _ Hp).
    cbn [seq_trace client_bytes log_lines].
    rewrite seq_forward_client, seq_forward_log, Hsize.
    split; [reflexivity |].
    exists (to_int (Z.of_nat (strlen (received (response w))))).
    split; [reflexivity |]. split; [exact Hrange |]. split; [exact Hmod |].
    intros Hfit. apply to_int_small. unfold INT_MAX in *. lia.
  - intros Hp tr sent. subst sent tr.
    rewrite (conc_proxy_on_path M B bl true w _ Hp).
    cbn [conc_trace client_bytes log_lines].
    rewrite conc_forward_client, conc_forward_log, Hsize.
    split; [reflexivity |].
    exists (to_int (Z.of_nat (strlen (received (response w))))).
    split; [reflexivity |]. split; [exact Hrange |]. split; [exact Hmod |].
    intros Hfit. apply to_int_small. unfold INT_MAX in *. lia.
Qed.

Lemma logged_size_is_bytes_forwarded_witness :
  (client_bytes
     (Sequential.proxy CSAPP_MAXLINE CSAPP_MAXBUF ["blocked.example.com"]
        get_world)
   = "HTTP/1.0 200 OK" ++ CRLF ++ CRLF ++ "hello"
   /\ log_lines
        (Sequential.proxy CSAPP_MAXLINE CSAPP_MAXBUF ["blocked.example.com"]
           get_world)
      = [format_log_entry get_world "http://example.com:8080/a/b" 24
         ++ String LF ""])
  /\
  (client_bytes
     (Concurrent.proxy CSAPP_MAXLINE CSAPP_MAXBUF ["blocked.example.com"]
        true get_world)
   = "HTTP/1.0 200 OK" ++ CRLF ++ CRLF ++ "hello"
   /\ log_lines
        (Concurrent.proxy CSAPP_MAXLINE CSAPP_MAXBUF ["blocked.example.com"]
           true get_world)
      = [format_log_entry get_world "http://example.com:8080/a/b" 24
         ++ String LF ""]).
Proof.
  pose proof (logged_size_is_bytes_forwarded CSAPP_MAXLINE CSAPP_MAXBUF
                ["blocked.example.com"] get_world
                "GET" "http://example.com:8080/a/b" "example.com" "/a/b" 8080)
    as [Hseq Hconc].
  split.
  - destruct (Hseq get_world_seq_path) as (Hsent & size & Hlog & _ & _ & Hfit).
    split; [exact Hsent |]. rewrite Hlog, Hfit; [reflexivity |].
    vm_compute. discriminate.
  - destruct (Hconc get_world_conc_path) as (Hsent & size & Hlog & _ & _ & Hfit).
    split; [exact Hsent |]. rewrite Hlog, Hfit; [reflexivity |].
    vm_compute. discriminate.
Defined.

Lemma received_repeat : forall (buf : string) (n : nat),
  strlen buf <> O ->
  strlen (received (repeat buf n)) = (n * strlen buf)%nat.
Proof.
  intros buf n Hbuf. induction n as [|n IH]; [reflexivity |].
  cbn [repeat received]. rewrite (strlen_eqb_false _ Hbuf).
  unfold strlen in *. rewrite length_append, IH. lia.
Qed.

Lemma download_seq_path : forall reads : list string,
  seq_path [] (download_world reads)
    (Completed "GET" "http://example.com/big" "example.com" "/big" 80).
Proof.
  intros reads. apply seq_completed with (version := "HTTP/1.1");
    solve [discriminate | reflexivity].
Qed.

Lemma two_gib_received :
  Z.of_nat (strlen (received two_gib_of_newlines)) = 2147483648%Z.
Proof.
  unfold two_gib_of_newlines.
  rewrite received_repeat by discriminate.
  rewrite Nat2Z.inj_mul, Z2Nat.id by discriminate.
  reflexivity.
Qed.

Lemma download_wraps : forall reads : list string,
  Z.of_nat (strlen (received reads)) = 2147483648%Z ->
  Z.of_nat (strlen (client_bytes
                      (Sequential.proxy CSAPP_MAXLINE CSAPP_MAXBUF [] (download_world reads))))
  = 2147483648%Z
  /\ log_lines (Sequential.proxy CSAPP_MAXLINE CSAPP_MAXBUF [] (download_world reads))
     = [format_log_entry (download_world reads) "http://example.com/big"
          (-2147483648) ++ String LF ""]
  /\ log_lines (Sequential.proxy CSAPP_MAXLINE CSAPP_MAXBUF [] (download_world reads))
     <> [format_log_entry (download_world reads) "http://example.com/big"
           (Z.of_nat
              (strlen (client_bytes
                         (Sequential.proxy CSAPP_MAXLINE CSAPP_MAXBUF []
                            (download_world reads)))))
         ++ String LF ""].
Proof.
  intros reads Hlen.
  rewrite (seq_proxy_on_path _ _ _ _ _ (download_seq_path reads)).
  cbn [seq_trace client_bytes log_lines].
  rewrite seq_forward_client, seq_forward_log.
  destruct (relay_from_zero (response (download_world reads)))
    as (_ & _ & _ & ->).
  change (response (download_world reads)) with reads.
  rewrite Hlen.
  split; [reflexivity | split; [reflexivity |]].
  intros H. injection H as H. discriminate H.
Qed.

(** C6 as stated fails on a response of 2^31 bytes: the client is sent
    2147483648 bytes and the record carries -2147483648. *)
Lemma logged_size_wraps_at_two_gib :
  Z.of_nat (strlen (client_bytes
                      (Sequential.proxy CSAPP_MAXLINE CSAPP_MAXBUF []
                         (download_world two_gib_of_newlines))))
  = 2147483648%Z
  /\ log_lines (Sequential.proxy CSAPP_MAXLINE CSAPP_MAXBUF []
                  (download_world two_gib_of_newlines))
     = [format_log_entry (download_world two_gib_of_newlines)
          "http://example.com/big" (-2147483648) ++ String LF ""]
  /\ log_lines (Sequential.proxy CSAPP_MAXLINE CSAPP_MAXBUF []
                  (download_world two_gib_of_newlines))
     <> [format_log_entry (download_world two_gib_of_newlines)
           "http://example.com/big"
           (Z.of_nat
              (strlen (client_bytes
                         (Sequential.proxy CSAPP_MAXLINE CSAPP_MAXBUF []
                            (download_world two_gib_of_newlines)))))
         ++ String LF ""].
Proof.
  exact (download_wraps two_gib_of_newlines two_gib_received).
Qed.

(** ** URI resolution *)

Lemma mem_host_delims : forall c : ascii, mem_char c host_delims = is_delim c.
Proof.
  intros c. unfold is_delim. cbn [host_delims c_str mem_char append].
  change (Ascii.eqb " " NUL) with false. change (Ascii.eqb ":" NUL) with false.
  change (Ascii.eqb "/" NUL) with false. change (Ascii.eqb CR NUL) with false.
  change (Ascii.eqb LF NUL) with false. change (Ascii.eqb NUL NUL) with true.
  cbn [mem_char]. now rewrite orb_false_r.
Qed.

(** [strpbrk] finds the end of the host name where the specification puts
    it. *)
Lemma strpbrk_spec_hostname : forall s : string,
  spec_hostname s = option_map (fun n => take n s) (strpbrk s host_delims).
Proof.
  induction s as [|c s IH]; [reflexivity |].
  cbn [spec_hostname strpbrk]. rewrite mem_host_delims.
  destruct (is_delim c); [reflexivity |].
  rewrite IH. destruct (strpbrk s host_delims); reflexivity.
Qed.

Lemma spec_hostname_offset : forall s host : string,
  spec_hostname s = Some host ->
  strpbrk s host_delims = Some (strlen host) /\ take (strlen host) s = host.
Proof.
  induction s as [|c s IH]; intros host H; [discriminate H |].
  cbn [spec_hostname strpbrk] in *. rewrite mem_host_delims.
  destruct (is_delim c).
  - injection H as <-. split; reflexivity.
  - destruct (spec_hostname s) as [h|]; [| discriminate H].
    injection H as <-. destruct (IH h eq_refl) as [Hn Ht].
    rewrite Hn. unfold strlen in *. cbn [option_map String.length take].
    rewrite Ht. split; reflexivity.
Qed.

(** The host name [parse_from] extracts is the one of the specification, and
    it fails exactly when no delimiter follows. *)
Lemma parse_from_hostname : forall hostbegin : string,
  option_map (fun r => fst (fst r)) (parse_from hostbegin)
  = spec_hostname hostbegin.
Proof.
  intros s. rewrite strpbrk_spec_hostname. unfold parse_from.
  destruct (strpbrk s host_delims); reflexivity.
Qed.

(** The port: what [atoi] reads after a colon, 80 after any other
    delimiter.  The path: from the first slash on, or "/". *)
Lemma parse_from_parts : forall hostbegin host : string,
  spec_hostname hostbegin = Some host ->
  parse_from hostbegin
  = Some (host,
          match strchr hostbegin "/" with
          | Some i => drop i hostbegin
          | None => "/"
          end,
          match drop (strlen host) hostbegin with
          | String ":" after => atoi after
          | _ => 80%Z
          end).
Proof.
  intros s host H. destruct (spec_hostname_offset s host H) as [Hn Ht].
  unfold parse_from. rewrite Hn, Ht. do 2 f_equal.
  destruct (drop (strlen host) s) as [|c after]; [reflexivity |].
  cbn [head_byte drop].
  destruct (Ascii.eqb c ":") eqn:E.
  - apply Ascii.eqb_eq in E. subst c. reflexivity.
  - apply Ascii.eqb_neq in E.
    ascii_cases c; try reflexivity. now elim E.
Qed.

Lemma digits_value_no_digit : forall (s : string) (acc : Z),
  isdigit (head_byte s) = false -> digits_value s acc = acc.
Proof.
  intros [|c s] acc H; [reflexivity |].
  cbn [head_byte] in H. cbn [digits_value]. now rewrite H.
Qed.

(** [atoi] yields 0 when no number stands at the head of its argument. *)
Lemma atoi_no_number : forall s : string, no_number s = true -> atoi s = 0%Z.
Proof.
  intros s H. unfold atoi, no_number in *.
  destruct (skip_space s) as [|c r].
  - reflexivity.
  - assert (Hsign : forall t, negb (isdigit (head_byte t)) = true ->
                              digits_value t 0 = 0%Z).
    { intros t Ht. apply digits_value_no_digit. now apply negb_true_iff. }
    ascii_cases c;
      first [ rewrite (Hsign _ H); reflexivity
            | cbn [head_byte] in H; rewrite (Hsign _ H); reflexivity ].
Qed.

(** One step of [strncasecmp] against a pattern that goes on. *)
Lemma strncasecmp_step : forall (s p : string) (n : nat) (c : ascii),
  c <> NUL ->
  (strncasecmp s (String c p) (S n) = 0%Z
   <-> exists x s', s = String x s' /\ tolower x = tolower c
                    /\ strncasecmp s' p n = 0%Z).
Proof.
  intros s p n c Hc. cbn [strncasecmp head_byte tail].
  assert (Hlc : tolower c <> NUL).
  { intros E. apply (proj1 (tolower_nul _)) in E. contradiction. }
  destruct (Ascii.eqb (tolower (head_byte s)) (tolower c)) eqn:E; cbn [negb].
  - apply Ascii.eqb_eq in E. destruct s as [|x s']; cbn [head_byte tail] in *.
    + change (tolower NUL) with NUL in E. now elim Hlc.
    + assert (Hx : Ascii.eqb x NUL = false).
      { apply Ascii.eqb_neq. intros ->. change (tolower NUL) with NUL in E.
        now elim Hlc. }
      rewrite Hx. split.
      * intros H. exists x, s'. auto.
      * intros (x' & s'' & Hs & _ & H). injection Hs as <- <-. exact H.
  - apply Ascii.eqb_neq in E. split.
    + intros H. apply code_diff_zero in H. contradiction.
    + intros (x & s' & -> & Hx & _). now elim E.
Qed.

(** The scheme test succeeds exactly when the URI starts with the scheme, up
    to case. *)
Lemma strncasecmp_prefix_iff : forall p s : string,
  c_str p = p ->
  (strncasecmp s p (strlen p) = 0%Z <-> ci_equal (take (strlen p) s) p).
Proof.
  unfold ci_equal, strlen.
  induction p as [|c p IH]; intros s Hp.
  - cbn. split; reflexivity.
  - cbn [c_str] in Hp. destruct (Ascii.eqb c NUL) eqn:Ec; [discriminate Hp |].
    injection Hp as Hp. apply Ascii.eqb_neq in Ec.
    cbn [String.length]. rewrite (strncasecmp_step s p _ c Ec).
    cbn [c_str]. rewrite (proj2 (Ascii.eqb_neq c NUL) Ec), Hp. cbn [lower].
    split.
    + intros (x & s' & -> & Hx & H). apply (IH s' Hp) in H. rewrite Hp in H.
      cbn [take c_str].
      assert (Hxn : Ascii.eqb x NUL = false).
      { apply Ascii.eqb_neq. intros ->. change (tolower NUL) with NUL in Hx.
        symmetry in Hx. apply (proj1 (tolower_nul _)) in Hx. contradiction. }
      rewrite Hxn. cbn [lower]. now rewrite Hx, H.
    + intros H. destruct s as [|x s']; cbn [take c_str] in H; [discriminate H |].
      destruct (Ascii.eqb x NUL); [discriminate H |].
      cbn [lower] in H. injection H as Hx H.
      exists x, s'. repeat split; [exact Hx |].
      apply (IH s' Hp). now rewrite Hp.
Qed.

Lemma http_test_iff : forall uri : string,
  strncasecmp uri "http://" 7 = 0%Z <-> ci_equal (take 7 uri) "http://".
Proof. intros uri. exact (strncasecmp_prefix_iff "http://" uri eq_refl). Qed.

Lemma https_test_iff : forall uri : string,
  strncasecmp uri "https://" 8 = 0%Z <-> ci_equal (take 8 uri) "https://".
Proof. intros uri. exact (strncasecmp_prefix_iff "https://" uri eq_refl). Qed.



(** With the scheme [http://], both variants extract the host name of the
    specification: the bytes after the scheme up to the first delimiter; and
    they fail when there is no delimiter. *)
Lemma http_hostname_as_specified : forall uri : string,
  ci_equal (take 7 uri) "http://" ->
  option_map (fun r => fst (fst r)) (Concurrent.parse_uri uri)
  = spec_hostname (drop 7 uri)
  /\ option_map (fun r => fst (fst r)) (Sequential.parse_uri uri)
     = spec_hostname (drop 7 uri).
Proof.
  intros uri H. apply http_test_iff, Z.eqb_eq in H.
  unfold Concurrent.parse_uri, Sequential.parse_uri. rewrite H. cbn [negb].
  split; apply parse_from_hostname.
Qed.

Lemma tolower_slash : forall c : ascii, tolower c = "/"%char -> c = "/"%char.
Proof.
  intros c H. ascii_cases c; vm_compute in H; try discriminate H; reflexivity.
Qed.

Lemma https_eighth_byte : forall uri : string,
  strncasecmp uri "https://" 8 = 0%Z ->
  exists rest, drop 7 uri = String "/" rest.
Proof.
  intros uri H.
  do 8 (apply strncasecmp_step in H; [| discriminate];
        destruct H as (? & ? & -> & ? & H)).
  match goal with
  | Hs : tolower ?x = tolower "/"%char |- _ =>
      apply tolower_slash in Hs; subst x
  end.
  cbn [drop]. eexists. reflexivity.
Qed.






(** C5.  In the sequential variant a URI with the scheme [https://] is
    accepted, and its host name is looked for from offset 7, the second slash
    of the scheme, not from just past the scheme: the host name is empty and
    the path is the URI from that slash on, whether or not a delimiter follows
    the scheme. *)
Theorem https_host_name_is_empty :
  forall uri : string,
    ci_equal (take 8 uri) "https://" ->
    Sequential.parse_uri uri = Some ("", drop 7 uri, 80%Z).
Proof.
  intros uri H. apply https_test_iff in H.
  destruct (https_eighth_byte uri H) as [rest Hrest].
  unfold Sequential.parse_uri. rewrite H, Hrest.
  destruct (strncasecmp uri "http://" 7 =? 0)%Z; reflexivity.
Qed.

Lemma https_host_name_is_empty_witness :
  Sequential.parse_uri "https://example.com/x" = Some ("", "/example.com/x", 80%Z)
  /\ spec_hostname (drop 8 "https://example.com/x") = Some "example.com"
  /\ Sequential.parse_uri "https://example.com" = Some ("", "/example.com", 80%Z)
  /\ spec_hostname (drop 8 "https://example.com") = None.
Proof.
  split; [| split; [| split]].
  - apply (https_host_name_is_empty "https://example.com/x"). reflexivity.
  - reflexivity.
  - apply (https_host_name_is_empty "https://example.com"). reflexivity.
  - reflexivity.
Defined.

(** C10, amended.  When the host name ends at a colon and no number stands
    after it for [atoi] (after the white space and the sign that [atoi]
    skips, the next byte is not a digit), resolution succeeds and the port
    is 0, not 80.  Both variants. *)
Theorem port_zero_without_number :
  forall uri host after : string,
    ci_equal (take 7 uri) "http://" ->
    spec_hostname (drop 7 uri) = Some host ->
    drop (strlen host) (drop 7 uri) = String ":" after ->
    no_number after = true ->
    exists pathname,
      Concurrent.parse_uri uri = Some (host, pathname, 0%Z)
      /\ Sequential.parse_uri uri = Some (host, pathname, 0%Z).
Proof.
  intros uri host after Hs Hh Hcolon Hnum.
  apply http_test_iff, Z.eqb_eq in Hs.
  unfold Concurrent.parse_uri, Sequential.parse_uri. rewrite Hs. cbn [negb].
  rewrite (parse_from_parts _ _ Hh), Hcolon, (atoi_no_number _ Hnum).
  eexists. split; reflexivity.
Qed.

Lemma port_zero_without_number_witness :
  exists pathname,
    Concurrent.parse_uri "http://host:/path" = Some ("host", pathname, 0%Z)
    /\ Sequential.parse_uri "http://host:/path" = Some ("host", pathname, 0%Z).
Proof.
  apply (port_zero_without_number "http://host:/path" "host" "/path");
    reflexivity.
Defined.

(** C10 as stated fails when a sign follows the colon: the byte after the
    colon is not a digit and the port is the number after the sign. *)
Lemma port_after_sign :
  spec_hostname (drop 7 "http://host:+8/path") = Some "host"
  /\ drop (strlen "host") (drop 7 "http://host:+8/path") = String ":" "+8/path"
  /\ isdigit (head_byte "+8/path") = false
  /\ Concurrent.parse_uri "http://host:+8/path" = Some ("host", "/path", 8%Z)
  /\ Sequential.parse_uri "http://host:+8/path" = Some ("host", "/path", 8%Z)
  /\ (8 <> 0)%Z.
Proof. repeat split. discriminate. Qed.

(** ** The request sent to the server *)

Lemma take_take_app : forall (a b : string) (n : nat),
  take n a ++ take (n - strlen (take n a)) b = take n (a ++ b).
Proof.
  unfold strlen. induction a as [|x a IH]; intros b n.
  - cbn [append]. destruct n; cbn [take String.length append];
      rewrite ?Nat.sub_0_r; reflexivity.
  - destruct n as [|n]; cbn [take append String.length].
    + reflexivity.
    + cbn [Nat.sub]. f_equal. apply IH.
Qed.

Lemma snprintf_twice : forall (MAXLINE : nat) (a b : string),
  snprintf MAXLINE a ++ snprintf (MAXLINE - strlen (snprintf MAXLINE a)) b
  = take (MAXLINE - 1) (a ++ b).
Proof.
  intros M a b. unfold snprintf.
  replace (M - strlen (take (M - 1) a) - 1)%nat
    with (M - 1 - strlen (take (M - 1) a))%nat by lia.
  apply take_take_app.
Qed.

Lemma strchr_drop : forall (s : string) (c : ascii) (i : nat),
  strchr s c = Some i -> exists rest, drop i s = String c rest.
Proof.
  induction s as [|d s IH]; intros c i H; [discriminate H |].
  cbn [strchr] in H. destruct (Ascii.eqb d c) eqn:E.
  - injection H as <-. apply Ascii.eqb_eq in E. subst d. now exists s.
  - destruct (strchr s c) as [j|] eqn:Ej; [| discriminate H].
    injection H as <-. cbn [drop]. now apply IH.
Qed.

(** A resolved path is never empty: it starts with a slash. *)
Lemma parse_from_path : forall hostbegin hostname pathname port,
  parse_from hostbegin = Some (hostname, pathname, port) ->
  path_or_root pathname = pathname.
Proof.
  intros s h pn port H. unfold parse_from in H.
  destruct (strpbrk s host_delims); [| discriminate H].
  injection H as _ Hp _. subst pn.
  destruct (strchr s "/") as [i|] eqn:E; [| reflexivity].
  destruct (strchr_drop _ _ _ E) as [rest ->]. reflexivity.
Qed.

Lemma seq_parse_path : forall uri hostname pathname port,
  Sequential.parse_uri uri = Some (hostname, pathname, port) ->
  path_or_root pathname = pathname.
Proof.
  intros u h pn port H. unfold Sequential.parse_uri in H.
  destruct (if (strncasecmp u "http://" 7 =? 0)%Z then Some (drop 7 u)
            else if (strncasecmp u "https://" 8 =? 0)%Z then Some (drop 8 u)
            else None); [| discriminate H].
  eapply parse_from_path; eauto.
Qed.

Lemma conc_parse_path : forall uri hostname pathname port,
  Concurrent.parse_uri uri = Some (hostname, pathname, port) ->
  path_or_root pathname = pathname.
Proof.
  intros u h pn port H. unfold Concurrent.parse_uri in H.
  destruct (negb (strncasecmp u "http://" 7 =? 0)%Z); [discriminate H |].
  eapply parse_from_path; eauto.
Qed.

Lemma seq_forward_server : forall MAXLINE w method uri hostname pathname,
  server_writes (Sequential.forward MAXLINE w method uri hostname pathname)
  = [Sequential.upstream_request MAXLINE method pathname hostname].
Proof.
  intros. unfold Sequential.forward.
  destruct (relay_from_zero (response w)) as (_ & _ & Hs & _).
  destruct (relay (response w) 0) as [evs total]. cbn [fst snd] in *.
  cbn [server_writes]. rewrite server_writes_app, Hs. reflexivity.
Qed.

Lemma conc_forward_server : forall MAXLINE log_file w method uri hostname pathname,
  server_writes (Concurrent.forward MAXLINE log_file w method uri hostname pathname)
  = [Concurrent.upstream_request MAXLINE method pathname hostname].
Proof.
  intros. unfold Concurrent.forward, Concurrent.log_request.
  destruct (relay_from_zero (response w)) as (_ & _ & Hs & _).
  destruct (relay (response w) 0) as [evs total]. cbn [fst snd] in *.
  cbn [server_writes]. rewrite server_writes_app, Hs.
  destruct log_file; reflexivity.
Qed.

Lemma seq_upstream_request : forall MAXLINE method pathname hostname,
  path_or_root pathname = pathname ->
  Sequential.upstream_request MAXLINE method pathname hostname
  = take (MAXLINE - 1) (request_text user_agent_hdr method pathname hostname).
Proof.
  intros M m pn h Hp. unfold Sequential.upstream_request.
  rewrite snprintf_twice, Hp. unfold request_text.
  normalize_append. reflexivity.
Qed.

Lemma conc_upstream_request : forall MAXLINE method pathname hostname,
  path_or_root pathname = pathname ->
  Concurrent.upstream_request MAXLINE method pathname hostname
  = take (MAXLINE - 1)
      (request_text ("User-Agent: " ++ user_agent_hdr) method pathname hostname).
Proof.
  intros M m pn h Hp. unfold Concurrent.upstream_request.
  rewrite snprintf_twice, Hp. unfold request_text.
  normalize_append. reflexivity.
Qed.

(** C3, amended.  In a completed transaction the server is sent, in one
    write, the first MAXLINE - 1 bytes of "<method> <path> HTTP/1.0", the Host
    line, one fixed User-Agent line, "Connection: close",
    "Proxy-Connection: close" and an empty line; hence exactly that text
    when it is shorter than MAXLINE.  The version the client declared has no
    part in it.  The User-Agent line is [user_agent_hdr] in the sequential
    variant and [user_agent_hdr] after a second "User-Agent: " in the
    concurrent one. *)
Theorem upstream_request_bytes :
  forall (MAXLINE MAXBUF : nat) (blocklist : list string) (log_file : bool)
         (w : world) (method uri hostname pathname : string) (port : Z),
    (seq_path blocklist w (Completed method uri hostname pathname port) ->
     let text := request_text user_agent_hdr method pathname hostname in
     server_writes (Sequential.proxy MAXLINE MAXBUF blocklist w)
     = [take (MAXLINE - 1) text]
     /\ ((strlen text < MAXLINE)%nat ->
         server_writes (Sequential.proxy MAXLINE MAXBUF blocklist w) = [text]))
    /\
    (conc_path blocklist w (Completed method uri hostname pathname port) ->
     let text :=
       request_text ("User-Agent: " ++ user_agent_hdr) method pathname hostname in
     server_writes (Concurrent.proxy MAXLINE MAXBUF blocklist log_file w)
     = [take (MAXLINE - 1) text]
     /\ ((strlen text < MAXLINE)%nat ->
         server_writes (Concurrent.proxy MAXLINE MAXBUF blocklist log_file w) = [text])).
Proof.
  intros M B bl lf w m u h pn port. split.
  - intros Hp text.
    assert (Hpn : path_or_root pn = pn).
    { inversion Hp; subst. eapply seq_parse_path; eauto. }
    rewrite (seq_proxy_on_path M B bl w _ Hp). cbn [seq_trace server_writes].
    rewrite seq_forward_server, (seq_upstream_request _ _ _ _ Hpn).
    fold text. split; [reflexivity |].
    intros Hfit. rewrite take_all; [reflexivity | unfold strlen in Hfit; lia].
  - intros Hp text.
    assert (Hpn : path_or_root pn = pn).
    { inversion Hp; subst. eapply conc_parse_path; eauto. }
    rewrite (conc_proxy_on_path M B bl lf w _ Hp). cbn [conc_trace server_writes].
    rewrite conc_forward_server, (conc_upstream_request _ _ _ _ Hpn).
    fold text. split; [reflexivity |].
    intros Hfit. rewrite take_all; [reflexivity | unfold strlen in Hfit; lia].
Qed.

Lemma upstream_request_bytes_witness :
  server_writes (Sequential.proxy CSAPP_MAXLINE CSAPP_MAXBUF ["blocked.example.com"] get_world)
  = ["GET /a/b HTTP/1.0" ++ CRLF ++ "Host: example.com" ++ CRLF
     ++ user_agent_hdr
     ++ "Connection: close" ++ CRLF ++ "Proxy-Connection: close" ++ CRLF ++ CRLF]
  /\ server_writes
       (Concurrent.proxy CSAPP_MAXLINE CSAPP_MAXBUF ["blocked.example.com"] true get_world)
     = ["GET /a/b HTTP/1.0" ++ CRLF ++ "Host: example.com" ++ CRLF
        ++ "User-Agent: " ++ user_agent_hdr
        ++ "Connection: close" ++ CRLF ++ "Proxy-Connection: close" ++ CRLF
        ++ CRLF].
Proof.
  pose proof (upstream_request_bytes CSAPP_MAXLINE CSAPP_MAXBUF ["blocked.example.com"] true
                get_world "GET" "http://example.com:8080/a/b" "example.com"
                "/a/b" 8080) as [Hseq Hconc].
  split.
  - apply (proj2 (Hseq get_world_seq_path)). vm_compute. lia.
  - apply (proj2 (Hconc get_world_conc_path)). vm_compute. lia.
Defined.

(** C3 as stated fails on a request line of 8134 bytes, which the line
    buffer of 8192 bytes holds: the request sent to the server is cut after
    8191 bytes, in the middle of the User-Agent line. *)
Lemma upstream_request_cut_at_maxline :
  (strlen (request_line long_world) <? CSAPP_MAXLINE)%nat = true
  /\ seq_path [] long_world
       (Completed "GET" ("http://example.com" ++ long_path)
          "example.com" long_path 80)
  /\ server_writes (Sequential.proxy CSAPP_MAXLINE CSAPP_MAXBUF [] long_world)
     <> [request_text user_agent_hdr "GET" long_path "example.com"]
  /\ server_writes (Concurrent.proxy CSAPP_MAXLINE CSAPP_MAXBUF [] true long_world)
     <> [request_text ("User-Agent: " ++ user_agent_hdr) "GET" long_path
           "example.com"].
Proof.
  split; [vm_compute; reflexivity |].
  split.
  - apply seq_completed with (version := "HTTP/1.1");
      vm_compute; solve [discriminate | reflexivity].
  - split; intros H;
      apply (f_equal (map (fun s => N.of_nat (strlen s)))) in H;
      vm_compute in H; discriminate H.
Qed.

(** ** The blocklist *)

Lemma prefix_append : forall needle s : string,
  String.prefix needle s = true <-> exists post, s = needle ++ post.
Proof.
  induction needle as [|a needle IH]; intros s.
  - split; [intros _; now exists s |].
    intros _. destruct s; reflexivity.
  - destruct s as [|b s]; cbn [String.prefix].
    + split; [| intros [post H]; discriminate H].
      destruct (string_dec (String a needle) ""); discriminate.
    + destruct (ascii_dec a b) as [<-|Hab].
      * rewrite IH. split; intros [post H]; exists post.
        -- cbn [append]. now rewrite H.
        -- cbn [append] in H. now injection H.
      * split; [discriminate |].
        intros [post H]. cbn [append] in H. injection H as H _. now elim Hab.
Qed.

(** [strstr] finds an occurrence exactly when there is one. *)
Lemma strstr_occurs : forall haystack needle : string,
  (exists i, strstr haystack needle = Some i) <-> occurs_in needle haystack.
Proof.
  intros haystack needle. unfold occurs_in. split.
  - induction haystack as [|c hs IH]; cbn [strstr]; intros [i H].
    + destruct (String.prefix needle "") eqn:E; [| discriminate H].
      apply prefix_append in E. destruct E as [post ->]. now exists "", post.
    + destruct (String.prefix needle (String c hs)) eqn:E.
      * apply prefix_append in E. destruct E as [post ->]. now exists "", post.
      * destruct (strstr hs needle) as [j|]; [| discriminate H].
        destruct IH as (pre & post & ->); [now exists j |].
        now exists (String c pre), post.
  - intros (pre & post & ->). induction pre as [|c pre IH].
    + cbn [append]. exists O.
      assert (E : String.prefix needle (needle ++ post) = true)
        by (apply prefix_append; now exists post).
      destruct (needle ++ post); cbn [strstr]; now rewrite E.
    + destruct IH as [i Hi]. cbn [append strstr]. rewrite Hi.
      destruct (String.prefix needle (String c (pre ++ needle ++ post)));
        eexists; reflexivity.
Qed.

Lemma seq_blocked_iff : forall (blocklist : list string) (hostname : string),
  Sequential.blocked blocklist hostname = true
  <-> exists entry, In entry blocklist /\ ci_equal hostname entry.
Proof.
  intros bl h. unfold Sequential.blocked. rewrite existsb_exists.
  split; intros (e & Hin & H); exists e; split; auto.
  - now apply strcasecmp_zero_iff, Z.eqb_eq.
  - now apply Z.eqb_eq, strcasecmp_zero_iff.
Qed.

Lemma conc_blocked_iff : forall (blocklist : list string) (uri : string),
  Concurrent.blocked blocklist uri = true
  <-> exists entry, In entry blocklist /\ occurs_in entry uri.
Proof.
  intros bl u. unfold Concurrent.blocked. rewrite existsb_exists.
  split; intros (e & Hin & H); exists e; split; auto.
  - apply strstr_occurs. destruct (strstr u e) as [i|]; [now exists i |].
    discriminate H.
  - apply strstr_occurs in H. destruct H as [i ->]. reflexivity.
Qed.

Lemma not_blocked : forall (A : Type) (P : A -> Prop) (b : bool),
  (b = true <-> exists x, P x) -> (forall x, ~ P x) -> b = false.
Proof.
  intros A P [|] H Hn; [| reflexivity].
  destruct (proj1 H eq_refl) as [x Hx]. now elim (Hn x).
Qed.

Lemma seq_forward_connects : forall MAXLINE w method uri hostname pathname,
  connects (Sequential.forward MAXLINE w method uri hostname pathname) = [].
Proof.
  intros. unfold Sequential.forward.
  destruct (relay_quiet (response w) 0) as [Hc _].
  destruct (relay (response w) 0) as [evs total]. cbn [fst] in Hc.
  cbn [connects]. rewrite connects_app, Hc. reflexivity.
Qed.

Lemma conc_forward_resolutions : forall MAXLINE log_file w method uri hostname pathname,
  resolutions (Concurrent.forward MAXLINE log_file w method uri hostname pathname)
  = [].
Proof.
  intros. unfold Concurrent.forward, Concurrent.log_request.
  destruct (relay_quiet (response w) 0) as [_ Hr].
  destruct (relay (response w) 0) as [evs total]. cbn [fst] in Hr.
  cbn [resolutions]. rewrite resolutions_app, Hr.
  destruct log_file; reflexivity.
Qed.

(** C1, amended.  For a GET or HEAD request:
    - the sequential variant answers 403 "Forbidden" and opens no connection
      when the resolved host name equals a blocklist entry up to case, and
      goes on to the connection when it equals none;
    - the concurrent variant answers 403 "Forbidden", before it resolves the
      URI and without opening a connection, when a blocklist entry occurs in
      the text of the URI, byte for byte, and goes on to resolve the URI when
      none does. *)
Theorem blocklist_filter :
  forall (MAXLINE MAXBUF : nat) (blocklist : list string) (log_file : bool)
         (w : world) (method uri version : string),
    strlen (request_line w) <> O ->
    sscanf3 w = (method, uri, version) ->
    method_refused method = false ->
    let seq := Sequential.proxy MAXLINE MAXBUF blocklist w in
    let conc := Concurrent.proxy MAXLINE MAXBUF blocklist log_file w in
    (forall hostname pathname port,
       Sequential.parse_uri uri = Some (hostname, pathname, port) ->
       ((exists entry, In entry blocklist /\ ci_equal hostname entry) ->
        seq = Resolve uri
              :: Sequential.clienterror MAXBUF w "Blocked" "403" "Forbidden"
                   "This site is blocked by the proxy."
        /\ connects seq = [])
       /\
       ((forall entry, In entry blocklist -> ~ ci_equal hostname entry) ->
        exists p,
          (p = ConnectFailure uri hostname port
           \/ p = Completed method uri hostname pathname port)
          /\ seq = seq_trace MAXLINE MAXBUF w p
          /\ connects seq = [(hostname, snprintf 6 (fmt_d port))]))
    /\
    ((exists entry, In entry blocklist /\ occurs_in entry uri) ->
     conc = Concurrent.clienterror MAXBUF w "Blocked" "403" "Forbidden"
              "This site is blocked by the proxy."
     /\ connects conc = [] /\ resolutions conc = [])
    /\
    ((forall entry, In entry blocklist -> ~ occurs_in entry uri) ->
     exists p,
       (p = MalformedUri uri
        \/ (exists hostname port, p = ConnectFailure uri hostname port)
        \/ (exists hostname pathname port,
              p = Completed method uri hostname pathname port))
       /\ conc = conc_trace MAXLINE MAXBUF log_file w p
       /\ resolutions conc = [uri]).
Proof.
  intros M B bl lf w m u v Hne Hs Hm seq conc. subst seq conc.
  split; [| split].
  - intros h pn port Hp. split.
    + intros Hb. apply seq_blocked_iff in Hb.
      rewrite (seq_proxy_on_path M B bl w (BlockedHost u));
        [| eauto with proxy_paths].
      split; reflexivity.
    + intros Hnb.
      assert (Hb : Sequential.blocked bl h = false).
      { eapply not_blocked; [apply seq_blocked_iff |]. intros e [Hin He].
        exact (Hnb e Hin He). }
      destruct (connect_ok w h (snprintf 6 (fmt_d port))) eqn:Ec.
      * exists (Completed m u h pn port).
        rewrite (seq_proxy_on_path M B bl w (Completed m u h pn port));
          [| eauto with proxy_paths].
        split; [now right | split; [reflexivity |]].
        cbn [seq_trace connects]. now rewrite seq_forward_connects.
      * exists (ConnectFailure u h port).
        rewrite (seq_proxy_on_path M B bl w (ConnectFailure u h port));
          [| eauto with proxy_paths].
        split; [now left | split; reflexivity].
  - intros Hb. apply conc_blocked_iff in Hb.
    rewrite (conc_proxy_on_path M B bl lf w (BlockedHost u));
      [| eauto with proxy_paths].
    repeat split.
  - intros Hnb.
    assert (Hb : Concurrent.blocked bl u = false).
    { eapply not_blocked; [apply conc_blocked_iff |]. intros e [Hin He].
      exact (Hnb e Hin He). }
    destruct (Concurrent.parse_uri u) as [[[h pn] port]|] eqn:Ep.
    + destruct (connect_ok w h (snprintf 6 (fmt_d port))) eqn:Ec.
      * exists (Completed m u h pn port).
        rewrite (conc_proxy_on_path M B bl lf w (Completed m u h pn port));
          [| eauto with proxy_paths].
        split; [right; right; eauto | split; [reflexivity |]].
        cbn [conc_trace resolutions]. now rewrite conc_forward_resolutions.
      * exists (ConnectFailure u h port).
        rewrite (conc_proxy_on_path M B bl lf w (ConnectFailure u h port));
          [| eauto with proxy_paths].
        split; [right; left; eauto | split; reflexivity].
    + exists (MalformedUri u).
      rewrite (conc_proxy_on_path M B bl lf w (MalformedUri u));
        [| eauto with proxy_paths].
      split; [now left | split; reflexivity].
Qed.

Lemma blocklist_filter_witness :
  let w := get_request "http://blocked.example.com/page" in
  Sequential.proxy CSAPP_MAXLINE CSAPP_MAXBUF ["blocked.example.com"] w
  = Resolve "http://blocked.example.com/page"
    :: Sequential.clienterror CSAPP_MAXBUF w "Blocked" "403" "Forbidden"
         "This site is blocked by the proxy."
  /\ Concurrent.proxy CSAPP_MAXLINE CSAPP_MAXBUF ["blocked.example.com"] true w
     = Concurrent.clienterror CSAPP_MAXBUF w "Blocked" "403" "Forbidden"
         "This site is blocked by the proxy.".
Proof.
  intros w.
  assert (Hne : strlen (request_line w) <> O) by discriminate.
  assert (Hs : sscanf3 w = ("GET", "http://blocked.example.com/page", "HTTP/1.1"))
    by reflexivity.
  assert (Hm : method_refused "GET" = false) by reflexivity.
  pose proof (blocklist_filter CSAPP_MAXLINE CSAPP_MAXBUF ["blocked.example.com"] true w
                "GET" "http://blocked.example.com/page" "HTTP/1.1" Hne Hs Hm)
    as (Hseq & Hconc & _).
  split.
  - apply (Hseq "blocked.example.com" "/page" 80%Z eq_refl).
    exists "blocked.example.com". split; [now left | reflexivity].
  - apply Hconc. exists "blocked.example.com". split; [now left |].
    exists "http://", "/page". reflexivity.
Defined.

(** C1 as stated fails in the concurrent variant, both ways.  With
    [example.com] on the blocklist, a request for [http://EXAMPLE.COM/],
    whose host name equals the entry up to case, goes through to the server;
    and a request for [http://example.org/example.com], whose host name
    equals no entry, is answered 403. *)
Lemma concurrent_filter_reads_the_uri :
  let blocklist := ["example.com"] in
  let upper := get_request "http://EXAMPLE.COM/" in
  let other := get_request "http://example.org/example.com" in
  (Concurrent.parse_uri "http://EXAMPLE.COM/" = Some ("EXAMPLE.COM", "/", 80%Z)
   /\ ci_equal "EXAMPLE.COM" "example.com"
   /\ Concurrent.proxy CSAPP_MAXLINE CSAPP_MAXBUF blocklist true upper
      = conc_trace CSAPP_MAXLINE CSAPP_MAXBUF true upper
          (Completed "GET" "http://EXAMPLE.COM/" "EXAMPLE.COM" "/" 80)
   /\ connects (Concurrent.proxy CSAPP_MAXLINE CSAPP_MAXBUF blocklist true upper)
      = [("EXAMPLE.COM", "80")])
  /\
  (Concurrent.parse_uri "http://example.org/example.com"
   = Some ("example.org", "/example.com", 80%Z)
   /\ ~ ci_equal "example.org" "example.com"
   /\ Concurrent.proxy CSAPP_MAXLINE CSAPP_MAXBUF blocklist true other
      = Concurrent.clienterror CSAPP_MAXBUF other "Blocked" "403" "Forbidden"
          "This site is blocked by the proxy.").
Proof.
  intros blocklist upper other. split.
  - repeat split.
  - split; [reflexivity | split; [| reflexivity]].
    unfold ci_equal. discriminate.
Qed.

(** ** The log under concurrent transactions *)

Lemma set_thread_split : forall (pre post : list thread_state) (t t' : thread_state),
  set_thread (List.length pre) t' (pre ++ t :: post) = (pre ++ t' :: post)%list.
Proof.
  intros pre post t t'. unfold set_thread.
  rewrite firstn_app, Nat.sub_diag, firstn_all. cbn [firstn].
  rewrite app_nil_r. f_equal. f_equal.
  change (S (List.length pre)) with (1 + List.length pre)%nat.
  rewrite <- skipn_skipn.
  rewrite skipn_app, Nat.sub_diag, skipn_all. reflexivity.
Qed.

Lemma count_holders_app : forall a b : list thread_state,
  count_holders (a ++ b) = (count_holders a + count_holders b)%nat.
Proof.
  induction a as [|t a IH]; intros b; cbn [count_holders app]; [reflexivity |].
  rewrite IH. lia.
Qed.

Lemma futures_app : forall (cur : string) (a b : list thread_state),
  futures cur (a ++ b) = (futures cur a ++ futures cur b)%list.
Proof.
  intros cur a b. unfold futures. now rewrite map_app, concat_app.
Qed.

Lemma futures_cons : forall (cur : string) (t : thread_state) (ts : list thread_state),
  futures cur (t :: ts)
  = (records (if holds t then Some cur else None) (todo t) ++ futures cur ts)%list.
Proof. reflexivity. Qed.

(** Threads outside the critical section do not depend on its progress. *)
Lemma futures_no_holder : forall (cur cur' : string) (ts : list thread_state),
  count_holders ts = O -> futures cur ts = futures cur' ts.
Proof.
  intros cur cur'. induction ts as [|t ts IH]; intros H; [reflexivity |].
  cbn [count_holders] in H. rewrite !futures_cons.
  destruct (holds t); [discriminate H |]. rewrite IH by exact H. reflexivity.
Qed.

Lemma flatten_snoc : forall (done : list string) (r : string),
  flatten (done ++ [r]) = flatten done ++ r.
Proof.
  induction done as [|d done IH]; intros r; cbn [flatten app].
  - apply append_nil_r.
  - now rewrite IH, append_assoc.
Qed.

(** The shape of the thread list around the thread that moves. *)
Lemma holders_around : forall (pre post : list thread_state) (t : thread_state)
    (lk : bool),
  count_holders (pre ++ t :: post) = (if lk then 1 else 0)%nat ->
  holds t = true ->
  lk = true /\ count_holders pre = O /\ count_holders post = O.
Proof.
  intros pre post t lk H Ht. rewrite count_holders_app in H.
  cbn [count_holders] in H. rewrite Ht in H. destruct lk; lia.
Qed.

Lemma holders_none : forall (pre post : list thread_state) (t : thread_state),
  count_holders (pre ++ t :: post) = O ->
  holds t = false /\ count_holders pre = O /\ count_holders post = O.
Proof.
  intros pre post t H. rewrite count_holders_app in H.
  cbn [count_holders] in H. destruct (holds t); [lia |]. repeat split; lia.
Qed.

Lemma step_shape : forall (i : nat) (s s' : shared),
  step i s = Some s' ->
  exists pre post h e rest,
    threads s = (pre ++ {| holds := h; todo := e :: rest |} :: post)%list
    /\ i = List.length pre.
Proof.
  intros i s s' H. unfold step in H.
  destruct (nth_error (threads s) i) as [t|] eqn:E; [| discriminate H].
  apply nth_error_split in E. destruct E as (pre & post & Hts & Hlen).
  destruct t as [h td]. destruct td as [|e rest]; [discriminate H |].
  exists pre, post, h, e, rest. split; [exact Hts | now symmetry].
Qed.

Lemma nth_error_middle : forall (A : Type) (pre post : list A) (x : A),
  nth_error (pre ++ x :: post) (List.length pre) = Some x.
Proof.
  intros A pre post x. rewrite nth_error_app2 by lia.
  now rewrite Nat.sub_diag.
Qed.

Section LogInvariant.

Variable all : list string.

(** Every action of every thread keeps the invariant. *)
Lemma log_invariant_step : forall (i : nat) (s s' : shared),
  log_invariant all s -> step i s = Some s' -> log_invariant all s'.
Proof.
  intros i s s' (done & cur & Hc & Hcur & Hcnt & Hd & Hperm) Hstep.
  destruct (step_shape i s s' Hstep) as (pre & post & h & e & rest & Hts & ->).
  unfold step in Hstep. rewrite Hts, nth_error_middle in Hstep.
  cbn [todo holds] in Hstep. repeat rewrite set_thread_split in Hstep.
  rewrite Hts in Hcnt, Hd, Hperm.
  apply Forall_app in Hd. destruct Hd as [Hdpre Hd].
  apply Forall_cons_iff in Hd. destruct Hd as [Hdt Hdpost].
  cbn [holds todo] in Hdt.
  rewrite futures_app, futures_cons in Hperm. cbn [holds todo] in Hperm.
  unfold log_invariant, log_content in *.
  assert (Hsilent : forall rest',
            disciplined h rest' = true ->
            (forall c, records c rest' = records c (e :: rest)) ->
            exists done0 cur0,
              file s ++ buffer s = flatten done0 ++ cur0
              /\ (locked s = false -> cur0 = "")
              /\ count_holders (pre ++ {| holds := h; todo := rest' |} :: post)
                 = (if locked s then 1 else 0)%nat
              /\ Forall (fun t => disciplined (holds t) (todo t) = true)
                   (pre ++ {| holds := h; todo := rest' |} :: post)
              /\ Permutation all
                   (done0 ++ futures cur0
                      (pre ++ {| holds := h; todo := rest' |} :: post))).
  { intros rest' Hdr Hrec. exists done, cur. repeat split; auto.
    - rewrite count_holders_app in *. exact Hcnt.
    - apply Forall_app. split; [exact Hdpre |]. now constructor.
    - rewrite futures_app, futures_cons. cbn [holds todo]. now rewrite Hrec. }
  destruct e.
  - (* ClientWrite *)
    injection Hstep as <-. cbn [locked buffer file threads]. rewrite ?set_thread_split.
    apply Hsilent; [exact Hdt | reflexivity].
  - (* Resolve *)
    injection Hstep as <-. cbn [locked buffer file threads]. rewrite ?set_thread_split.
    apply Hsilent; [exact Hdt | reflexivity].
  - (* Connect *)
    injection Hstep as <-. cbn [locked buffer file threads]. rewrite ?set_thread_split.
    apply Hsilent; [exact Hdt | reflexivity].
  - (* ServerWrite *)
    injection Hstep as <-. cbn [locked buffer file threads]. rewrite ?set_thread_split.
    apply Hsilent; [exact Hdt | reflexivity].
  - (* Format *)
    injection Hstep as <-. cbn [locked buffer file threads]. rewrite ?set_thread_split.
    apply Hsilent; [exact Hdt | reflexivity].
  - (* LogLock *)
    destruct (locked s) eqn:El; [discriminate Hstep |].
    injection Hstep as <-. cbn [locked buffer file threads]. rewrite ?set_thread_split.
    specialize (Hcur eq_refl). subst cur.
    destruct (holders_none _ _ _ Hcnt) as (Hh & Hpre & Hpost).
    cbn [holds] in Hh. subst h. cbn [disciplined negb andb] in Hdt.
    exists done, "". repeat split; auto.
    + rewrite count_holders_app. cbn [count_holders holds]. lia.
    + apply Forall_app. split; [exact Hdpre |]. now constructor.
    + rewrite futures_app, futures_cons. cbn [holds todo]. exact Hperm.
  - (* LogWrite *)
    cbn [disciplined] in Hdt. apply andb_true_iff in Hdt.
    destruct Hdt as [-> Hdt].
    destruct (holders_around _ _ _ _ Hcnt eq_refl) as (El & Hpre & Hpost).
    destruct bytes as [|c bytes]; injection Hstep as <-;
      cbn [locked buffer file threads]; rewrite ?set_thread_split, El.
    + exists done, cur. repeat split; auto.
      * discriminate.
      * rewrite count_holders_app. cbn [count_holders holds]. lia.
      * apply Forall_app. split; [exact Hdpre |]. now constructor.
      * rewrite futures_app, futures_cons. cbn [holds todo].
        cbn [records] in Hperm. now rewrite append_nil_r in Hperm.
    + exists done, (cur ++ String c ""). repeat split.
      * now rewrite <- !append_assoc, Hc.
      * discriminate.
      * rewrite count_holders_app. cbn [count_holders holds]. lia.
      * apply Forall_app. split; [exact Hdpre |]. constructor; [| exact Hdpost].
        cbn [holds todo disciplined andb]. exact Hdt.
      * rewrite futures_app, futures_cons. cbn [holds todo records].
        rewrite (futures_no_holder _ cur pre Hpre),
                (futures_no_holder _ cur post Hpost).
        rewrite append_assoc. cbn [append]. exact Hperm.
  - (* LogFlush *)
    cbn [disciplined] in Hdt. apply andb_true_iff in Hdt.
    destruct Hdt as [-> Hdt].
    destruct (holders_around _ _ _ _ Hcnt eq_refl) as (El & Hpre & Hpost).
    injection Hstep as <-. cbn [locked buffer file threads]. rewrite ?set_thread_split, El.
    exists done, cur. repeat split; auto.
    + now rewrite append_nil_r.
    + discriminate.
    + rewrite count_holders_app. cbn [count_holders holds]. lia.
    + apply Forall_app. split; [exact Hdpre |]. now constructor.
    + rewrite futures_app, futures_cons. cbn [holds todo]. exact Hperm.
  - (* LogUnlock *)
    destruct h; [| discriminate Hstep].
    injection Hstep as <-. cbn [locked buffer file threads]. rewrite ?set_thread_split.
    cbn [disciplined andb] in Hdt.
    destruct (holders_around _ _ _ _ Hcnt eq_refl) as (El & Hpre & Hpost).
    exists (done ++ [cur])%list, "". repeat split; auto.
    + now rewrite flatten_snoc, append_nil_r.
    + rewrite count_holders_app. cbn [count_holders holds]. lia.
    + apply Forall_app. split; [exact Hdpre |]. now constructor.
    + rewrite futures_app, futures_cons. cbn [holds todo].
      rewrite (futures_no_holder _ cur pre Hpre),
              (futures_no_holder _ cur post Hpost).
      cbn [records] in Hperm. rewrite <- app_assoc.
      eapply Permutation_trans; [exact Hperm |].
      apply Permutation_app_head. cbn [app].
      symmetry. apply Permutation_middle.
  - (* ServerClose *)
    injection Hstep as <-. cbn [locked buffer file threads]. rewrite ?set_thread_split.
    apply Hsilent; [exact Hdt | reflexivity].
Qed.

Lemma log_invariant_run : forall (schedule : list nat) (s s' : shared),
  log_invariant all s -> run schedule s = Some s' -> log_invariant all s'.
Proof.
  intros schedule. induction schedule as [|i later IH]; intros s s' Hinv Hrun.
  - injection Hrun as <-. exact Hinv.
  - cbn [run] in Hrun. destruct (step i s) as [s1|] eqn:E; [| discriminate Hrun].
    eapply IH; [| exact Hrun]. eapply log_invariant_step; eauto.
Qed.

End LogInvariant.

Lemma log_invariant_start : forall traces : list (list event),
  Forall (fun tr => disciplined false tr = true) traces ->
  log_invariant (List.concat (map (records None) traces)) (start traces).
Proof.
  intros traces Hd. exists [], "". unfold start, log_content.
  cbn [locked buffer file threads flatten append app].
  repeat split; auto.
  - induction traces as [|tr traces IH]; [reflexivity |].
    cbn [map count_holders holds]. apply IH. now inversion Hd.
  - induction Hd as [|tr traces Htr Hd IH]; cbn [map]; constructor; auto.
  - unfold futures. rewrite map_map. cbn [holds todo]. apply Permutation_refl.
Qed.

(** The relay loop leaves the log alone. *)
Lemma relay_silent : forall (reads : list string) (size : Z) (tl : list event),
  (forall b, disciplined b (fst (relay reads size) ++ tl) = disciplined b tl)
  /\ (forall c, records c (fst (relay reads size) ++ tl) = records c tl).
Proof.
  induction reads as [|buf rest IH]; intros size tl; cbn [relay].
  - split; reflexivity.
  - destruct (strlen buf =? 0)%nat; [split; reflexivity |].
    specialize (IH (to_int (size + Z.of_nat (strlen buf))) tl).
    destruct (relay rest (to_int (size + Z.of_nat (strlen buf)))) as [evs total].
    cbn [fst app disciplined records] in *. exact IH.
Qed.

(** The concurrent proxy touches the log under the mutex only, and the bytes
    of its critical section are its log line. *)
Lemma conc_proxy_disciplined : forall MAXLINE MAXBUF blocklist log_file w,
  disciplined false (Concurrent.proxy MAXLINE MAXBUF blocklist log_file w) = true
  /\ (log_file = true ->
      records None (Concurrent.proxy MAXLINE MAXBUF blocklist log_file w)
      = log_lines (Concurrent.proxy MAXLINE MAXBUF blocklist log_file w)).
Proof.
  intros M B bl lf w. destruct (conc_path_total bl w) as [p Hp].
  rewrite (conc_proxy_on_path M B bl lf w p Hp).
  destruct p; cbn [conc_trace]; try (split; reflexivity).
  cbn [disciplined records log_lines]. unfold Concurrent.forward.
  destruct (relay_from_zero (response w)) as (_ & Hl & _ & _).
  destruct (relay_silent (response w) 0
              ([Format] ++ Concurrent.log_request lf
                 (format_log_entry w uri (snd (relay (response w) 0)))
               ++ [ServerClose])%list) as [Hd Hr].
  destruct (relay (response w) 0) as [evs total]. cbn [fst snd] in *.
  cbn [disciplined records log_lines]. rewrite Hd, Hr, log_lines_app, Hl.
  split.
  - destruct lf; reflexivity.
  - intros ->. reflexivity.
Qed.

Lemma futures_finished : forall (cur : string) (ts : list thread_state),
  Forall (fun t => todo t = []) ts -> futures cur ts = [].
Proof.
  intros cur ts H. induction H as [|t ts Ht H IH]; [reflexivity |].
  rewrite futures_cons, Ht, IH. now destruct (holds t).
Qed.

Lemma holders_finished : forall ts : list thread_state,
  Forall (fun t => todo t = []) ts ->
  Forall (fun t => disciplined (holds t) (todo t) = true) ts ->
  count_holders ts = O.
Proof.
  intros ts H. induction H as [|t ts Ht H IH]; intros Hd; [reflexivity |].
  inversion Hd as [|? ? Hdt Hdts]; subst. cbn [count_holders].
  rewrite Ht in Hdt. cbn [disciplined] in Hdt.
  destruct (holds t); [discriminate Hdt |]. now apply IH.
Qed.

(** Inside a critical section, the record under way extends what is already
    written of it. *)
Lemma records_inside : forall (tr : list event) (cur : string),
  disciplined true tr = true ->
  exists pending more, records (Some cur) tr = (cur ++ pending) :: more.
Proof.
  induction tr as [|e tr IH]; intros cur H; [discriminate H |].
  destruct e; cbn [disciplined records andb] in *;
    try (now apply IH); try discriminate H.
  - destruct (IH (cur ++ bytes) H) as (pending & more & ->).
    exists (bytes ++ pending), more. now rewrite append_assoc.
  - exists "", (records None tr). now rewrite append_nil_r.
Qed.

Lemma holder_exists : forall ts : list thread_state,
  count_holders ts <> O ->
  exists pre t post, ts = (pre ++ t :: post)%list /\ holds t = true.
Proof.
  induction ts as [|t ts IH]; intros H; [now elim H |].
  destruct (holds t) eqn:Et.
  - exists [], t, ts. split; [reflexivity | exact Et].
  - cbn [count_holders] in H. rewrite Et in H.
    destruct (IH H) as (pre & t' & post & -> & Ht').
    exists (t :: pre), t', post. split; [reflexivity | exact Ht'].
Qed.

(** The end of a completed transaction of the concurrent proxy: the record
    is formatted, then the mutex is taken, the record written and flushed,
    the mutex released. *)
Lemma conc_log_section : forall MAXLINE MAXBUF blocklist w method uri hostname pathname port,
  conc_path blocklist w (Completed method uri hostname pathname port) ->
  exists before,
    Concurrent.proxy MAXLINE MAXBUF blocklist true w
    = (before
       ++ [Format; LogLock;
           LogWrite (format_log_entry w uri (snd (relay (response w) 0))
                     ++ String LF "");
           LogFlush; LogUnlock; ServerClose])%list
    /\ log_lines before = []
    /\ disciplined false before = true.
Proof.
  intros M B bl w m u h pn port Hp.
  rewrite (conc_proxy_on_path M B bl true w _ Hp). cbn [conc_trace].
  unfold Concurrent.forward, Concurrent.log_request.
  destruct (relay_from_zero (response w)) as (_ & Hl & _ & _).
  pose proof (proj1 (relay_silent (response w) 0 []) false) as Hd.
  destruct (relay (response w) 0) as [evs total]. cbn [fst snd] in *.
  exists (Resolve u :: Connect h (snprintf 6 (fmt_d port))
          :: ServerWrite (Concurrent.upstream_request M m pn h) :: evs).
  split; [reflexivity |]. cbn [log_lines disciplined].
  rewrite app_nil_r in Hd. split; [exact Hl | exact Hd].
Qed.

Lemma schedule_keeps_records_whole :
  forall (MAXLINE MAXBUF : nat) (blocklist : list string) (worlds : list world)
         (schedule : list nat) (s : shared),
    run schedule
      (start (map (Concurrent.proxy MAXLINE MAXBUF blocklist true) worlds)) = Some s ->
    (count_holders (threads s) <= 1)%nat
    /\ exists (done : list string) (cur : string) (rest : list string),
         log_content s = flatten done ++ cur
         /\ Permutation
              (List.concat
                 (map log_lines
                    (map (Concurrent.proxy MAXLINE MAXBUF blocklist true) worlds)))
              (done ++ rest)
         /\ (cur = "" \/ exists pending, In (cur ++ pending) rest)
         /\ (locked s = false -> cur = "")
         /\ (finished s -> cur = "" /\ rest = []).
Proof.
  intros M B bl worlds schedule s Hrun.
  set (traces := map (Concurrent.proxy M B bl true) worlds) in *.
  assert (Hd : Forall (fun tr => disciplined false tr = true) traces).
  { subst traces. apply Forall_forall. intros tr Hin.
    apply in_map_iff in Hin. destruct Hin as (w & <- & _).
    apply conc_proxy_disciplined. }
  assert (Hall : map (records None) traces = map log_lines traces).
  { subst traces. rewrite !map_map. apply map_ext. intros w.
    now apply conc_proxy_disciplined. }
  pose proof (log_invariant_run _ schedule _ s (log_invariant_start traces Hd)
                Hrun) as (done & cur & Hc & Hcur & Hcnt & Hdisc & Hperm).
  rewrite Hall in Hperm.
  split; [rewrite Hcnt; destruct (locked s); lia |].
  exists done, cur, (futures cur (threads s)).
  split; [exact Hc | split; [exact Hperm | split; [| split; [exact Hcur |]]]].
  - destruct (locked s) eqn:El; [| left; now apply Hcur].
    right. destruct (holder_exists (threads s)) as (pre & t & post & Hts & Ht);
      [rewrite Hcnt; discriminate |].
    rewrite Hts in Hdisc. apply Forall_app in Hdisc. destruct Hdisc as [_ Hdisc].
    apply Forall_cons_iff in Hdisc. destruct Hdisc as [Hdt _].
    rewrite Ht in Hdt.
    destruct (records_inside (todo t) cur Hdt) as (pending & more & Hrec).
    exists pending. rewrite Hts, futures_app, futures_cons, Ht, Hrec.
    apply in_or_app. right. now left.
  - intros Hfin. split; [| now apply futures_finished].
    apply Hcur. rewrite (holders_finished _ Hfin Hdisc) in Hcnt.
    destruct (locked s); [discriminate Hcnt | reflexivity].
Qed.

(** C9, amended.  In the concurrent variant a transaction formats its
    record first and then writes and flushes it as one critical section
    under [log_mutex].  Under every schedule of any number of transactions,
    at most one thread is in its critical section, and the log is at every
    moment a sequence of whole records, each the log line of one transaction
    and none twice, followed by the part already written of the record of the
    thread in the critical section, if any; when all threads have finished,
    the log is the records of all completed transactions, one after the other
    in some order. *)
Theorem log_records_do_not_interleave :
  forall (MAXLINE MAXBUF : nat) (blocklist : list string),
    (forall (w : world) (method uri hostname pathname : string) (port : Z),
       conc_path blocklist w (Completed method uri hostname pathname port) ->
       exists before,
         Concurrent.proxy MAXLINE MAXBUF blocklist true w
         = (before
            ++ [Format; LogLock;
                LogWrite (format_log_entry w uri (snd (relay (response w) 0))
                          ++ String LF "");
                LogFlush; LogUnlock; ServerClose])%list
         /\ log_lines before = []
         /\ disciplined false before = true)
    /\
    (forall (worlds : list world) (schedule : list nat) (s : shared),
       let traces := map (Concurrent.proxy MAXLINE MAXBUF blocklist true) worlds in
       run schedule (start traces) = Some s ->
       (count_holders (threads s) <= 1)%nat
       /\ exists (done : list string) (cur : string) (rest : list string),
            log_content s = flatten done ++ cur
            /\ Permutation (List.concat (map log_lines traces)) (done ++ rest)
            /\ (cur = "" \/ exists pending, In (cur ++ pending) rest)
            /\ (locked s = false -> cur = "")
            /\ (finished s -> cur = "" /\ rest = [])).
Proof.
  intros M B bl. split.
  - intros w m u h pn port Hp. eapply conc_log_section; eauto.
  - intros worlds schedule s traces Hrun. subst traces.
    exact (schedule_keeps_records_whole M B bl worlds schedule s Hrun).
Qed.

Lemma log_records_do_not_interleave_witness :
  exists s,
    run interleaved_schedule
      (start (map (Concurrent.proxy CSAPP_MAXLINE CSAPP_MAXBUF [] true) two_worlds)) = Some s
    /\ file s
       = ("[Mon 02 Nov 2026 10:00:00 UTC] 192.0.2.7 http://a.example/ 24"
          ++ String LF "")
         ++ ("[Mon 02 Nov 2026 10:00:00 UTC] 192.0.2.7 http://b.example/ 24"
             ++ String LF "")
    /\ (count_holders (threads s) <= 1)%nat
    /\ exists done cur rest,
         log_content s = flatten done ++ cur
         /\ Permutation
              (List.concat
                 (map log_lines
                    (map (Concurrent.proxy CSAPP_MAXLINE CSAPP_MAXBUF [] true) two_worlds)))
              (done ++ rest)
         /\ (cur = "" \/ exists pending, In (cur ++ pending) rest)
         /\ (locked s = false -> cur = "")
         /\ (finished s -> cur = "" /\ rest = []).
Proof.
  eexists. split; [vm_compute; reflexivity |].
  split; [reflexivity |].
  apply (proj2 (log_records_do_not_interleave CSAPP_MAXLINE CSAPP_MAXBUF []) two_worlds
           interleaved_schedule).
  vm_compute. reflexivity.
Defined.

(** C9 as stated fails for the formatting: it is not part of the critical
    section.  After this schedule the first thread holds the mutex and has
    written ten bytes of its record; the second thread then formats its own
    record, and the mutex is still held by the first. *)
Lemma format_runs_outside_the_critical_section :
  exists s s',
    run (repeat 0 18 ++ repeat 1 6)%list%nat
      (start (map (Concurrent.proxy CSAPP_MAXLINE CSAPP_MAXBUF [] true) two_worlds)) = Some s
    /\ locked s = true
    /\ option_map holds (nth_error (threads s) 0) = Some true
    /\ log_content s = "[Mon 02 No"
    /\ option_map (fun t => hd_error (todo t)) (nth_error (threads s) 1)
       = Some (Some Format)
    /\ step 1 s = Some s'
    /\ locked s' = true
    /\ option_map holds (nth_error (threads s') 0) = Some true
    /\ option_map (fun t => hd_error (todo t)) (nth_error (threads s') 1)
       = Some (Some LogLock).
Proof.
  eexists. eexists.
  split; [vm_compute; reflexivity |].
  split; [reflexivity |]. split; [reflexivity |]. split; [reflexivity |].
  split; [reflexivity |].
  split; [vm_compute; reflexivity |].
  repeat split.
Qed.


(** * More of the code *)

(** ** [read_blocklist] *)

Lemma take_prefix : forall a b : string, take (String.length a) (a ++ b) = a.
Proof.
  induction a as [|x a IH]; intros b; cbn [String.length append take].
  - now destruct b.
  - now rewrite IH.
Qed.

Lemma plain_cons : forall (c : ascii) (s : string),
  plain (String c s) = true ->
  Ascii.eqb c NUL = false /\ Ascii.eqb c LF = false /\ plain s = true.
Proof.
  intros c s H. cbn [plain] in H. apply andb_true_iff in H.
  destruct H as [H Hs]. apply negb_true_iff, orb_false_iff in H.
  tauto.
Qed.

Lemma fgets_line_terminated : forall (line rest : string) (room : nat),
  plain line = true ->
  (String.length line < room)%nat ->
  fgets_line room (line ++ String LF rest) = (line ++ String LF "", rest).
Proof.
  induction line as [|c line IH]; intros rest room Hp Hr.
  - destruct room; [lia |]. reflexivity.
  - destruct room as [|room]; [cbn in Hr; lia |].
    destruct (plain_cons _ _ Hp) as (_ & Hlf & Hp').
    cbn [append fgets_line]. rewrite Hlf.
    rewrite IH by (cbn in Hr; auto; lia). reflexivity.
Qed.

Lemma fgets_line_unterminated : forall (line : string) (room : nat),
  plain line = true ->
  (String.length line <= room)%nat ->
  fgets_line room line = (line, "").
Proof.
  induction line as [|c line IH]; intros room Hp Hr.
  - now destruct room.
  - destruct room as [|room]; [cbn in Hr; lia |].
    destruct (plain_cons _ _ Hp) as (_ & Hlf & Hp').
    cbn [fgets_line]. rewrite Hlf.
    rewrite IH by (cbn in Hr; auto; lia). reflexivity.
Qed.

Lemma fgets_line_full : forall (line rest : string),
  plain line = true ->
  fgets_line (String.length line) (line ++ rest) = (line, rest).
Proof.
  induction line as [|c line IH]; intros rest Hp.
  - cbn. now destruct rest.
  - destruct (plain_cons _ _ Hp) as (_ & Hlf & Hp').
    cbn [append fgets_line String.length]. rewrite Hlf, IH by exact Hp'.
    reflexivity.
Qed.

Lemma strcspn_plain : forall line rest : string,
  plain line = true ->
  strcspn (line ++ String LF rest) (String LF "") = String.length line
  /\ strcspn line (String LF "") = String.length line.
Proof.
  induction line as [|c line IH]; intros rest Hp.
  - cbn [append strcspn mem_char String.length].
    rewrite Ascii.eqb_refl, orb_true_r. split; reflexivity.
  - destruct (plain_cons _ _ Hp) as (Hnul & Hlf & Hp').
    destruct (IH rest Hp') as [H1 H2].
    cbn [append strcspn mem_char String.length].
    rewrite Hnul, Hlf, H1, H2. split; reflexivity.
Qed.

Lemma strlen_pos_nonempty : forall s : string,
  (0 <? strlen s)%nat = nonempty s.
Proof. intros [|c s]; reflexivity. Qed.

Lemma take_whole : forall s : string, take (String.length s) s = s.
Proof.
  intros s. rewrite <- (append_nil_r s) at 2. apply take_prefix.
Qed.

(** The loop on a file of lines, with fuel to spare. *)
Lemma read_loop_lines : forall (MAXLINE : nat) (lines : list string)
    (last : string) (fuel : nat) (blocklist : list string),
  Forall (fun l => plain l = true /\ (strlen l + 2 <= MAXLINE)%nat) lines ->
  plain last = true ->
  (strlen last + 1 <= MAXLINE)%nat ->
  (List.length blocklist + List.length lines < MAX_BLOCKLIST)%nat ->
  (String.length (unlines lines ++ last) < fuel)%nat ->
  read_loop fuel MAXLINE (unlines lines ++ last) blocklist
  = Some (Loaded (blocklist ++ filter nonempty (lines ++ [last]))%list).
Proof.
  intros M lines last. unfold strlen.
  induction lines as [|l lines IH]; intros fuel bl Hl Hp Hlen Hcount Hfuel.
  - cbn [unlines append app filter] in *.
    destruct fuel as [|fuel]; [lia |]. cbn [read_loop].
    destruct last as [|c last].
    + cbn. now rewrite app_nil_r.
    + cbn [fgets].
      rewrite fgets_line_unterminated by (auto; lia).
      assert (Hb : (MAX_BLOCKLIST <=? List.length bl)%nat = false)
        by (apply Nat.leb_gt; lia).
      rewrite Hb, (proj2 (strcspn_plain _ "" Hp)), take_whole.
      cbn [strlen String.length Nat.ltb Nat.leb nonempty String.eqb negb].
      destruct fuel as [|fuel]; [cbn in Hfuel; lia |]. reflexivity.
  - inversion Hl as [|? ? [Hpl Hll] Hl']; subst.
    cbn [unlines app filter] in *. rewrite append_assoc in *.
    cbn [append] in *.
    destruct fuel as [|fuel]; [lia |]. cbn [read_loop].
    assert (Hf : fgets M (l ++ String LF (unlines lines ++ last))
                 = Some (l ++ String LF "", unlines lines ++ last)).
    { unfold fgets.
      rewrite fgets_line_terminated by (auto; lia).
      destruct l; reflexivity. }
    rewrite Hf.
    assert (Hb : (MAX_BLOCKLIST <=? List.length bl)%nat = false)
      by (apply Nat.leb_gt; cbn in Hcount; lia).
    rewrite Hb, (proj1 (strcspn_plain l "" Hpl)), take_prefix,
            strlen_pos_nonempty.
    rewrite length_append in Hfuel. cbn [String.length] in Hfuel.
    destruct (nonempty l).
    + rewrite IH; auto.
      * now rewrite <- app_assoc.
      * rewrite length_app. cbn [List.length] in *. lia.
      * lia.
    + apply IH; auto.
      * cbn [List.length] in Hcount. lia.
      * lia.
Qed.

(** X1.  A blocklist file of lines that fit the line buffer, the last one
    with or without its newline, is loaded as its lines in their order,
    the empty ones left out, after what the array already holds. *)
Theorem blocklist_file_round_trip :
  forall (MAXLINE : nat) (lines : list string) (last : string)
         (blocklist : list string),
    Forall (fun l => plain l = true /\ (strlen l + 2 <= MAXLINE)%nat) lines ->
    plain last = true ->
    (strlen last + 1 <= MAXLINE)%nat ->
    (List.length blocklist + List.length lines < MAX_BLOCKLIST)%nat ->
    read_blocklist MAXLINE (Some (unlines lines ++ last)) blocklist
    = Some (Loaded (blocklist ++ filter nonempty (lines ++ [last]))%list).
Proof.
  intros M lines last bl Hl Hp Hlen Hcount. unfold read_blocklist.
  apply read_loop_lines; auto.
Qed.

Lemma blocklist_file_round_trip_witness :
  read_blocklist CSAPP_MAXLINE
    (Some (unlines ["example.com"; ""; "ads.example.net"] ++ "tracker.example"))
    []
  = Some (Loaded ["example.com"; "ads.example.net"; "tracker.example"]).
Proof.
  apply (blocklist_file_round_trip CSAPP_MAXLINE
           ["example.com"; ""; "ads.example.net"] "tracker.example" []).
  - repeat (apply Forall_cons; [split; [reflexivity |
                                      apply Nat.leb_le; vm_compute; reflexivity] |]).
    apply Forall_nil.
  - reflexivity.
  - apply Nat.leb_le. vm_compute. reflexivity.
  - apply Nat.ltb_lt. vm_compute. reflexivity.
Defined.

Lemma fgets_line_spec : forall (room : nat) (stream buf remaining : string),
  fgets_line room stream = (buf, remaining) ->
  stream = buf ++ remaining
  /\ (String.length buf <= room)%nat
  /\ (stream <> "" -> room <> O -> buf <> "").
Proof.
  induction room as [|room IH]; intros stream buf remaining H.
  - cbn in H. injection H as <- <-. repeat split; auto.
  - destruct stream as [|c stream]; cbn [fgets_line] in H.
    + injection H as <- <-. repeat split; auto; cbn; try lia.
    + destruct (Ascii.eqb c LF).
      * injection H as <- <-. repeat split; cbn; try lia. discriminate.
      * destruct (fgets_line room stream) as [line rest] eqn:E.
        injection H as <- <-. destruct (IH _ _ _ E) as (Hs & Hl & _).
        repeat split; cbn; try lia; [now rewrite Hs | discriminate].
Qed.

Lemma entry_plain : forall buf : string,
  plain (take (strcspn buf (String LF "")) buf) = true.
Proof.
  induction buf as [|c buf IH]; [reflexivity |].
  cbn [strcspn mem_char]. rewrite orb_false_r.
  destruct (orb (Ascii.eqb c NUL) (Ascii.eqb c LF)) eqn:E; [reflexivity |].
  cbn [take plain]. now rewrite E, IH.
Qed.

Lemma take_shorter : forall (n : nat) (s : string),
  (String.length (take n s) <= String.length s)%nat.
Proof.
  induction n as [|n IH]; intros [|c s]; cbn; try lia.
  specialize (IH s). lia.
Qed.

Lemma read_loop_ends : forall (MAXLINE fuel : nat) (stream : string)
    (blocklist : list string),
  (2 <= MAXLINE)%nat ->
  (String.length stream < fuel)%nat ->
  exists result,
    read_loop fuel MAXLINE stream blocklist = Some result
    /\ forall loaded, result = Loaded loaded ->
         (exists added, loaded = (blocklist ++ added)%list
                        /\ Forall (entry_ok MAXLINE) added)
         /\ ((List.length blocklist <= MAX_BLOCKLIST)%nat ->
             (List.length loaded <= MAX_BLOCKLIST)%nat).
Proof.
  intros M fuel. induction fuel as [|fuel IH]; intros stream bl HM Hfuel;
    [lia |].
  cbn [read_loop]. unfold fgets.
  destruct stream as [|c stream].
  - eexists. split; [reflexivity |]. intros loaded [= <-]. split; auto.
    exists []. split; [now rewrite app_nil_r | constructor].
  - destruct (fgets_line (M - 1) (String c stream)) as [buf remaining] eqn:E.
    destruct (fgets_line_spec _ _ _ _ E) as (Hs & Hl & Hne).
    assert (Hbuf : buf <> "") by (apply Hne; [discriminate | lia]).
    assert (Hrem : (String.length remaining < fuel)%nat).
    { apply (f_equal String.length) in Hs. rewrite length_append in Hs.
      destruct buf; [now elim Hbuf |]. cbn [String.length] in *. lia. }
    destruct (MAX_BLOCKLIST <=? List.length bl)%nat eqn:Hb.
    + eexists. split; [reflexivity |]. discriminate.
    + apply Nat.leb_gt in Hb.
      set (entry := take (strcspn buf (String LF "")) buf).
      destruct (0 <? strlen entry)%nat eqn:Hpos.
      * destruct (IH remaining (bl ++ [entry])%list HM Hrem)
          as (result & Hr & Hprop).
        exists result. split; [exact Hr |]. intros loaded Hload.
        destruct (Hprop loaded Hload) as ((added & -> & Hadded) & Hcount).
        split.
        -- exists (entry :: added). split; [now rewrite <- app_assoc |].
           constructor; [| exact Hadded]. repeat split.
           ++ intros Hentry. rewrite Hentry in Hpos. discriminate Hpos.
           ++ apply entry_plain.
           ++ subst entry. pose proof (take_shorter
                (strcspn buf (String LF "")) buf). unfold strlen. lia.
        -- intros _. apply Hcount. rewrite length_app. cbn. lia.
      * destruct (IH remaining bl HM Hrem) as (result & Hr & Hprop).
        exists result. split; [exact Hr | exact Hprop].
Qed.



(** Fuel beyond the length of the stream changes nothing. *)
Lemma read_loop_fuel : forall (MAXLINE f1 f2 : nat) (stream : string)
    (blocklist : list string),
  (2 <= MAXLINE)%nat ->
  (String.length stream < f1)%nat ->
  (String.length stream < f2)%nat ->
  read_loop f1 MAXLINE stream blocklist = read_loop f2 MAXLINE stream blocklist.
Proof.
  intros M f1. induction f1 as [|f1 IH]; intros f2 stream bl HM H1 H2; [lia |].
  destruct f2 as [|f2]; [lia |]. cbn [read_loop]. unfold fgets.
  destruct stream as [|c stream]; [reflexivity |].
  destruct (fgets_line (M - 1) (String c stream)) as [buf remaining] eqn:E.
  destruct (fgets_line_spec _ _ _ _ E) as (Hs & Hl & Hne).
  assert (Hbuf : buf <> "") by (apply Hne; [discriminate | lia]).
  assert (Hrem : (String.length remaining < String.length (String c stream))%nat).
  { rewrite Hs, length_append. destruct buf; [now elim Hbuf |]. cbn. lia. }
  destruct (MAX_BLOCKLIST <=? List.length bl)%nat; [reflexivity |].
  destruct (0 <? strlen (take (strcspn buf (String LF "")) buf))%nat;
    apply IH; auto; lia.
Qed.

(** X3.  A line that does not fit the line buffer is not one row: its first
    [MAXLINE - 1] bytes make a row, and what follows them is read as if it
    were the rest of the file. *)
Theorem long_line_is_split :
  forall (MAXLINE : nat) (line rest : string) (blocklist : list string),
    (2 <= MAXLINE)%nat ->
    plain line = true ->
    strlen line = (MAXLINE - 1)%nat ->
    (List.length blocklist < MAX_BLOCKLIST)%nat ->
    read_blocklist MAXLINE (Some (line ++ rest)) blocklist
    = read_blocklist MAXLINE (Some rest) (blocklist ++ [line])%list.
Proof.
  intros M line rest bl HM Hp Hlen Hcount. unfold read_blocklist, strlen in *.
  assert (Hf : fgets M (line ++ rest) = Some (line, rest)).
  { unfold fgets. rewrite <- Hlen, fgets_line_full by exact Hp.
    destruct line as [|c line]; [cbn in Hlen; lia | reflexivity]. }
  assert (Hb : (MAX_BLOCKLIST <=? List.length bl)%nat = false)
    by (apply Nat.leb_gt; lia).
  assert (Hpos : (0 <? strlen line)%nat = true)
    by (apply Nat.ltb_lt; unfold strlen; lia).
  transitivity (read_loop (String.length (line ++ rest)) M rest
                          (bl ++ [line])%list).
  - cbn [read_loop].
    rewrite Hf, Hb, (proj2 (strcspn_plain line "" Hp)), take_whole, Hpos.
    reflexivity.
  - apply read_loop_fuel; auto. rewrite length_append. lia.
Qed.

Lemma long_line_is_split_witness :
  read_blocklist 8 (Some ("abcdefg" ++ "hij" ++ String LF "")) []
  = read_blocklist 8 (Some ("hij" ++ String LF "")) ["abcdefg"].
Proof.
  apply (long_line_is_split 8 "abcdefg" ("hij" ++ String LF "") []).
  - lia.
  - reflexivity.
  - reflexivity.
  - apply Nat.ltb_lt. reflexivity.
Defined.

Lemma read_loop_overrun : forall (MAXLINE : nat) (lines : list string)
    (fuel : nat) (blocklist : list string),
  Forall (fun l => plain l = true /\ nonempty l = true
                   /\ (strlen l + 2 <= MAXLINE)%nat) lines ->
  (List.length blocklist <= MAX_BLOCKLIST)%nat ->
  (MAX_BLOCKLIST < List.length blocklist + List.length lines)%nat ->
  (String.length (unlines lines) < fuel)%nat ->
  read_loop fuel MAXLINE (unlines lines) blocklist = Some Overrun.
Proof.
  intros M lines. unfold strlen.
  induction lines as [|l lines IH]; intros fuel bl Hl Hle Hgt Hfuel.
  - cbn in Hgt. lia.
  - inversion Hl as [|? ? (Hpl & Hnl & Hll) Hl']; subst.
    cbn [unlines] in *. destruct fuel as [|fuel]; [lia |]. cbn [read_loop].
    assert (Hf : fgets M (l ++ String LF (unlines lines))
                 = Some (l ++ String LF "", unlines lines)).
    { unfold fgets. rewrite fgets_line_terminated by (auto; lia).
      destruct l; reflexivity. }
    rewrite Hf. destruct (MAX_BLOCKLIST <=? List.length bl)%nat eqn:Hb;
      [reflexivity |].
    apply Nat.leb_gt in Hb.
    rewrite (proj1 (strcspn_plain l "" Hpl)), take_prefix,
            strlen_pos_nonempty, Hnl.
    rewrite length_append in Hfuel. cbn [String.length] in Hfuel.
    apply IH; auto.
    + rewrite length_app. cbn. lia.
    + rewrite length_app. cbn [List.length] in *. lia.
    + lia.
Qed.

(** X4.  [read_blocklist] does not compare [blocklist_count] with
    [MAX_BLOCKLIST]: a file of more than [MAX_BLOCKLIST] non-empty lines is
    stored past the last row of the array. *)
Theorem blocklist_file_overruns :
  forall (MAXLINE : nat) (lines : list string),
    Forall (fun l => plain l = true /\ nonempty l = true
                     /\ (strlen l + 2 <= MAXLINE)%nat) lines ->
    (MAX_BLOCKLIST < List.length lines)%nat ->
    read_blocklist MAXLINE (Some (unlines lines)) [] = Some Overrun.
Proof.
  intros M lines Hl Hgt. unfold read_blocklist.
  apply read_loop_overrun; auto; cbn [List.length]; lia.
Qed.

Lemma blocklist_file_overruns_witness :
  read_blocklist CSAPP_MAXLINE (Some (unlines (repeat "example.com" 101))) []
  = Some Overrun.
Proof.
  apply (blocklist_file_overruns CSAPP_MAXLINE (repeat "example.com" 101)).
  - apply Forall_forall. intros l Hin. apply repeat_spec in Hin. subst l.
    split; [reflexivity | split; [reflexivity |]].
    apply Nat.leb_le. vm_compute. reflexivity.
  - apply Nat.ltb_lt. vm_compute. reflexivity.
Defined.

(** ** Decimal numerals: [atoi] after [%d] *)

Ltac eval_digit :=
  match goal with
  | |- context [isdigit ?c] =>
      let b := eval vm_compute in (isdigit c) in change (isdigit c) with b
  end;
  match goal with
  | |- context [code ?c] =>
      let v := eval vm_compute in (code c) in change (code c) with v
  end; cbv iota.

Lemma digits_uint_acc : forall (d : Decimal.uint) (rest : string) (acc : positive),
  isdigit (head_byte rest) = false ->
  digits_value (NilEmpty.string_of_uint d ++ rest) (Zpos acc)
  = Zpos (Pos.of_uint_acc d acc).
Proof.
  induction d; intros rest acc H;
    cbn [NilEmpty.string_of_uint append digits_value Pos.of_uint_acc];
    [now apply digits_value_no_digit | ..];
    eval_digit; rewrite <- (IHd rest) by exact H; f_equal; lia.
Qed.

Lemma digits_uint : forall (d : Decimal.uint) (rest : string),
  isdigit (head_byte rest) = false ->
  digits_value (NilEmpty.string_of_uint d ++ rest) 0 = Z.of_N (Pos.of_uint d).
Proof.
  induction d; intros rest H;
    cbn [NilEmpty.string_of_uint append digits_value Pos.of_uint];
    [now apply digits_value_no_digit | ..];
    eval_digit; cbn [Z.of_N];
    try (rewrite <- (digits_uint_acc d rest) by exact H; f_equal; lia).
  now apply IHd.
Qed.

Lemma digits_to_uint : forall (p : positive) (rest : string),
  isdigit (head_byte rest) = false ->
  digits_value (NilEmpty.string_of_uint (Pos.to_uint p) ++ rest) 0 = Zpos p.
Proof.
  intros p rest H. rewrite digits_uint by exact H.
  now rewrite DecimalPos.Unsigned.of_to.
Qed.

(** The text of a positive number starts with a digit. *)
Lemma uint_head_digit : forall d : Decimal.uint,
  d <> Decimal.Nil ->
  exists c s, NilEmpty.string_of_uint d = String c s /\ isdigit c = true.
Proof.
  intros d Hd. destruct d; [now elim Hd | ..]; cbn [NilEmpty.string_of_uint];
    eexists; eexists; split; reflexivity.
Qed.

Lemma fmt_d_pos : forall p : positive,
  fmt_d (Zpos p) = NilEmpty.string_of_uint (Pos.to_uint p).
Proof.
  intros p. unfold fmt_d. cbn [Z.to_int NilZero.string_of_int].
  unfold NilZero.string_of_uint.
  destruct (Pos.to_uint p) eqn:E; try reflexivity.
  now elim (DecimalPos.Unsigned.to_uint_nonnil p).
Qed.

Lemma digit_not_space : forall c, isdigit c = true -> isspace c = false.
Proof.
  intros c. unfold isdigit, isspace.
  destruct (48 <=? nat_of_ascii c)%nat eqn:E1; [| discriminate].
  destruct (nat_of_ascii c <=? 57)%nat eqn:E2; [| discriminate].
  intros _. apply Nat.leb_le in E1, E2.
  destruct (nat_of_ascii c =? 32)%nat eqn:E3; [apply Nat.eqb_eq in E3; lia |].
  destruct (nat_of_ascii c <=? 13)%nat eqn:E4; [apply Nat.leb_le in E4; lia |].
  now rewrite andb_false_r.
Qed.

Lemma atoi_digits : forall (c : ascii) (s : string),
  isdigit c = true ->
  atoi (String c s) = to_int (clamp_long (digits_value (String c s) 0)).
Proof.
  intros c s H. unfold atoi. cbn [skip_space].
  rewrite (digit_not_space c H).
  ascii_cases c; try reflexivity; vm_compute in H; discriminate H.
Qed.

Lemma clamp_long_int : forall z : Z,
  (-2147483648 <= z <= INT_MAX)%Z -> clamp_long z = z.
Proof. intros z H. unfold clamp_long, INT_MAX in *. lia. Qed.

(** [atoi] reads back what [%d] printed, whatever follows the digits. *)
Lemma atoi_fmt_d : forall (z : Z) (rest : string),
  (-2147483648 <= z <= INT_MAX)%Z ->
  isdigit (head_byte rest) = false ->
  atoi (fmt_d z ++ rest) = z.
Proof.
  intros z rest Hz Hrest. destruct z as [|p|p].
  - change (fmt_d 0) with "0". cbn [append]. rewrite atoi_digits by reflexivity.
    cbn [digits_value]. change (isdigit "0") with true. cbv iota.
    rewrite digits_value_no_digit by exact Hrest. reflexivity.
  - rewrite fmt_d_pos.
    destruct (uint_head_digit (Pos.to_uint p)
                (DecimalPos.Unsigned.to_uint_nonnil p)) as (c & s & E & Hc).
    pose proof (digits_to_uint p rest Hrest) as Hv. rewrite E in *.
    cbn [append] in *. rewrite atoi_digits by exact Hc. rewrite Hv.
    rewrite clamp_long_int by exact Hz. now apply to_int_small.
  - assert (E : fmt_d (Zneg p) = String "-" (fmt_d (Zpos p))).
    { unfold fmt_d. cbn [Z.to_int NilZero.string_of_int]. reflexivity. }
    rewrite E, fmt_d_pos. cbn [append]. unfold atoi.
    change (to_int (clamp_long
              (- digits_value (NilEmpty.string_of_uint (Pos.to_uint p) ++ rest) 0))
            = Z.neg p).
    rewrite digits_to_uint by exact Hrest.
    rewrite clamp_long_int, to_int_small; unfold INT_MAX in *; lia.
Qed.

(** The digits of a numeral weigh less than the next power of ten. *)
Lemma digits_value_upper : forall (s : string) (acc : Z),
  (0 <= acc)%Z ->
  (digits_value s acc < (acc + 1) * 10 ^ Z.of_nat (String.length s))%Z.
Proof.
  induction s as [|c s IH]; intros acc Hacc.
  - cbn. lia.
  - cbn [digits_value String.length]. rewrite Nat2Z.inj_succ, Z.pow_succ_r by lia.
    assert (Hp : (0 < 10 ^ Z.of_nat (String.length s))%Z)
      by (apply Z.pow_pos_nonneg; lia).
    destruct (isdigit c) eqn:E; [| nia].
    assert (Hc : (0 <= code c - 48 <= 9)%Z).
    { unfold isdigit in E. apply andb_true_iff in E. destruct E as [E1 E2].
      apply Nat.leb_le in E1, E2. unfold code, nat_of_ascii in *. lia. }
    specialize (IH (10 * acc + (code c - 48))%Z ltac:(lia)). nia.
Qed.

Lemma length_string_of_uint : forall d : Decimal.uint,
  String.length (NilEmpty.string_of_uint d) = Decimal.nb_digits d.
Proof. induction d; cbn; congruence. Qed.

Lemma of_uint_acc_lower : forall (d : Decimal.uint) (acc : positive),
  (Zpos acc * 10 ^ Z.of_nat (Decimal.nb_digits d)
   <= Zpos (Pos.of_uint_acc d acc))%Z.
Proof.
  induction d; intros acc; cbn [Decimal.nb_digits Pos.of_uint_acc];
    [cbn; lia | ..];
    rewrite Nat2Z.inj_succ, Z.pow_succ_r by lia;
    match goal with
    | |- (_ <= Zpos (Pos.of_uint_acc _ ?a))%Z => specialize (IHd a)
    end;
    assert (Hp : (0 < 10 ^ Z.of_nat (Decimal.nb_digits d))%Z)
      by (apply Z.pow_pos_nonneg; lia); nia.
Qed.

(** The numeral of a positive number has no leading zero. *)
Lemma to_uint_no_leading_zero : forall (p : positive) (d : Decimal.uint),
  Pos.to_uint p <> Decimal.D0 d.
Proof.
  intros p d E.
  pose proof (DecimalPos.Unsigned.to_of (Pos.to_uint p)) as H.
  rewrite DecimalPos.Unsigned.of_to in H. cbn [N.to_uint] in H.
  rewrite E in H. unfold Decimal.unorm in H. cbn [Decimal.nzhead] in H.
  pose proof (DecimalFacts.nb_digits_nzhead d) as Hn.
  destruct (Decimal.nzhead d) eqn:En.
  - injection H as H. subst d.
    apply (DecimalPos.Unsigned.to_uint_nonzero p). exact E.
  - rewrite <- H in Hn. cbn in Hn. lia.
  - rewrite <- H in Hn. cbn in Hn. lia.
  - rewrite <- H in Hn. cbn in Hn. lia.
  - rewrite <- H in Hn. cbn in Hn. lia.
  - rewrite <- H in Hn. cbn in Hn. lia.
  - rewrite <- H in Hn. cbn in Hn. lia.
  - rewrite <- H in Hn. cbn in Hn. lia.
  - rewrite <- H in Hn. cbn in Hn. lia.
  - rewrite <- H in Hn. cbn in Hn. lia.
  - rewrite <- H in Hn. cbn in Hn. lia.
Qed.

(** A positive number lies between the powers of ten that the length of its
    numeral gives. *)
Lemma fmt_d_pos_bounds : forall p : positive,
  (10 ^ (Z.of_nat (strlen (fmt_d (Zpos p))) - 1) <= Zpos p
   < 10 ^ Z.of_nat (strlen (fmt_d (Zpos p))))%Z.
Proof.
  intros p. split.
  - rewrite fmt_d_pos. unfold strlen. rewrite length_string_of_uint.
    pose proof (DecimalPos.Unsigned.of_to p) as H.
    pose proof (to_uint_no_leading_zero p) as Hz.
    pose proof (DecimalPos.Unsigned.to_uint_nonnil p) as Hn.
    destruct (Pos.to_uint p) as [|d|d|d|d|d|d|d|d|d|d];
      [now elim Hn | now elim (Hz d) | ..];
      cbn [Pos.of_uint] in H; injection H as H;
      cbn [Decimal.nb_digits]; rewrite Nat2Z.inj_succ;
      replace (Z.succ (Z.of_nat (Decimal.nb_digits d)) - 1)%Z
        with (Z.of_nat (Decimal.nb_digits d)) by lia;
      match type of H with
      | Pos.of_uint_acc _ ?a = _ => pose proof (of_uint_acc_lower d a) as Hl
      end; rewrite H in Hl;
      assert (Hp : (0 < 10 ^ Z.of_nat (Decimal.nb_digits d))%Z)
        by (apply Z.pow_pos_nonneg; lia); nia.
  - pose proof (digits_value_upper (fmt_d (Zpos p)) 0 ltac:(lia)) as H.
    pose proof (digits_to_uint p "" eq_refl) as Hv.
    rewrite append_nil_r, <- fmt_d_pos in Hv. rewrite Hv in H.
    unfold strlen. lia.
Qed.


(** ** The request line: [sscanf] *)

Lemma wordlike_c_str : forall a b : string,
  wordlike a = true -> c_str (a ++ b) = a ++ c_str b.
Proof.
  induction a as [|c a IH]; intros b H; [reflexivity |].
  cbn [wordlike] in H. apply andb_true_iff in H. destruct H as [Hc Ha].
  apply negb_true_iff, orb_false_iff in Hc. destruct Hc as [Hc _].
  cbn [append c_str]. rewrite Hc. now rewrite IH.
Qed.

Lemma spaces_c_str : forall a b : string,
  spaces a = true -> c_str (a ++ b) = a ++ c_str b.
Proof.
  induction a as [|c a IH]; intros b H; [reflexivity |].
  cbn [spaces] in H. apply andb_true_iff in H. destruct H as [Hc Ha].
  cbn [append c_str].
  destruct (Ascii.eqb c NUL) eqn:E;
    [apply Ascii.eqb_eq in E; subst c; discriminate Hc |].
  now rewrite IH.
Qed.

Lemma skip_space_spaces : forall a b : string,
  spaces a = true -> skip_space (a ++ b) = skip_space b.
Proof.
  induction a as [|c a IH]; intros b H; [reflexivity |].
  cbn [spaces] in H. apply andb_true_iff in H. destruct H as [Hc Ha].
  cbn [append skip_space]. rewrite Hc. now apply IH.
Qed.

Lemma scan_word_wordlike : forall a b : string,
  wordlike a = true -> isspace (head_byte b) = true \/ b = "" ->
  scan_word (a ++ b) = (a, b).
Proof.
  induction a as [|c a IH]; intros b H Hb.
  - cbn [append]. destruct Hb as [Hb | ->]; [| reflexivity].
    destruct b as [|d b]; [reflexivity |]. cbn [head_byte] in Hb.
    cbn [scan_word]. now rewrite Hb.
  - cbn [wordlike] in H. apply andb_true_iff in H. destruct H as [Hc Ha].
    apply negb_true_iff, orb_false_iff in Hc. destruct Hc as [_ Hc].
    cbn [append scan_word]. rewrite Hc, (IH b Ha Hb). reflexivity.
Qed.

Lemma word_parts : forall s : string,
  word s = true ->
  exists c r, s = String c r /\ isspace c = false /\ wordlike s = true.
Proof.
  intros [|c r] H; [discriminate H |].
  unfold word in H. cbn [String.eqb negb andb] in H.
  exists c, r. split; [reflexivity |]. split; [| exact H].
  cbn [wordlike] in H. apply andb_true_iff in H. destruct H as [Hc _].
  apply negb_true_iff, orb_false_iff in Hc. now destruct Hc.
Qed.

Lemma blank_parts : forall s : string,
  blank s = true ->
  exists c r, s = String c r /\ isspace c = true /\ spaces s = true.
Proof.
  intros [|c r] H; [discriminate H |].
  unfold blank, nonempty in H. cbn [String.eqb negb andb] in H.
  exists c, r. split; [reflexivity |]. split; [| exact H].
  cbn [spaces] in H. apply andb_true_iff in H. now destruct H.
Qed.

(** One [%s] conversion on a word that white space, or the end of the
    input, follows. *)
Lemma scan_s_word : forall a b : string,
  word a = true -> isspace (head_byte b) = true \/ b = "" ->
  scan_s (a ++ b) = Some (a, b).
Proof.
  intros a b Ha Hb. destruct (word_parts a Ha) as (c & r & -> & Hc & Hw).
  unfold scan_s. cbn [append skip_space]. rewrite Hc.
  change (String c (r ++ b)) with (String c r ++ b).
  now rewrite scan_word_wordlike.
Qed.

Lemma scan_s_blank_word : forall s a b : string,
  blank s = true -> word a = true ->
  isspace (head_byte b) = true \/ b = "" ->
  scan_s (s ++ a ++ b) = Some (a, b).
Proof.
  intros s a b Hs Ha Hb. destruct (blank_parts s Hs) as (c & r & _ & _ & Hsp).
  pose proof (scan_s_word a b Ha Hb) as H. unfold scan_s in *.
  now rewrite skip_space_spaces.
Qed.

Lemma scan_s_blank : forall s : string, spaces s = true -> scan_s s = None.
Proof.
  intros s H. unfold scan_s.
  replace (skip_space s) with "";  [reflexivity |].
  induction s as [|c s IH]; [reflexivity |].
  cbn [spaces] in H. apply andb_true_iff in H. destruct H as [Hc Hs].
  cbn [skip_space]. rewrite Hc. now apply IH.
Qed.

Lemma blank_head : forall a b : string,
  blank a = true -> isspace (head_byte (a ++ b)) = true \/ a ++ b = "".
Proof.
  intros a b H. destruct (blank_parts a H) as (c & r & -> & Hc & _).
  left. exact Hc.
Qed.

Lemma blank_alone : forall a : string,
  blank a = true -> isspace (head_byte a) = true \/ a = "".
Proof.
  intros a H. destruct (blank_parts a H) as (c & r & -> & Hc & _).
  left. exact Hc.
Qed.

Lemma line_c_str : forall words_and_gaps : list string,
  Forall (fun s => wordlike s = true \/ spaces s = true) words_and_gaps ->
  c_str (List.fold_right append "" words_and_gaps)
  = List.fold_right append "" words_and_gaps.
Proof.
  induction 1 as [|s l Hs Hl IH]; [reflexivity |].
  cbn [fold_right]. destruct Hs as [Hs | Hs].
  - rewrite wordlike_c_str by exact Hs. now rewrite IH.
  - rewrite spaces_c_str by exact Hs. now rewrite IH.
Qed.

(** A line of three words, wherever it is read. *)
Lemma sscanf3_words : forall (w : world) (m u v g1 g2 g3 : string),
  request_line w = m ++ g1 ++ u ++ g2 ++ v ++ g3 ->
  word m = true -> word u = true -> word v = true ->
  blank g1 = true -> blank g2 = true -> blank g3 = true ->
  strlen (request_line w) <> O /\ sscanf3 w = (m, u, v).
Proof.
  intros w m u v g1 g2 g3 Hw Hm Hu Hv H1 H2 H3.
  destruct (word_parts m Hm) as (? & ? & Em & _ & Wm).
  destruct (word_parts u Hu) as (? & ? & _ & _ & Wu).
  destruct (word_parts v Hv) as (? & ? & _ & _ & Wv).
  destruct (blank_parts g1 H1) as (? & ? & _ & _ & S1).
  destruct (blank_parts g2 H2) as (? & ? & _ & _ & S2).
  destruct (blank_parts g3 H3) as (? & ? & _ & _ & S3).
  split; [rewrite Hw, Em; discriminate |].
  unfold sscanf3. rewrite Hw.
  pose proof (line_c_str [m; g1; u; g2; v; g3]) as Hc.
  cbn [fold_right] in Hc. rewrite append_nil_r in Hc.
  rewrite Hc by (repeat constructor; auto).
  rewrite (scan_s_word m) by (auto using blank_head).
  rewrite (scan_s_blank_word g1 u) by (auto using blank_head).
  rewrite (scan_s_blank_word g2 v) by (auto using blank_alone).
  reflexivity.
Qed.

(** X5.  A request line of three words, with white space between them and
    after the last, is taken apart into exactly these words: [method], [uri]
    and [version] hold the first, the second and the third. *)
Theorem request_line_round_trip :
  forall (w : world) (method uri version gap1 gap2 gap3 : string),
    word method = true -> word uri = true -> word version = true ->
    blank gap1 = true -> blank gap2 = true -> blank gap3 = true ->
    sscanf3 (with_request w
               (method ++ gap1 ++ uri ++ gap2 ++ version ++ gap3))
    = (method, uri, version).
Proof.
  intros w m u v g1 g2 g3 Hm Hu Hv H1 H2 H3.
  now apply (sscanf3_words (with_request w (m ++ g1 ++ u ++ g2 ++ v ++ g3))
               m u v g1 g2 g3 eq_refl).
Qed.

Lemma request_line_round_trip_witness :
  sscanf3 (with_request get_world
             ("GET" ++ " " ++ "http://example.com/index.html" ++ " "
              ++ "HTTP/1.1" ++ CRLF))
  = ("GET", "http://example.com/index.html", "HTTP/1.1").
Proof.
  apply (request_line_round_trip get_world "GET"
           "http://example.com/index.html" "HTTP/1.1" " " " " CRLF);
    reflexivity.
Defined.

(** What a transaction resolves once the method gate is passed: the array
    [uri], whatever [sscanf] left in it. *)
Lemma seq_resolutions : forall MAXLINE MAXBUF blocklist w method uri version,
  strlen (request_line w) <> O ->
  sscanf3 w = (method, uri, version) ->
  method_refused method = false ->
  resolutions (Sequential.proxy MAXLINE MAXBUF blocklist w) = [uri].
Proof.
  intros M B bl w m u v Hl Hs Hm. unfold Sequential.proxy.
  rewrite (strlen_eqb_false _ Hl), Hs, Hm. cbn [resolutions]. f_equal.
  destruct (Sequential.parse_uri u) as [[[h pn] port]|]; [| reflexivity].
  destruct (Sequential.blocked bl h); [reflexivity |].
  cbn [resolutions].
  destruct (negb (connect_ok w h (snprintf 6 (fmt_d port)))); [reflexivity |].
  unfold Sequential.forward. destruct (relay (response w) 0) as [evs total] eqn:E.
  cbn [resolutions]. rewrite resolutions_app.
  pose proof (relay_quiet (response w) 0%Z) as Hq. rewrite E in Hq.
  cbn [fst] in Hq. now rewrite (proj2 Hq).
Qed.

Lemma conc_resolutions : forall MAXLINE MAXBUF blocklist log_file w method uri version,
  strlen (request_line w) <> O ->
  sscanf3 w = (method, uri, version) ->
  method_refused method = false ->
  Concurrent.blocked blocklist uri = false ->
  resolutions (Concurrent.proxy MAXLINE MAXBUF blocklist log_file w) = [uri].
Proof.
  intros M B bl lf w m u v Hl Hs Hm Hb. unfold Concurrent.proxy.
  rewrite (strlen_eqb_false _ Hl), Hs, Hm, Hb. cbn [resolutions]. f_equal.
  destruct (Concurrent.parse_uri u) as [[[h pn] port]|]; [| reflexivity].
  cbn [resolutions].
  destruct (negb (connect_ok w h (snprintf 6 (fmt_d port)))); [reflexivity |].
  apply conc_forward_resolutions.
Qed.

(** X6.  The count [sscanf] returns is not looked at.  When the request
    line holds a method that passes the gate and nothing else, the URI that
    gets resolved is what the array [uri] held before the call. *)
Theorem request_without_uri :
  forall (MAXLINE MAXBUF : nat) (blocklist : list string) (log_file : bool)
         (w : world) (method gap : string),
    word method = true -> spaces gap = true ->
    method_refused method = false ->
    resolutions
      (Sequential.proxy MAXLINE MAXBUF blocklist (with_request w (method ++ gap)))
    = [stack_uri w]
    /\ (Concurrent.blocked blocklist (stack_uri w) = false ->
        resolutions
          (Concurrent.proxy MAXLINE MAXBUF blocklist log_file
             (with_request w (method ++ gap)))
        = [stack_uri w]).
Proof.
  intros M B bl lf w m g Hm Hg Hr.
  destruct (word_parts m Hm) as (c & r & E & _ & Wm).
  assert (Hl : strlen (request_line (with_request w (m ++ g))) <> O).
  { cbn [with_request request_line]. subst m. discriminate. }
  assert (Hs : sscanf3 (with_request w (m ++ g))
               = (m, stack_uri w, stack_version w)).
  { unfold sscanf3. cbn [with_request request_line stack_method stack_uri
                         stack_version].
    pose proof (line_c_str [m; g]) as Hc. cbn [fold_right] in Hc.
    rewrite append_nil_r in Hc. rewrite Hc by (repeat constructor; auto).
    assert (Hg' : isspace (head_byte g) = true \/ g = "").
    { destruct g as [|d g']; [now right | left].
      cbn [spaces] in Hg. apply andb_true_iff in Hg. now destruct Hg. }
    rewrite (scan_s_word m g Hm Hg'), (scan_s_blank g Hg). reflexivity. }
  split.
  - eapply seq_resolutions; eauto.
  - intros Hb. eapply conc_resolutions; eauto.
Qed.

Lemma request_without_uri_witness :
  resolutions
    (Sequential.proxy CSAPP_MAXLINE CSAPP_MAXBUF [] (with_request stale_world ("GET" ++ CRLF)))
  = ["http://intranet.example/private"]
  /\ resolutions
       (Concurrent.proxy CSAPP_MAXLINE CSAPP_MAXBUF [] true
          (with_request stale_world ("GET" ++ CRLF)))
     = ["http://intranet.example/private"].
Proof.
  destruct (request_without_uri CSAPP_MAXLINE CSAPP_MAXBUF [] true stale_world "GET" CRLF)
    as [Hseq Hconc]; try reflexivity.
  split; [exact Hseq | apply Hconc; reflexivity].
Defined.

(** ** Resolution of the URI: [parse_uri] *)

Lemma drop_prefix : forall a b : string, drop (String.length a) (a ++ b) = b.
Proof. induction a as [|c a IH]; intros b; [reflexivity | exact (IH b)]. Qed.

Lemma length_lower : forall s : string, String.length (lower s) = String.length s.
Proof. induction s as [|c s IH]; cbn; congruence. Qed.

Lemma lower_eq_ci : forall a b : string, lower a = lower b -> ci_equal a b.
Proof.
  unfold ci_equal. induction a as [|x a IH]; intros [|y b] H; try discriminate H.
  - reflexivity.
  - cbn [lower] in H. injection H as Hc Hr. cbn [c_str].
    destruct (Ascii.eqb x NUL) eqn:Ex.
    + apply Ascii.eqb_eq in Ex. subst x. change (tolower NUL) with NUL in Hc.
      symmetry in Hc. apply (proj1 (tolower_nul _)) in Hc. subst y. reflexivity.
    + destruct (Ascii.eqb y NUL) eqn:Ey.
      * apply Ascii.eqb_eq in Ey. subst y. change (tolower NUL) with NUL in Hc.
        apply (proj1 (tolower_nul _)) in Hc. subst x. discriminate Ex.
      * cbn [lower]. now rewrite Hc, (IH b Hr).
Qed.

(** The scheme test takes [http://] in any case of its letters. *)
Lemma scheme_accepted : forall scheme rest : string,
  lower scheme = "http://" ->
  strncasecmp (scheme ++ rest) "http://" 7 = 0%Z
  /\ drop 7 (scheme ++ rest) = rest.
Proof.
  intros scheme rest H.
  assert (Hlen : String.length scheme = 7%nat).
  { rewrite <- length_lower, H. reflexivity. }
  split.
  - apply http_test_iff. rewrite <- Hlen, take_prefix.
    apply lower_eq_ci. exact H.
  - rewrite <- Hlen. apply drop_prefix.
Qed.

Lemma spec_hostname_found : forall (h : string) (d : ascii) (rest : string),
  any_delim h = false -> is_delim d = true ->
  spec_hostname (h ++ String d rest) = Some h.
Proof.
  induction h as [|c h IH]; intros d rest Hh Hd; cbn [append spec_hostname].
  - now rewrite Hd.
  - cbn [any_delim] in Hh. apply orb_false_iff in Hh. destruct Hh as [Hc Hh].
    rewrite Hc, (IH d rest Hh Hd). reflexivity.
Qed.

Lemma strchr_found : forall (a : string) (c : ascii) (rest : string),
  mem_char c a = false ->
  strchr (a ++ String c rest) c = Some (String.length a).
Proof.
  induction a as [|x a IH]; intros c rest H; cbn [append strchr].
  - now rewrite Ascii.eqb_refl.
  - cbn [mem_char] in H. apply orb_false_iff in H. destruct H as [Hx Ha].
    rewrite Ascii.eqb_sym in Hx. rewrite Hx, (IH c rest Ha). reflexivity.
Qed.

Lemma strchr_absent : forall (a : string) (c : ascii),
  mem_char c a = false -> strchr a c = None.
Proof.
  induction a as [|x a IH]; intros c H; [reflexivity |].
  cbn [mem_char] in H. apply orb_false_iff in H. destruct H as [Hx Ha].
  cbn [strchr]. rewrite Ascii.eqb_sym in Hx. now rewrite Hx, (IH c Ha).
Qed.

Lemma mem_char_app : forall (c : ascii) (a b : string),
  mem_char c (a ++ b) = orb (mem_char c a) (mem_char c b).
Proof.
  induction a as [|x a IH]; intros b; [reflexivity |].
  cbn [append mem_char]. now rewrite IH, orb_assoc.
Qed.

Lemma no_delim_no_slash : forall h : string,
  any_delim h = false -> mem_char "/" h = false /\ mem_char ":" h = false.
Proof.
  induction h as [|c h IH]; intros H; [split; reflexivity |].
  cbn [any_delim] in H. apply orb_false_iff in H. destruct H as [Hc Hh].
  destruct (IH Hh) as [H1 H2]. cbn [mem_char]. rewrite H1, H2.
  unfold is_delim in Hc. repeat (apply orb_false_iff in Hc; destruct Hc as [? Hc]).
  rewrite (Ascii.eqb_sym "/" c), (Ascii.eqb_sym ":" c).
  split; apply orb_false_iff; auto.
Qed.

Lemma numeral_uint : forall d : Decimal.uint,
  numeral (NilEmpty.string_of_uint d) = true.
Proof. induction d; cbn [NilEmpty.string_of_uint numeral]; auto. Qed.

Lemma fmt_d_shape : forall z : Z,
  exists sign digits, fmt_d z = sign ++ digits /\ numeral digits = true
                      /\ (sign = "" \/ sign = "-").
Proof.
  intros [|p|p].
  - exists "", "0". repeat split; auto.
  - exists "", (NilEmpty.string_of_uint (Pos.to_uint p)).
    rewrite fmt_d_pos. repeat split; auto using numeral_uint.
  - exists "-", (NilEmpty.string_of_uint (Pos.to_uint p)).
    rewrite <- fmt_d_pos. repeat split; auto.
    rewrite fmt_d_pos. apply numeral_uint.
Qed.

Lemma numeral_free : forall (c : ascii) (s : string),
  isdigit c = false -> numeral s = true -> mem_char c s = false.
Proof.
  induction s as [|x s IH]; intros Hc H; [reflexivity |].
  cbn [numeral] in H. apply andb_true_iff in H. destruct H as [Hx Hs].
  cbn [mem_char]. rewrite (IH Hc Hs), orb_false_r.
  apply Ascii.eqb_neq. intros ->. congruence.
Qed.

Lemma fmt_d_free : forall (c : ascii) (z : Z),
  isdigit c = false -> c <> "-"%char -> mem_char c (fmt_d z) = false.
Proof.
  intros c z Hc Hm. destruct (fmt_d_shape z) as (sign & digits & -> & Hd & Hs).
  rewrite mem_char_app, (numeral_free c digits Hc Hd), orb_false_r.
  destruct Hs as [-> | ->]; [reflexivity |].
  cbn [mem_char]. rewrite orb_false_r. now apply Ascii.eqb_neq.
Qed.

(** Host, port and path of [host:port/path], of [host/path] and of
    [host:port]. *)
Lemma parse_from_round_trip : forall (h p : string) (n : Z),
  any_delim h = false ->
  (-2147483648 <= n <= INT_MAX)%Z ->
  parse_from (h ++ ":" ++ fmt_d n ++ "/" ++ p) = Some (h, "/" ++ p, n)
  /\ parse_from (h ++ "/" ++ p) = Some (h, "/" ++ p, 80%Z)
  /\ parse_from (h ++ ":" ++ fmt_d n) = Some (h, "/", n).
Proof.
  intros h p n Hh Hn. destruct (no_delim_no_slash h Hh) as [Hs Hc].
  assert (Hf : mem_char "/" (fmt_d n) = false)
    by (apply fmt_d_free; [reflexivity | discriminate]).
  cbn [append]. repeat split.
  - rewrite (parse_from_parts _ h) by (now apply spec_hostname_found).
    unfold strlen. rewrite drop_prefix.
    change (h ++ String ":" (fmt_d n ++ String "/" p))
      with (h ++ String ":" "" ++ (fmt_d n ++ String "/" p)).
    rewrite <- !append_assoc.
    rewrite strchr_found
      by (rewrite !mem_char_app, Hs, Hf; reflexivity).
    rewrite drop_prefix.
    rewrite (atoi_fmt_d n (String "/" p) Hn eq_refl). reflexivity.
  - rewrite (parse_from_parts _ h) by (now apply spec_hostname_found).
    unfold strlen. rewrite drop_prefix, strchr_found by exact Hs.
    rewrite drop_prefix. reflexivity.
  - rewrite (parse_from_parts _ h) by (now apply spec_hostname_found).
    unfold strlen. rewrite drop_prefix.
    rewrite strchr_absent.
    + pose proof (atoi_fmt_d n "" Hn eq_refl) as Ha.
      rewrite append_nil_r in Ha. now rewrite Ha.
    + change (h ++ String ":" (fmt_d n)) with (h ++ String ":" "" ++ fmt_d n).
      rewrite !mem_char_app, Hs, Hf. reflexivity.
Qed.

(** X7.  A URI written as scheme, host, port and path is taken apart into
    these: [http://host:port/path] gives the host, the path with its slash
    and the port back, in both variants and whatever the case of the
    scheme's letters; without the port the port is 80, and without the path
    the path is "/" . *)
Theorem parse_uri_round_trip :
  forall (scheme h p : string) (n : Z),
    lower scheme = "http://" ->
    any_delim h = false ->
    (-2147483648 <= n <= INT_MAX)%Z ->
    (Sequential.parse_uri (scheme ++ h ++ ":" ++ fmt_d n ++ "/" ++ p)
     = Some (h, "/" ++ p, n)
     /\ Sequential.parse_uri (scheme ++ h ++ "/" ++ p) = Some (h, "/" ++ p, 80%Z)
     /\ Sequential.parse_uri (scheme ++ h ++ ":" ++ fmt_d n) = Some (h, "/", n))
    /\
    (Concurrent.parse_uri (scheme ++ h ++ ":" ++ fmt_d n ++ "/" ++ p)
     = Some (h, "/" ++ p, n)
     /\ Concurrent.parse_uri (scheme ++ h ++ "/" ++ p) = Some (h, "/" ++ p, 80%Z)
     /\ Concurrent.parse_uri (scheme ++ h ++ ":" ++ fmt_d n) = Some (h, "/", n)).
Proof.
  intros scheme h p n Hs Hh Hn.
  destruct (parse_from_round_trip h p n Hh Hn) as (H1 & H2 & H3).
  unfold Sequential.parse_uri, Concurrent.parse_uri.
  repeat split;
    match goal with
    | |- context [strncasecmp (scheme ++ ?r) "http://" 7] =>
        destruct (scheme_accepted scheme r Hs) as [Ht Hd];
        rewrite Ht, Hd; cbn [Z.eqb negb]; assumption
    end.
Qed.

Lemma parse_uri_round_trip_witness :
  (Sequential.parse_uri ("HTTP://" ++ "example.com" ++ ":" ++ fmt_d 8080 ++ "/" ++ "a/b")
   = Some ("example.com", "/" ++ "a/b", 8080%Z)
   /\ Sequential.parse_uri ("HTTP://" ++ "example.com" ++ "/" ++ "a/b")
      = Some ("example.com", "/" ++ "a/b", 80%Z)
   /\ Sequential.parse_uri ("HTTP://" ++ "example.com" ++ ":" ++ fmt_d 8080)
      = Some ("example.com", "/", 8080%Z))
  /\
  (Concurrent.parse_uri ("HTTP://" ++ "example.com" ++ ":" ++ fmt_d 8080 ++ "/" ++ "a/b")
   = Some ("example.com", "/" ++ "a/b", 8080%Z)
   /\ Concurrent.parse_uri ("HTTP://" ++ "example.com" ++ "/" ++ "a/b")
      = Some ("example.com", "/" ++ "a/b", 80%Z)
   /\ Concurrent.parse_uri ("HTTP://" ++ "example.com" ++ ":" ++ fmt_d 8080)
      = Some ("example.com", "/", 8080%Z)).
Proof.
  apply (parse_uri_round_trip "HTTP://" "example.com" "a/b" 8080).
  - reflexivity.
  - reflexivity.
  - unfold INT_MAX. lia.
Defined.

Lemma spec_hostname_inv : forall s h : string,
  spec_hostname s = Some h ->
  any_delim h = false
  /\ exists d rest, is_delim d = true /\ s = h ++ String d rest.
Proof.
  induction s as [|c s IH]; intros h H; [discriminate H |].
  cbn [spec_hostname] in H. destruct (is_delim c) eqn:E.
  - injection H as <-. split; [reflexivity |]. now exists c, s.
  - destruct (spec_hostname s) as [h'|]; [| discriminate H].
    injection H as <-. destruct (IH h' eq_refl) as (Hh & d & rest & Hd & ->).
    split; [cbn [any_delim]; now rewrite E, Hh |]. now exists d, rest.
Qed.

Lemma length_drop : forall (n : nat) (s : string),
  String.length (drop n s) = (String.length s - n)%nat.
Proof.
  induction n as [|n IH]; intros s; [cbn; lia |].
  destruct s as [|c s]; [reflexivity | exact (IH s)].
Qed.

Lemma atoi_int : forall s : string, (-2147483648 <= atoi s <= INT_MAX)%Z.
Proof.
  assert (H : forall z, (-2147483648 <= to_int z <= INT_MAX)%Z).
  { intros z. unfold to_int, INT_MAX.
    pose proof (Z.mod_pos_bound (z + 2147483648) 4294967296 ltac:(lia)). lia. }
  intros s. unfold atoi. destruct (skip_space s) as [|c r]; [apply H |].
  ascii_cases c; apply H.
Qed.

Lemma parse_from_shape : forall s h pn port,
  parse_from s = Some (h, pn, port) ->
  any_delim h = false
  /\ (exists d rest,
         is_delim d = true /\ s = h ++ String d rest
         /\ (d = ":"%char -> port = atoi rest)
         /\ (d <> ":"%char -> port = 80%Z))
  /\ head_byte pn = "/"%char
  /\ (pn = "/" \/ exists i, pn = drop i s).
Proof.
  intros s h pn port H.
  pose proof (parse_from_hostname s) as Hh. rewrite H in Hh. cbn in Hh.
  symmetry in Hh. rewrite (parse_from_parts s h Hh) in H.
  injection H as Hp Hport.
  destruct (spec_hostname_inv s h Hh) as (Hd & d & rest & Hdel & ->).
  split; [exact Hd |]. split; [| split].
  - exists d, rest. split; [exact Hdel |]. split; [reflexivity |].
    unfold strlen in Hport. rewrite drop_prefix in Hport. split.
    + intros ->. now symmetry.
    + intros Hne. subst port. ascii_cases d; try reflexivity. now elim Hne.
  - subst pn. destruct (strchr (h ++ String d rest) "/") as [i|] eqn:E;
      [| reflexivity].
    destruct (strchr_drop _ _ _ E) as [r ->]. reflexivity.
  - subst pn. destruct (strchr (h ++ String d rest) "/") as [i|];
      [right; now exists i | now left].
Qed.

(** X8.  What a successful resolution returns, in either variant.  The host
    name holds none of the bytes that end one, and it stands in the URI at
    offset 7, followed by such a byte; the port is 80 unless that byte is a
    colon, and then it is what [atoi] reads after the colon; the path begins
    with a slash.  Host name and path are shorter than the URI, so that they
    fit arrays of the size of the one that holds the URI. *)
Theorem resolution_shape :
  forall (uri h pn : string) (port : Z),
    Sequential.parse_uri uri = Some (h, pn, port)
    \/ Concurrent.parse_uri uri = Some (h, pn, port) ->
    any_delim h = false
    /\ (exists d rest,
           is_delim d = true /\ drop 7 uri = h ++ String d rest
           /\ (d = ":"%char -> port = atoi rest)
           /\ (d <> ":"%char -> port = 80%Z))
    /\ head_byte pn = "/"%char
    /\ (strlen h < strlen uri)%nat /\ (strlen pn < strlen uri)%nat
    /\ (-2147483648 <= port <= INT_MAX)%Z.
Proof.
  intros uri h pn port H.
  assert (Hf : parse_from (drop 7 uri) = Some (h, pn, port)).
  { destruct H as [H | H].
    - unfold Sequential.parse_uri in H.
      destruct (if (strncasecmp uri "http://" 7 =? 0)%Z then Some (drop 7 uri)
                else if (strncasecmp uri "https://" 8 =? 0)%Z
                     then Some (drop 8 uri) else None);
        [exact H | discriminate H].
    - unfold Concurrent.parse_uri in H.
      destruct (negb (strncasecmp uri "http://" 7 =? 0)%Z);
        [discriminate H | exact H]. }
  destruct (parse_from_shape _ _ _ _ Hf)
    as (Hh & (d & rest & Hd & Hs & Hc & Hn) & Hp & Hsuf).
  assert (Hlen : (String.length uri
                  = 7 + String.length h + 1 + String.length rest)%nat).
  { pose proof (length_drop 7 uri) as Hl. rewrite Hs, length_append in Hl.
    cbn [String.length] in Hl. lia. }
  split; [exact Hh |]. split; [now exists d, rest |]. split; [exact Hp |].
  unfold strlen. split; [lia |]. split.
  - destruct Hsuf as [-> | [i ->]]; [cbn; lia |].
    rewrite !length_drop. lia.
  - destruct (Ascii.eqb d ":") eqn:E.
    + apply Ascii.eqb_eq in E. rewrite (Hc E). apply atoi_int.
    + apply Ascii.eqb_neq in E. rewrite (Hn E). unfold INT_MAX. lia.
Qed.

Lemma resolution_shape_witness :
  any_delim "example.com" = false
  /\ (exists d rest,
         is_delim d = true
         /\ drop 7 "http://example.com:8080/a/b" = "example.com" ++ String d rest
         /\ (d = ":"%char -> 8080%Z = atoi rest)
         /\ (d <> ":"%char -> 8080%Z = 80%Z))
  /\ head_byte "/a/b" = "/"%char
  /\ (strlen "example.com" < strlen "http://example.com:8080/a/b")%nat
  /\ (strlen "/a/b" < strlen "http://example.com:8080/a/b")%nat
  /\ (-2147483648 <= 8080 <= INT_MAX)%Z.
Proof.
  apply (resolution_shape "http://example.com:8080/a/b" "example.com" "/a/b" 8080).
  left. reflexivity.
Defined.

Lemma https_is_not_http : forall uri : string,
  strncasecmp uri "https://" 8 = 0%Z -> strncasecmp uri "http://" 7 <> 0%Z.
Proof.
  intros uri H8 H7.
  do 5 (apply strncasecmp_step in H8; [| discriminate];
        destruct H8 as (? & ? & -> & ? & H8)).
  do 5 (apply strncasecmp_step in H7; [| discriminate];
        destruct H7 as (? & ? & E & ? & H7); injection E as <- <-).
  match goal with
  | A : tolower ?x = tolower "s"%char, B : tolower ?x = tolower ":"%char |- _ =>
      rewrite A in B; vm_compute in B; discriminate B
  end.
Qed.

(** X9.  The two resolvers differ on the https scheme only: the concurrent
    one refuses every URI that starts with it, and gives any other URI the
    result the sequential one gives. *)
Theorem resolvers_agree_off_https :
  forall uri : string,
    Concurrent.parse_uri uri
    = if (strncasecmp uri "https://" 8 =? 0)%Z then None
      else Sequential.parse_uri uri.
Proof.
  intros uri. unfold Concurrent.parse_uri, Sequential.parse_uri.
  destruct (strncasecmp uri "https://" 8 =? 0)%Z eqn:E8.
  - apply Z.eqb_eq, https_is_not_http, Z.eqb_neq in E8. now rewrite E8.
  - destruct (strncasecmp uri "http://" 7 =? 0)%Z; reflexivity.
Qed.

(** ** The blocklist at work *)

Lemma is_delim_tolower : forall c : ascii, is_delim (tolower c) = is_delim c.
Proof. intros c. ascii_cases c; reflexivity. Qed.

Lemma any_delim_lower : forall s : string, any_delim (lower s) = any_delim s.
Proof.
  induction s as [|c s IH]; [reflexivity |].
  cbn [lower any_delim]. now rewrite is_delim_tolower, IH.
Qed.

Lemma any_delim_c_str : forall s : string,
  any_delim s = false -> any_delim (c_str s) = false.
Proof.
  induction s as [|c s IH]; intros H; [reflexivity |].
  cbn [any_delim] in H. apply orb_false_iff in H. destruct H as [Hc Hs].
  cbn [c_str]. destruct (Ascii.eqb c NUL); [reflexivity |].
  cbn [any_delim]. now rewrite Hc, IH.
Qed.

(** A host name that was resolved equals no row that holds a delimiter. *)
Lemma seq_delimited_rows : forall (blocklist : list string) (h : string),
  Forall (fun e => any_delim (c_str e) = true) blocklist ->
  any_delim h = false ->
  Sequential.blocked blocklist h = false.
Proof.
  intros bl h Hbl Hh.
  apply (not_blocked _ _ _ (seq_blocked_iff bl h)).
  intros e [Hin Hci]. rewrite Forall_forall in Hbl. specialize (Hbl e Hin).
  unfold ci_equal in Hci. apply (f_equal any_delim) in Hci.
  rewrite !any_delim_lower, Hbl, (any_delim_c_str h Hh) in Hci.
  discriminate Hci.
Qed.

Lemma seq_parse_host : forall uri h pn port,
  Sequential.parse_uri uri = Some (h, pn, port) -> any_delim h = false.
Proof.
  intros uri h pn port H. unfold Sequential.parse_uri in H.
  destruct (if (strncasecmp uri "http://" 7 =? 0)%Z then Some (drop 7 uri)
            else if (strncasecmp uri "https://" 8 =? 0)%Z
                 then Some (drop 8 uri) else None); [| discriminate H].
  now destruct (parse_from_shape _ _ _ _ H).
Qed.

(** X10.  In the sequential variant a row of the blocklist that holds a
    space, a colon, a slash, a CR or a LF blocks nothing: a URL, a host with
    its port, a row read from a file with CRLF line ends.  With such rows
    only, every transaction goes as with no blocklist at all. *)
Theorem rows_with_a_delimiter_never_block :
  forall (MAXLINE MAXBUF : nat) (blocklist : list string) (w : world),
    Forall (fun e => any_delim (c_str e) = true) blocklist ->
    Sequential.proxy MAXLINE MAXBUF blocklist w = Sequential.proxy MAXLINE MAXBUF [] w.
Proof.
  intros M B bl w Hbl. unfold Sequential.proxy.
  destruct (strlen (request_line w) =? 0)%nat; [reflexivity |].
  destruct (sscanf3 w) as [[m u] v].
  destruct (method_refused m); [reflexivity |]. f_equal.
  destruct (Sequential.parse_uri u) as [[[h pn] port]|] eqn:E; [| reflexivity].
  rewrite (seq_delimited_rows bl h Hbl (seq_parse_host _ _ _ _ E)).
  reflexivity.
Qed.

Lemma rows_with_a_delimiter_never_block_witness :
  Sequential.proxy CSAPP_MAXLINE CSAPP_MAXBUF
    ["http://example.com"; "example.com:8080"; with_cr "example.com"] get_world
  = Sequential.proxy CSAPP_MAXLINE CSAPP_MAXBUF [] get_world.
Proof.
  apply (rows_with_a_delimiter_never_block CSAPP_MAXLINE CSAPP_MAXBUF
           ["http://example.com"; "example.com:8080"; with_cr "example.com"]
           get_world).
  repeat (apply Forall_cons; [reflexivity |]). apply Forall_nil.
Defined.

Lemma any_space_app : forall a b : string,
  any_space (a ++ b) = orb (any_space a) (any_space b).
Proof.
  induction a as [|c a IH]; intros b; [reflexivity |].
  cbn [append any_space]. now rewrite IH, orb_assoc.
Qed.

Lemma wordlike_no_space : forall s : string,
  wordlike s = true -> any_space s = false.
Proof.
  induction s as [|c s IH]; intros H; [reflexivity |].
  cbn [wordlike] in H. apply andb_true_iff in H. destruct H as [Hc Hs].
  apply negb_true_iff, orb_false_iff in Hc. destruct Hc as [_ Hc].
  cbn [any_space]. now rewrite Hc, IH.
Qed.

(** A word holds no row in which some byte is white space. *)
Lemma conc_spaced_rows : forall (blocklist : list string) (uri : string),
  Forall (fun e => any_space e = true) blocklist ->
  wordlike uri = true ->
  Concurrent.blocked blocklist uri = false.
Proof.
  intros bl u Hbl Hu.
  apply (not_blocked _ _ _ (conc_blocked_iff bl u)).
  intros e [Hin (pre & post & E)]. rewrite Forall_forall in Hbl.
  specialize (Hbl e Hin). apply wordlike_no_space in Hu.
  rewrite E, !any_space_app, Hbl, orb_true_r in Hu. discriminate Hu.
Qed.

(** X11.  In the concurrent variant a row of the blocklist in which some
    byte is white space blocks no request whose line is made of three
    words: the URI is one of the words, and the row cannot occur in it. *)
Theorem rows_with_white_space_never_block :
  forall (MAXLINE MAXBUF : nat) (blocklist : list string) (log_file : bool)
         (w : world) (method uri version gap1 gap2 gap3 : string),
    Forall (fun e => any_space e = true) blocklist ->
    word method = true -> word uri = true -> word version = true ->
    blank gap1 = true -> blank gap2 = true -> blank gap3 = true ->
    let w' := with_request w (method ++ gap1 ++ uri ++ gap2 ++ version ++ gap3) in
    Concurrent.proxy MAXLINE MAXBUF blocklist log_file w'
    = Concurrent.proxy MAXLINE MAXBUF [] log_file w'.
Proof.
  intros M B bl lf w m u v g1 g2 g3 Hbl Hm Hu Hv H1 H2 H3 w'.
  destruct (sscanf3_words w' m u v g1 g2 g3 eq_refl Hm Hu Hv H1 H2 H3)
    as [Hl Hs].
  destruct (word_parts u Hu) as (? & ? & _ & _ & Wu).
  unfold Concurrent.proxy. rewrite Hs, (conc_spaced_rows bl u Hbl Wu).
  reflexivity.
Qed.

Lemma rows_with_white_space_never_block_witness :
  Concurrent.proxy CSAPP_MAXLINE CSAPP_MAXBUF [with_cr "example.com"] true
    (with_request get_world
       ("GET" ++ " " ++ "http://example.com/" ++ " " ++ "HTTP/1.0" ++ CRLF))
  = Concurrent.proxy CSAPP_MAXLINE CSAPP_MAXBUF [] true
      (with_request get_world
         ("GET" ++ " " ++ "http://example.com/" ++ " " ++ "HTTP/1.0" ++ CRLF)).
Proof.
  apply (rows_with_white_space_never_block CSAPP_MAXLINE CSAPP_MAXBUF
           [with_cr "example.com"] true get_world
           "GET" "http://example.com/" "HTTP/1.0" " " " " CRLF);
    try reflexivity.
  apply Forall_cons; [reflexivity | apply Forall_nil].
Defined.

Lemma plain_app : forall a b : string,
  plain (a ++ b) = andb (plain a) (plain b).
Proof.
  induction a as [|c a IH]; intros b; [reflexivity |].
  cbn [append plain]. now rewrite IH, andb_assoc.
Qed.

Lemma plain_c_str : forall s : string, plain s = true -> c_str s = s.
Proof.
  induction s as [|c s IH]; intros H; [reflexivity |].
  cbn [plain] in H. apply andb_true_iff in H. destruct H as [Hc Hs].
  apply negb_true_iff, orb_false_iff in Hc. destruct Hc as [Hc _].
  cbn [c_str]. now rewrite Hc, IH.
Qed.

Lemma any_delim_app : forall a b : string,
  any_delim (a ++ b) = orb (any_delim a) (any_delim b).
Proof.
  induction a as [|c a IH]; intros b; [reflexivity |].
  cbn [append any_delim]. now rewrite IH, orb_assoc.
Qed.

Lemma filter_with_cr : forall lines : list string,
  filter nonempty (map with_cr lines ++ [""])%list = map with_cr lines.
Proof.
  induction lines as [|l lines IH]; [reflexivity |].
  cbn [map app filter]. rewrite IH.
  destruct l; reflexivity.
Qed.

(** X12.  [read_blocklist] cuts a line at its LF and at nothing else.  A
    file with CRLF line ends is therefore loaded with a CR at the end of
    every row, the empty lines included, and the sequential proxy started
    with these rows blocks no host. *)
Theorem crlf_blocklist_blocks_nothing :
  forall (MAXLINE MAXBUF : nat) (lines : list string),
    Forall (fun l => plain l = true /\ (strlen l + 3 <= MAXLINE)%nat) lines ->
    (List.length lines < MAX_BLOCKLIST)%nat ->
    read_blocklist MAXLINE (Some (unlines (map with_cr lines))) []
    = Some (Loaded (map with_cr lines))
    /\ forall w : world,
         Sequential.proxy MAXLINE MAXBUF (map with_cr lines) w
         = Sequential.proxy MAXLINE MAXBUF [] w.
Proof.
  intros M B lines Hl Hn. split.
  - unfold read_blocklist.
    pose proof (read_loop_lines M (map with_cr lines) ""
                  (S (String.length (unlines (map with_cr lines)))) []) as H.
    rewrite append_nil_r, filter_with_cr in H.
    destruct lines as [|l lines']; [reflexivity |]. apply H.
    + apply Forall_map. eapply Forall_impl; [| exact Hl].
      intros l0 [Hp Hlen]. unfold with_cr, strlen in *.
      rewrite plain_app, Hp, length_append. split; [reflexivity |].
      cbn [String.length]. lia.
    + reflexivity.
    + unfold strlen. cbn [String.length].
      inversion Hl as [|? ? [_ Hlen] _]. lia.
    + cbn [List.length]. rewrite length_map. exact Hn.
    + lia.
  - intros w. unfold Sequential.proxy.
    destruct (strlen (request_line w) =? 0)%nat; [reflexivity |].
    destruct (sscanf3 w) as [[m u] v].
    destruct (method_refused m); [reflexivity |]. f_equal.
    destruct (Sequential.parse_uri u) as [[[h pn] port]|] eqn:E; [| reflexivity].
    rewrite (seq_delimited_rows (map with_cr lines) h);
      [reflexivity | | exact (seq_parse_host _ _ _ _ E)].
    apply Forall_map. eapply Forall_impl; [| exact Hl].
    intros l [Hp _]. unfold with_cr.
    rewrite plain_c_str by (rewrite plain_app, Hp; reflexivity).
    rewrite any_delim_app. apply orb_true_r.
Qed.

Lemma crlf_blocklist_blocks_nothing_witness :
  read_blocklist CSAPP_MAXLINE
    (Some (unlines (map with_cr ["example.com"; ""; "ads.example.net"]))) []
  = Some (Loaded (map with_cr ["example.com"; ""; "ads.example.net"]))
  /\ forall w : world,
       Sequential.proxy CSAPP_MAXLINE CSAPP_MAXBUF
         (map with_cr ["example.com"; ""; "ads.example.net"]) w
       = Sequential.proxy CSAPP_MAXLINE CSAPP_MAXBUF [] w.
Proof.
  apply (crlf_blocklist_blocks_nothing CSAPP_MAXLINE CSAPP_MAXBUF
           ["example.com"; ""; "ads.example.net"]).
  - repeat (apply Forall_cons; [split; [reflexivity |
                                      apply Nat.leb_le; vm_compute; reflexivity] |]).
    apply Forall_nil.
  - apply Nat.ltb_lt. vm_compute. reflexivity.
Defined.

Lemma existsb_same_members : forall (A : Type) (f : A -> bool) (l l' : list A),
  (forall x, In x l <-> In x l') -> existsb f l = existsb f l'.
Proof.
  intros A f l l' H.
  destruct (existsb f l) eqn:E; destruct (existsb f l') eqn:E'; try reflexivity.
  - apply existsb_exists in E. destruct E as (x & Hin & Hx).
    assert (existsb f l' = true)
      by (apply existsb_exists; exists x; split; [now apply H | exact Hx]).
    congruence.
  - apply existsb_exists in E'. destruct E' as (x & Hin & Hx).
    assert (existsb f l = true)
      by (apply existsb_exists; exists x; split; [now apply H | exact Hx]).
    congruence.
Qed.

(** X13.  The blocklist counts as a set: two blocklists with the same rows,
    in whatever order and however often repeated, make every transaction
    go the same way, in both variants. *)
Theorem blocklist_is_a_set :
  forall (MAXLINE MAXBUF : nat) (blocklist blocklist' : list string)
         (log_file : bool) (w : world),
    (forall e, In e blocklist <-> In e blocklist') ->
    Sequential.proxy MAXLINE MAXBUF blocklist w = Sequential.proxy MAXLINE MAXBUF blocklist' w
    /\ Concurrent.proxy MAXLINE MAXBUF blocklist log_file w
       = Concurrent.proxy MAXLINE MAXBUF blocklist' log_file w.
Proof.
  intros M B bl bl' lf w H. split.
  - unfold Sequential.proxy, Sequential.blocked.
    destruct (strlen (request_line w) =? 0)%nat; [reflexivity |].
    destruct (sscanf3 w) as [[m u] v].
    destruct (method_refused m); [reflexivity |]. f_equal.
    destruct (Sequential.parse_uri u) as [[[h pn] port]|]; [| reflexivity].
    now rewrite (existsb_same_members _ _ bl bl' H).
  - unfold Concurrent.proxy, Concurrent.blocked.
    destruct (strlen (request_line w) =? 0)%nat; [reflexivity |].
    destruct (sscanf3 w) as [[m u] v].
    destruct (method_refused m); [reflexivity |].
    now rewrite (existsb_same_members _ _ bl bl' H).
Qed.

Lemma blocklist_is_a_set_witness :
  Sequential.proxy CSAPP_MAXLINE CSAPP_MAXBUF ["example.com"; "example.org"; "example.com"]
    get_world
  = Sequential.proxy CSAPP_MAXLINE CSAPP_MAXBUF ["example.org"; "example.com"] get_world
  /\ Concurrent.proxy CSAPP_MAXLINE CSAPP_MAXBUF ["example.com"; "example.org"; "example.com"]
       true get_world
     = Concurrent.proxy CSAPP_MAXLINE CSAPP_MAXBUF ["example.org"; "example.com"] true get_world.
Proof.
  apply (blocklist_is_a_set CSAPP_MAXLINE CSAPP_MAXBUF
           ["example.com"; "example.org"; "example.com"]
           ["example.org"; "example.com"] true get_world).
  intros e. simpl. tauto.
Defined.

(** ** From the request line to the connection *)

Lemma wordlike_app : forall a b : string,
  wordlike (a ++ b) = andb (wordlike a) (wordlike b).
Proof.
  induction a as [|c a IH]; intros b; [reflexivity |].
  cbn [append wordlike]. now rewrite IH, andb_assoc.
Qed.

Lemma numeral_wordlike : forall s : string, numeral s = true -> wordlike s = true.
Proof.
  induction s as [|c s IH]; intros H; [reflexivity |].
  cbn [numeral] in H. apply andb_true_iff in H. destruct H as [Hc Hs].
  cbn [wordlike]. rewrite (IH Hs), (digit_not_space c Hc), orb_false_r.
  destruct (Ascii.eqb c NUL) eqn:E; [| reflexivity].
  apply Ascii.eqb_eq in E. subst c. discriminate Hc.
Qed.

Lemma fmt_d_wordlike : forall z : Z, wordlike (fmt_d z) = true.
Proof.
  intros z. destruct (fmt_d_shape z) as (sign & digits & -> & Hd & Hs).
  rewrite wordlike_app, (numeral_wordlike digits Hd).
  destruct Hs as [-> | ->]; reflexivity.
Qed.

Lemma take_length_iff : forall (n : nat) (s : string),
  take n s = s <-> (String.length s <= n)%nat.
Proof.
  induction n as [|n IH]; intros [|c s]; cbn [take String.length].
  - split; [lia | reflexivity].
  - split; [discriminate | lia].
  - split; [lia | reflexivity].
  - rewrite <- Nat.succ_le_mono, <- IH. split; [intros H; now injection H | congruence].
Qed.

(** The text of a number has at most [k] bytes when the number is below the
    [k]-th power of ten. *)
Lemma fmt_d_length_iff : forall (z : Z) (k : nat),
  (0 <= z)%Z -> (1 <= k)%nat ->
  ((strlen (fmt_d z) <= k)%nat <-> (z < 10 ^ Z.of_nat k)%Z).
Proof.
  intros [|p|p] k Hz Hk; [| | lia].
  - change (strlen (fmt_d 0)) with 1%nat. split; [| lia].
    intros _. apply Z.pow_pos_nonneg; lia.
  - destruct (fmt_d_pos_bounds p) as [Hlo Hhi].
    set (len := strlen (fmt_d (Z.pos p))) in *. split; intros H.
    + eapply Z.lt_le_trans; [exact Hhi |].
      apply Z.pow_le_mono_r; lia.
    + destruct (Nat.le_gt_cases len k) as [Hle | Hgt]; [exact Hle |].
      assert (10 ^ Z.of_nat k <= 10 ^ (Z.of_nat len - 1))%Z
        by (apply Z.pow_le_mono_r; lia).
      lia.
Qed.

(** [snprintf (port_str, 6, "%d", port)] keeps the whole text of a port up
    to 99999 and the first five bytes of a larger one. *)
Lemma port_str_whole : forall n : Z,
  (0 <= n)%Z -> (snprintf 6 (fmt_d n) = fmt_d n <-> (n <= 99999)%Z).
Proof.
  intros n Hn. unfold snprintf. cbn [Nat.sub].
  rewrite take_length_iff. change (String.length (fmt_d n)) with (strlen (fmt_d n)).
  rewrite (fmt_d_length_iff n 5 Hn) by lia.
  change (10 ^ Z.of_nat 5)%Z with 100000%Z. lia.
Qed.

Lemma conc_forward_connects : forall MAXLINE log_file w method uri hostname pathname,
  connects (Concurrent.forward MAXLINE log_file w method uri hostname pathname)
  = [].
Proof.
  intros. unfold Concurrent.forward, Concurrent.log_request.
  destruct (relay_quiet (response w) 0) as [Hc _].
  destruct (relay (response w) 0) as [evs total]. cbn [fst] in Hc.
  cbn [connects]. rewrite connects_app, Hc.
  destruct log_file; reflexivity.
Qed.

Lemma seq_connects : forall MAXLINE MAXBUF blocklist w method uri version h pn port,
  strlen (request_line w) <> O ->
  sscanf3 w = (method, uri, version) ->
  method_refused method = false ->
  Sequential.parse_uri uri = Some (h, pn, port) ->
  Sequential.blocked blocklist h = false ->
  connects (Sequential.proxy MAXLINE MAXBUF blocklist w)
  = [(h, snprintf 6 (fmt_d port))].
Proof.
  intros M B bl w m u v h pn port Hl Hs Hm Hp Hb. unfold Sequential.proxy.
  rewrite (strlen_eqb_false _ Hl), Hs, Hm, Hp, Hb. cbn [connects]. f_equal.
  destruct (negb (connect_ok w h (snprintf 6 (fmt_d port)))); [reflexivity |].
  apply seq_forward_connects.
Qed.

Lemma conc_connects : forall MAXLINE MAXBUF blocklist log_file w method uri version h pn port,
  strlen (request_line w) <> O ->
  sscanf3 w = (method, uri, version) ->
  method_refused method = false ->
  Concurrent.blocked blocklist uri = false ->
  Concurrent.parse_uri uri = Some (h, pn, port) ->
  connects (Concurrent.proxy MAXLINE MAXBUF blocklist log_file w)
  = [(h, snprintf 6 (fmt_d port))].
Proof.
  intros M B bl lf w m u v h pn port Hl Hs Hm Hb Hp. unfold Concurrent.proxy.
  rewrite (strlen_eqb_false _ Hl), Hs, Hm, Hb, Hp. cbn [connects]. f_equal.
  destruct (negb (connect_ok w h (snprintf 6 (fmt_d port)))); [reflexivity |].
  apply conc_forward_connects.
Qed.

(** X14.  From the request line to the connection.  For the request
    [method http://host:port/path version], with a method that passes the
    gate and nothing blocked, the proxy opens one connection, to that host;
    the port it asks for is the first five bytes of the port as written,
    which is all of it exactly when the port is at most 99999. *)
Theorem request_reaches_host :
  forall (MAXLINE MAXBUF : nat) (blocklist : list string) (log_file : bool)
         (w : world) (method h p version : string) (n : Z),
    word method = true -> method_refused method = false ->
    hostlike h = true -> wordlike p = true -> word version = true ->
    (0 <= n <= INT_MAX)%Z ->
    let uri := "http://" ++ h ++ ":" ++ fmt_d n ++ "/" ++ p in
    let w' := with_request w (method ++ " " ++ uri ++ " " ++ version ++ CRLF) in
    (Sequential.blocked blocklist h = false ->
     connects (Sequential.proxy MAXLINE MAXBUF blocklist w') = [(h, take 5 (fmt_d n))])
    /\ (Concurrent.blocked blocklist uri = false ->
        connects (Concurrent.proxy MAXLINE MAXBUF blocklist log_file w')
        = [(h, take 5 (fmt_d n))])
    /\ (take 5 (fmt_d n) = fmt_d n <-> (n <= 99999)%Z).
Proof.
  intros M B bl lf w m h p v n Hm Hr Hh Hp Hv Hn uri w'.
  unfold hostlike in Hh. apply andb_true_iff in Hh. destruct Hh as [Hw Hd].
  apply negb_true_iff in Hd.
  assert (Hu : word uri = true).
  { assert (Hwu : wordlike uri = true).
    { unfold uri. rewrite !wordlike_app, Hw, fmt_d_wordlike, Hp. reflexivity. }
    unfold word. rewrite Hwu. reflexivity. }
  destruct (sscanf3_words w' m uri v " " " " CRLF eq_refl Hm Hu Hv
              eq_refl eq_refl eq_refl) as [Hl Hs].
  assert (Hn' : (-2147483648 <= n <= INT_MAX)%Z) by lia.
  destruct (parse_from_round_trip h p n Hd Hn') as (Hf & _ & _).
  destruct (scheme_accepted "http://"
              (h ++ ":" ++ fmt_d n ++ "/" ++ p) eq_refl) as [Ht Hdrop].
  fold uri in Ht, Hdrop.
  split; [| split].
  - intros Hb.
    apply (seq_connects M B bl w' m uri v h ("/" ++ p) n Hl Hs Hr); [| exact Hb].
    unfold Sequential.parse_uri. rewrite Ht, Hdrop. exact Hf.
  - intros Hb.
    apply (conc_connects M B bl lf w' m uri v h ("/" ++ p) n Hl Hs Hr Hb).
    unfold Concurrent.parse_uri. rewrite Ht, Hdrop. exact Hf.
  - apply (port_str_whole n). lia.
Qed.

Lemma request_reaches_host_witness :
  connects
    (Sequential.proxy CSAPP_MAXLINE CSAPP_MAXBUF ["example.org"]
       (with_request get_world
          ("GET" ++ " " ++ "http://example.com:123456/a/b" ++ " "
           ++ "HTTP/1.1" ++ CRLF)))
  = [("example.com", "12345")]
  /\ connects
       (Concurrent.proxy CSAPP_MAXLINE CSAPP_MAXBUF ["example.org"] true
          (with_request get_world
             ("GET" ++ " " ++ "http://example.com:123456/a/b" ++ " "
              ++ "HTTP/1.1" ++ CRLF)))
     = [("example.com", "12345")]
  /\ (take 5 (fmt_d 123456) = fmt_d 123456 <-> (123456 <= 99999)%Z).
Proof.
  destruct (request_reaches_host CSAPP_MAXLINE CSAPP_MAXBUF ["example.org"] true get_world
              "GET" "example.com" "a/b" "HTTP/1.1" 123456)
    as (Hseq & Hconc & Hcut); try reflexivity.
  - unfold INT_MAX. lia.
  - split; [apply Hseq; reflexivity |].
    split; [apply Hconc; reflexivity | exact Hcut].
Defined.

(** ** The connection to the server *)

Lemma closes_app : forall a b : list event,
  closes (a ++ b)%list = (closes a + closes b)%nat.
Proof.
  induction a as [|e a IH]; intros b; [reflexivity |].
  destruct e; cbn [app closes]; rewrite IH; reflexivity.
Qed.

Lemma relay_keeps_open : forall (reads : list string) (size : Z),
  closes (fst (relay reads size)) = O.
Proof.
  induction reads as [|buf rest IH]; intros size; cbn [relay]; [reflexivity |].
  destruct (strlen buf =? 0)%nat; [reflexivity |].
  specialize (IH (to_int (size + Z.of_nat (strlen buf)))).
  destruct (relay rest (to_int (size + Z.of_nat (strlen buf)))).
  exact IH.
Qed.

Lemma seq_forward_closes : forall MAXLINE w method uri hostname pathname,
  closes (Sequential.forward MAXLINE w method uri hostname pathname) = 1%nat.
Proof.
  intros. unfold Sequential.forward.
  pose proof (relay_keeps_open (response w) 0) as H.
  destruct (relay (response w) 0) as [evs total]. cbn [fst] in H.
  cbn [closes]. rewrite closes_app, H. reflexivity.
Qed.

Lemma conc_forward_closes : forall MAXLINE log_file w method uri hostname pathname,
  closes (Concurrent.forward MAXLINE log_file w method uri hostname pathname)
  = 1%nat.
Proof.
  intros. unfold Concurrent.forward, Concurrent.log_request.
  pose proof (relay_keeps_open (response w) 0) as H.
  destruct (relay (response w) 0) as [evs total]. cbn [fst] in H.
  cbn [closes]. rewrite closes_app, H.
  destruct log_file; reflexivity.
Qed.

(** X15.  The descriptor of the server.  A transaction asks for at most one
    connection, and it closes the server side once when the connection was
    made and not at all otherwise: whatever the request, the blocklist and
    the server do, no descriptor is left open and none is closed twice. *)
Theorem server_side_closed_once :
  forall (MAXLINE MAXBUF : nat) (blocklist : list string) (log_file : bool) (w : world),
    let made (tr : list event) :=
      filter (fun c => connect_ok w (fst c) (snd c)) (connects tr) in
    ((List.length (connects (Sequential.proxy MAXLINE MAXBUF blocklist w)) <= 1)%nat
     /\ closes (Sequential.proxy MAXLINE MAXBUF blocklist w)
        = List.length (made (Sequential.proxy MAXLINE MAXBUF blocklist w)))
    /\
    ((List.length (connects (Concurrent.proxy MAXLINE MAXBUF blocklist log_file w)) <= 1)%nat
     /\ closes (Concurrent.proxy MAXLINE MAXBUF blocklist log_file w)
        = List.length (made (Concurrent.proxy MAXLINE MAXBUF blocklist log_file w))).
Proof.
  intros M B bl lf w made. unfold made. split.
  - unfold Sequential.proxy.
    destruct (strlen (request_line w) =? 0)%nat; [split; auto |].
    destruct (sscanf3 w) as [[m u] v].
    destruct (method_refused m); [split; auto |].
    destruct (Sequential.parse_uri u) as [[[h pn] port]|]; [| split; auto].
    destruct (Sequential.blocked bl h); [split; auto |].
    cbn [connects closes filter fst snd].
    destruct (connect_ok w h (snprintf 6 (fmt_d port))) eqn:E; cbn [negb].
    + rewrite seq_forward_connects, seq_forward_closes. split; auto.
    + split; auto.
  - unfold Concurrent.proxy.
    destruct (strlen (request_line w) =? 0)%nat; [split; auto |].
    destruct (sscanf3 w) as [[m u] v].
    destruct (method_refused m); [split; auto |].
    destruct (Concurrent.blocked bl u); [split; auto |].
    destruct (Concurrent.parse_uri u) as [[[h pn] port]|]; [| split; auto].
    cbn [connects closes filter fst snd].
    destruct (connect_ok w h (snprintf 6 (fmt_d port))) eqn:E; cbn [negb].
    + rewrite conc_forward_connects, conc_forward_closes. split; auto.
    + split; auto.
Qed.

Lemma length_take : forall (n : nat) (s : string),
  (String.length (take n s) <= n)%nat.
Proof.
  induction n as [|n IH]; intros [|c s]; cbn [take String.length]; try lia.
  specialize (IH s). lia.
Qed.

Lemma two_snprintf_fit : forall (MAXLINE : nat) (a b : string),
  (strlen (snprintf MAXLINE a
           ++ snprintf (MAXLINE - strlen (snprintf MAXLINE a)) b)
   <= MAXLINE - 1)%nat.
Proof.
  intros M a b. unfold strlen, snprintf. rewrite length_append.
  pose proof (length_take (M - 1) a).
  pose proof (length_take (M - String.length (take (M - 1) a) - 1) b).
  lia.
Qed.

(** X16.  The request for the server is built in [buf] by two [snprintf],
    the second given the room the first left.  Whatever the lengths of the
    method, the path and the host name, what is written to the server is
    one string of at most [MAXLINE - 1] bytes: the array is not overrun. *)
Theorem upstream_request_fits :
  forall (MAXLINE MAXBUF : nat) (blocklist : list string) (log_file : bool) (w : world),
    Forall (fun bytes => (strlen bytes <= MAXLINE - 1)%nat)
      (server_writes (Sequential.proxy MAXLINE MAXBUF blocklist w))
    /\ Forall (fun bytes => (strlen bytes <= MAXLINE - 1)%nat)
         (server_writes (Concurrent.proxy MAXLINE MAXBUF blocklist log_file w)).
Proof.
  intros M B bl lf w. split.
  - unfold Sequential.proxy.
    destruct (strlen (request_line w) =? 0)%nat; [constructor |].
    destruct (sscanf3 w) as [[m u] v].
    destruct (method_refused m); [constructor |].
    destruct (Sequential.parse_uri u) as [[[h pn] port]|]; [| constructor].
    destruct (Sequential.blocked bl h); [constructor |].
    destruct (negb (connect_ok w h (snprintf 6 (fmt_d port)))); [constructor |].
    cbn [server_writes]. rewrite seq_forward_server.
    constructor; [apply two_snprintf_fit | constructor].
  - unfold Concurrent.proxy.
    destruct (strlen (request_line w) =? 0)%nat; [constructor |].
    destruct (sscanf3 w) as [[m u] v].
    destruct (method_refused m); [constructor |].
    destruct (Concurrent.blocked bl u); [constructor |].
    destruct (Concurrent.parse_uri u) as [[[h pn] port]|]; [| constructor].
    destruct (negb (connect_ok w h (snprintf 6 (fmt_d port)))); [constructor |].
    cbn [server_writes]. rewrite conc_forward_server.
    constructor; [apply two_snprintf_fit | constructor].
Qed.

(** ** Starting the server: [main] *)

Lemma listen_port_small : forall (n : Z) (junk : string),
  (0 <= n <= 99999)%Z -> isdigit (head_byte junk) = false ->
  listen_port (fmt_d n ++ junk) = Some (fmt_d n).
Proof.
  intros n junk Hn Hj. unfold listen_port.
  rewrite atoi_fmt_d by (unfold INT_MAX; auto; lia).
  assert (H : (strlen (fmt_d n) <= 5)%nat).
  { apply (fmt_d_length_iff n 5); [lia | lia |].
    change (10 ^ Z.of_nat 5)%Z with 100000%Z. lia. }
  apply Nat.leb_le in H. now rewrite H.
Qed.

Lemma listen_port_large : forall (n : Z) (junk : string),
  (100000 <= n <= INT_MAX)%Z -> isdigit (head_byte junk) = false ->
  listen_port (fmt_d n ++ junk) = None.
Proof.
  intros n junk Hn Hj. unfold listen_port.
  rewrite atoi_fmt_d by (auto; lia).
  destruct (strlen (fmt_d n) <=? 5)%nat eqn:E; [| reflexivity].
  apply Nat.leb_le in E. apply (fmt_d_length_iff n 5) in E; [| lia | lia].
  change (10 ^ Z.of_nat 5)%Z with 100000%Z in E. lia.
Qed.

Lemma read_blocklist_ends : forall (MAXLINE : nat) (file : option string)
    (blocklist : list string),
  (2 <= MAXLINE)%nat ->
  exists result, read_blocklist MAXLINE file blocklist = Some result.
Proof.
  intros M [content|] bl HM; [| now exists (Loaded bl)].
  destruct (read_loop_ends M (S (String.length content)) content bl HM
              ltac:(lia)) as (r & Hr & _).
  now exists r.
Qed.

(** X17.  Started with one argument that begins with the decimal text of a
    port up to 99999, the log and the blocklist in order, [main] reaches
    [Open_listenfd] with that text as the port and with the rows of the
    blocklist file; what follows the digits in the argument is ignored. *)
Theorem main_listens :
  forall (MAXLINE : nat) (inv : invocation) (n : Z) (junk : string)
         (blocklist : list string),
    log_opens inv = true ->
    args inv = [fmt_d n ++ junk] ->
    isdigit (head_byte junk) = false ->
    (0 <= n <= 99999)%Z ->
    read_blocklist MAXLINE (blocklist_file inv) [] = Some (Loaded blocklist) ->
    seq_main MAXLINE inv = Some (Listening (fmt_d n) blocklist)
    /\ conc_main MAXLINE inv = Some (Listening (fmt_d n) blocklist).
Proof.
  intros M inv n junk bl Hlog Hargs Hj Hn Hbl.
  unfold seq_main, conc_main, after_load, serve_on.
  rewrite Hbl, Hlog, Hargs, (listen_port_small n junk Hn Hj).
  split; reflexivity.
Qed.

Lemma main_listens_witness :
  seq_main CSAPP_MAXLINE
    {| argv0 := "./proxy"; args := [fmt_d 8080 ++ "/tcp"]; log_opens := true;
       blocklist_file := Some (unlines ["example.com"]) |}
  = Some (Listening (fmt_d 8080) ["example.com"])
  /\ conc_main CSAPP_MAXLINE
       {| argv0 := "./proxy"; args := [fmt_d 8080 ++ "/tcp"]; log_opens := true;
          blocklist_file := Some (unlines ["example.com"]) |}
     = Some (Listening (fmt_d 8080) ["example.com"]).
Proof.
  apply (main_listens CSAPP_MAXLINE
           {| argv0 := "./proxy"; args := [fmt_d 8080 ++ "/tcp"];
              log_opens := true;
              blocklist_file := Some (unlines ["example.com"]) |}
           8080 "/tcp" ["example.com"]); try reflexivity.
  lia.
Defined.

(** X18.  The port argument is not validated.  When no number stands at its
    head, [atoi] gives 0 and [main] goes on to [Open_listenfd] with the port
    "0" instead of refusing the argument. *)
Theorem port_argument_without_number :
  forall (MAXLINE : nat) (inv : invocation) (arg : string)
         (blocklist : list string),
    log_opens inv = true ->
    args inv = [arg] ->
    no_number arg = true ->
    read_blocklist MAXLINE (blocklist_file inv) [] = Some (Loaded blocklist) ->
    seq_main MAXLINE inv = Some (Listening "0" blocklist)
    /\ conc_main MAXLINE inv = Some (Listening "0" blocklist).
Proof.
  intros M inv arg bl Hlog Hargs Hno Hbl.
  unfold seq_main, conc_main, after_load, serve_on, listen_port.
  rewrite Hbl, Hlog, Hargs, (atoi_no_number arg Hno).
  split; reflexivity.
Qed.

Lemma port_argument_without_number_witness :
  seq_main CSAPP_MAXLINE
    {| argv0 := "./proxy"; args := ["http"]; log_opens := true;
       blocklist_file := None |}
  = Some (Listening "0" [])
  /\ conc_main CSAPP_MAXLINE
       {| argv0 := "./proxy"; args := ["http"]; log_opens := true;
          blocklist_file := None |}
     = Some (Listening "0" []).
Proof.
  apply (port_argument_without_number CSAPP_MAXLINE
           {| argv0 := "./proxy"; args := ["http"]; log_opens := true;
              blocklist_file := None |} "http" []); reflexivity.
Defined.

(** X19.  [port_str] has room for five digits.  Started with a port of
    100000 or more, [main] stores past the end of [port_str]: [sprintf], not
    [snprintf], writes the text of the port there. *)
Theorem port_argument_overruns :
  forall (MAXLINE : nat) (inv : invocation) (n : Z) (junk : string),
    (2 <= MAXLINE)%nat ->
    log_opens inv = true ->
    args inv = [fmt_d n ++ junk] ->
    isdigit (head_byte junk) = false ->
    (100000 <= n <= INT_MAX)%Z ->
    seq_main MAXLINE inv = Some Undefined
    /\ conc_main MAXLINE inv = Some Undefined.
Proof.
  intros M inv n junk HM Hlog Hargs Hj Hn.
  destruct (read_blocklist_ends M (blocklist_file inv) [] HM) as [r Hr].
  unfold seq_main, conc_main, after_load, serve_on.
  rewrite Hr, Hlog, Hargs, (listen_port_large n junk Hn Hj).
  destruct r; split; reflexivity.
Qed.

Lemma port_argument_overruns_witness :
  seq_main CSAPP_MAXLINE
    {| argv0 := "./proxy"; args := [fmt_d 100000 ++ ""]; log_opens := true;
       blocklist_file := None |}
  = Some Undefined
  /\ conc_main CSAPP_MAXLINE
       {| argv0 := "./proxy"; args := [fmt_d 100000 ++ ""]; log_opens := true;
          blocklist_file := None |}
     = Some Undefined.
Proof.
  apply (port_argument_overruns CSAPP_MAXLINE
           {| argv0 := "./proxy"; args := [fmt_d 100000 ++ ""];
              log_opens := true; blocklist_file := None |} 100000 "");
    try reflexivity.
  - apply Nat.leb_le. vm_compute. reflexivity.
  - unfold INT_MAX. lia.
Defined.

(** ** The log record: [format_log_entry] *)

Lemma append_inj_l : forall p a b : string, p ++ a = p ++ b -> a = b.
Proof.
  induction p as [|c p IH]; intros a b H; [exact H |].
  cbn [append] in H. injection H as H. now apply IH.
Qed.

(** A word followed by a space: where the word ends is settled. *)
Lemma split_at_space : forall a a' b b' : string,
  wordlike a = true -> wordlike a' = true ->
  a ++ String " " b = a' ++ String " " b' -> a = a' /\ b = b'.
Proof.
  induction a as [|c a IH]; intros [|c' a'] b b' Ha Ha' H; cbn [append] in H.
  - injection H as H. now split.
  - injection H as Hc _. subst c'. cbn [wordlike] in Ha'.
    apply andb_true_iff in Ha'. destruct Ha' as [Hc _]. discriminate Hc.
  - injection H as Hc _. subst c. cbn [wordlike] in Ha.
    apply andb_true_iff in Ha. destruct Ha as [Hc _]. discriminate Hc.
  - injection H as Hc H. subst c'. cbn [wordlike] in Ha, Ha'.
    apply andb_true_iff in Ha, Ha'. destruct Ha as [_ Ha], Ha' as [_ Ha'].
    destruct (IH a' b b' Ha Ha' H) as [-> ->]. now split.
Qed.

Lemma fmt_d_inj : forall z z' : Z,
  (-2147483648 <= z <= INT_MAX)%Z -> (-2147483648 <= z' <= INT_MAX)%Z ->
  fmt_d z = fmt_d z' -> z = z'.
Proof.
  intros z z' Hz Hz' H.
  rewrite <- (atoi_fmt_d z "" Hz eq_refl), <- (atoi_fmt_d z' "" Hz' eq_refl).
  now rewrite H.
Qed.

(** X20.  The log record can be read back.  For a given time and client
    address, two records are the same text only when they carry the same
    URI and the same size: the URI, a word of the request line, ends at the
    space before the size, and the decimal text of an [int] determines
    it. *)
Theorem log_record_read_back :
  forall (w : world) (uri uri' : string) (size size' : Z),
    wordlike uri = true -> wordlike uri' = true ->
    (-2147483648 <= size <= INT_MAX)%Z ->
    (-2147483648 <= size' <= INT_MAX)%Z ->
    format_log_entry w uri size = format_log_entry w uri' size' ->
    uri = uri' /\ size = size'.
Proof.
  intros w u u' n n' Hu Hu' Hn Hn' H. unfold format_log_entry in H.
  do 5 apply append_inj_l in H. cbn [append] in H.
  destruct (split_at_space u u' (fmt_d n) (fmt_d n') Hu Hu' H) as [Eu En].
  split; [exact Eu |]. now apply fmt_d_inj.
Qed.

Lemma log_record_read_back_witness :
  "http://example.com/a" = "http://example.com/a" /\ 1234%Z = 1234%Z.
Proof.
  apply (log_record_read_back get_world "http://example.com/a"
           "http://example.com/a" 1234 1234); try reflexivity;
    unfold INT_MAX; lia.
Defined.
